(** * KV cache manager and cache telemetry: a shallow embedding

    This development embeds two files of the repository,

    - [vllm/v1/core/kv_cache_manager.py] (class [KVCacheManager]) and
    - [vllm/v1/metrics/loggers.py] (class [CacheTelemetry] and the
      histogram bucket builders),

    and states the properties of the natural-language specification about
    them.  Python integers are [Z]; lists are [list]; dictionaries are
    stdpp's [gmap]; sets are [gset].  Methods that mutate [self] and may
    raise are functions in a state-and-exception monad whose result keeps
    the state reached when the exception was raised.  Blocks are shared
    mutable objects in the source: here a block is its index into the
    pool's inventory, and its reference count and content hash live in the
    pool, so that every list holding the block sees the same counters. *)

From Stdlib Require Import ZArith.
From stdpp Require Import base option list gmap strings sorting.

Local Open Scope Z_scope.

(** ** Exceptions, outcomes and the monad *)

Inductive exn : Type :=
| ValueError
| AssertionError
| IndexError
| AttributeError.

Inductive outcome (A : Type) : Type :=
| Returned (a : A)
| Raised (e : exn).

Arguments Returned {A} a.
Arguments Raised {A} e.

(** A method body over a state [S]: it ends by returning a value or by
    raising, and in both cases leaves a state behind. *)
Definition M (S A : Type) : Type := S → outcome A * S.

Global Instance M_ret {S} : MRet (M S) := λ A a s, (Returned a, s).
Global Instance M_bind {S} : MBind (M S) := λ A B k m s,
  match m s with
  | (Returned a, s') => k a s'
  | (Raised e, s') => (Raised e, s')
  end.

Definition raise {S A} (e : exn) : M S A := λ s, (Raised e, s).
Definition gets {S A} (f : S → A) : M S A := λ s, (Returned (f s), s).
Definition modify {S} (f : S → S) : M S unit := λ s, (Returned tt, f s).
Definition assert {S} (b : bool) : M S unit :=
  if b then mret tt else raise AssertionError.

(** Python's [len] as an integer. *)
Definition len {A} (l : list A) : Z := Z.of_nat (length l).

(** ** The wall clock

    [time.time()] is the only input the telemetry reads from outside.  The
    clock is the sequence of readings the calls will see, with the number
    of readings consumed so far; readings are integers (ticks). *)

Record Clock : Type := {
  clock_readings : nat → Z;
  clock_reads : nat
}.

Definition time_time (c : Clock) : Z * Clock :=
  (clock_readings c (clock_reads c),
   {| clock_readings := clock_readings c; clock_reads := S (clock_reads c) |}).

(** ** [CacheTelemetry] (loggers.py) *)

Record CacheTelemetry : Type := {
  output_dir : string;
  reset_cache_telemetry_on_new_file : bool;
  init_time : Z;
  (* block *)
  total_blocks : Z;
  total_hits : Z;
  total_misses : Z;
  total_evictions : Z;
  first_block : bool;
  (* block (time series) *)
  total_blocks_ts : list (Z * Z);
  total_hits_ts : list (Z * Z);
  total_misses_ts : list (Z * Z);
  total_evictions_ts : list (Z * Z);
  (* requests *)
  unique_requests : Z;
  requests_with_hits : gset string;
  requests_with_misses : gset string;
  requests_with_evictions : gset string;
  tracked_requests : gset string;
  (* requests (time series) *)
  unique_requests_ts : list (Z * Z);
  requests_with_hits_ts : list (Z * Z);
  requests_with_misses_ts : list (Z * Z);
  requests_with_evictions_ts : list (Z * Z)
}.

(** The telemetry methods read the clock and never raise: they are state
    transformers over the clock and the object. *)
Definition TelemetryWorld : Type := Clock * CacheTelemetry.

(** [CacheTelemetry.reset]: every counter, set and series is cleared, the
    first-block flag is armed and [init_time] is read from the clock. *)
Definition reset (w : TelemetryWorld) : TelemetryWorld :=
  let '(clk, t) := w in
  let '(now, clk) := time_time clk in
  (clk,
   {| output_dir := output_dir t;
      reset_cache_telemetry_on_new_file := reset_cache_telemetry_on_new_file t;
      init_time := now;
      total_blocks := 0; total_hits := 0; total_misses := 0;
      total_evictions := 0; first_block := true;
      total_blocks_ts := []; total_hits_ts := []; total_misses_ts := [];
      total_evictions_ts := [];
      unique_requests := 0;
      requests_with_hits := ∅; requests_with_misses := ∅;
      requests_with_evictions := ∅; tracked_requests := ∅;
      unique_requests_ts := []; requests_with_hits_ts := [];
      requests_with_misses_ts := []; requests_with_evictions_ts := [] |}).

(** [CacheTelemetry.__init__]: stores its arguments, reads the clock for
    [init_time] and calls [reset] (which reads it again). *)
Definition CacheTelemetry_init (dir : string) (reset_on_new_file : bool)
    (clk : Clock) : TelemetryWorld :=
  let '(now, clk) := time_time clk in
  reset (clk,
   {| output_dir := dir;
      reset_cache_telemetry_on_new_file := reset_on_new_file;
      init_time := now;
      total_blocks := 0; total_hits := 0; total_misses := 0;
      total_evictions := 0; first_block := true;
      total_blocks_ts := []; total_hits_ts := []; total_misses_ts := [];
      total_evictions_ts := [];
      unique_requests := 0;
      requests_with_hits := ∅; requests_with_misses := ∅;
      requests_with_evictions := ∅; tracked_requests := ∅;
      unique_requests_ts := []; requests_with_hits_ts := [];
      requests_with_misses_ts := []; requests_with_evictions_ts := [] |}).

(** The shared prologue of [record_hit], [record_miss] and (with its own
    timestamp) [record_eviction]:
    [if request_id not in self.tracked_requests: ...]. *)
Definition track_request (id : string) (stamp : Clock → Z → Z * Clock)
    (clk : Clock) (init : Z) (uniq : Z) (tracked : gset string)
    (uniq_ts : list (Z * Z)) : Clock * Z * gset string * list (Z * Z) :=
  if decide (id ∈ tracked) then (clk, uniq, tracked, uniq_ts)
  else
    let '(ts, clk) := stamp clk init in
    (clk, uniq + 1, {[id]} ∪ tracked, uniq_ts ++ [(ts, 1)]).

(** [time.time() - self.init_time]. *)
Definition elapsed (clk : Clock) (init : Z) : Z * Clock :=
  let '(now, clk) := time_time clk in (now - init, clk).

(** [CacheTelemetry.record_hit]. *)
Definition record_hit (num_blocks : Z) (request_id : option string)
    (w : TelemetryWorld) : TelemetryWorld :=
  let '(clk, t) := w in
  if first_block t then
    (* ignore first block because it will always hit *)
    (clk,
     {| output_dir := output_dir t;
        reset_cache_telemetry_on_new_file := reset_cache_telemetry_on_new_file t;
        init_time := init_time t;
        total_blocks := total_blocks t; total_hits := total_hits t;
        total_misses := total_misses t; total_evictions := total_evictions t;
        first_block := false;
        total_blocks_ts := total_blocks_ts t; total_hits_ts := total_hits_ts t;
        total_misses_ts := total_misses_ts t;
        total_evictions_ts := total_evictions_ts t;
        unique_requests := unique_requests t;
        requests_with_hits := requests_with_hits t;
        requests_with_misses := requests_with_misses t;
        requests_with_evictions := requests_with_evictions t;
        tracked_requests := tracked_requests t;
        unique_requests_ts := unique_requests_ts t;
        requests_with_hits_ts := requests_with_hits_ts t;
        requests_with_misses_ts := requests_with_misses_ts t;
        requests_with_evictions_ts := requests_with_evictions_ts t |})
  else
    let '(clk, uniq, tracked, uniq_ts, with_hits, with_hits_ts) :=
      match request_id with
      | Some id =>
          let '(clk, uniq, tracked, uniq_ts) :=
            track_request id elapsed clk (init_time t) (unique_requests t)
              (tracked_requests t) (unique_requests_ts t) in
          if decide (id ∈ requests_with_hits t) then
            (clk, uniq, tracked, uniq_ts,
             requests_with_hits t, requests_with_hits_ts t)
          else
            let '(ts, clk) := elapsed clk (init_time t) in
            (clk, uniq, tracked, uniq_ts,
             {[id]} ∪ requests_with_hits t,
             requests_with_hits_ts t ++ [(ts, 1)])
      | None =>
          (clk, unique_requests t, tracked_requests t, unique_requests_ts t,
           requests_with_hits t, requests_with_hits_ts t)
      end in
    let '(clk, blocks, hits, blocks_ts, hits_ts) :=
      if 0 <? num_blocks then
        let '(timestamp, clk) := elapsed clk (init_time t) in
        (clk, total_blocks t + num_blocks, total_hits t + num_blocks,
         total_blocks_ts t ++ [(timestamp, num_blocks)],
         total_hits_ts t ++ [(timestamp, num_blocks)])
      else
        (clk, total_blocks t, total_hits t,
         total_blocks_ts t, total_hits_ts t) in
    (clk,
     {| output_dir := output_dir t;
        reset_cache_telemetry_on_new_file := reset_cache_telemetry_on_new_file t;
        init_time := init_time t;
        total_blocks := blocks; total_hits := hits;
        total_misses := total_misses t; total_evictions := total_evictions t;
        first_block := false;
        total_blocks_ts := blocks_ts; total_hits_ts := hits_ts;
        total_misses_ts := total_misses_ts t;
        total_evictions_ts := total_evictions_ts t;
        unique_requests := uniq;
        requests_with_hits := with_hits;
        requests_with_misses := requests_with_misses t;
        requests_with_evictions := requests_with_evictions t;
        tracked_requests := tracked;
        unique_requests_ts := uniq_ts;
        requests_with_hits_ts := with_hits_ts;
        requests_with_misses_ts := requests_with_misses_ts t;
        requests_with_evictions_ts := requests_with_evictions_ts t |}).

(** [CacheTelemetry.record_miss]. *)
Definition record_miss (num_blocks : Z) (request_id : option string)
    (w : TelemetryWorld) : TelemetryWorld :=
  let '(clk, t) := w in
  let '(clk, uniq, tracked, uniq_ts, with_misses, with_misses_ts) :=
    match request_id with
    | Some id =>
        let '(clk, uniq, tracked, uniq_ts) :=
          track_request id elapsed clk (init_time t) (unique_requests t)
            (tracked_requests t) (unique_requests_ts t) in
        if decide (id ∈ requests_with_misses t) then
          (clk, uniq, tracked, uniq_ts,
           requests_with_misses t, requests_with_misses_ts t)
        else
          let '(ts, clk) := elapsed clk (init_time t) in
          (clk, uniq, tracked, uniq_ts,
           {[id]} ∪ requests_with_misses t,
           requests_with_misses_ts t ++ [(ts, 1)])
    | None =>
        (clk, unique_requests t, tracked_requests t, unique_requests_ts t,
         requests_with_misses t, requests_with_misses_ts t)
    end in
  let '(clk, blocks, misses, blocks_ts, misses_ts) :=
    if 0 <? num_blocks then
      let '(timestamp, clk) := elapsed clk (init_time t) in
      (clk, total_blocks t + num_blocks, total_misses t + num_blocks,
       total_blocks_ts t ++ [(timestamp, num_blocks)],
       total_misses_ts t ++ [(timestamp, num_blocks)])
    else
      (clk, total_blocks t, total_misses t,
       total_blocks_ts t, total_misses_ts t) in
  (clk,
   {| output_dir := output_dir t;
      reset_cache_telemetry_on_new_file := reset_cache_telemetry_on_new_file t;
      init_time := init_time t;
      total_blocks := blocks; total_hits := total_hits t;
      total_misses := misses; total_evictions := total_evictions t;
      first_block := first_block t;
      total_blocks_ts := blocks_ts; total_hits_ts := total_hits_ts t;
      total_misses_ts := misses_ts;
      total_evictions_ts := total_evictions_ts t;
      unique_requests := uniq;
      requests_with_hits := requests_with_hits t;
      requests_with_misses := with_misses;
      requests_with_evictions := requests_with_evictions t;
      tracked_requests := tracked;
      unique_requests_ts := uniq_ts;
      requests_with_hits_ts := requests_with_hits_ts t;
      requests_with_misses_ts := with_misses_ts;
      requests_with_evictions_ts := requests_with_evictions_ts t |}).

(** [CacheTelemetry.record_eviction]: one timestamp is taken first and
    reused by every series the call appends to. *)
Definition record_eviction (num_blocks : Z) (request_id : option string)
    (w : TelemetryWorld) : TelemetryWorld :=
  let '(clk, t) := w in
  let '(timestamp, clk) := elapsed clk (init_time t) in
  let '(uniq, tracked, uniq_ts, with_evictions, with_evictions_ts) :=
    match request_id with
    | Some id =>
        let '(_, uniq, tracked, uniq_ts) :=
          track_request id (λ c _, (timestamp, c)) clk (init_time t)
            (unique_requests t) (tracked_requests t) (unique_requests_ts t) in
        let '(with_evictions, with_evictions_ts) :=
          if decide (id ∈ requests_with_evictions t) then
            (requests_with_evictions t, requests_with_evictions_ts t)
          else
            ({[id]} ∪ requests_with_evictions t,
             requests_with_evictions_ts t ++ [(timestamp, 1)]) in
        (uniq, tracked, uniq_ts, with_evictions,
         with_evictions_ts ++ [(timestamp, num_blocks)])
    | None =>
        (unique_requests t, tracked_requests t, unique_requests_ts t,
         requests_with_evictions t, requests_with_evictions_ts t)
    end in
  (clk,
   {| output_dir := output_dir t;
      reset_cache_telemetry_on_new_file := reset_cache_telemetry_on_new_file t;
      init_time := init_time t;
      total_blocks := total_blocks t; total_hits := total_hits t;
      total_misses := total_misses t;
      total_evictions := total_evictions t + num_blocks;
      first_block := first_block t;
      total_blocks_ts := total_blocks_ts t; total_hits_ts := total_hits_ts t;
      total_misses_ts := total_misses_ts t;
      total_evictions_ts := total_evictions_ts t ++ [(timestamp, num_blocks)];
      unique_requests := uniq;
      requests_with_hits := requests_with_hits t;
      requests_with_misses := requests_with_misses t;
      requests_with_evictions := with_evictions;
      tracked_requests := tracked;
      unique_requests_ts := uniq_ts;
      requests_with_hits_ts := requests_with_hits_ts t;
      requests_with_misses_ts := requests_with_misses_ts t;
      requests_with_evictions_ts := with_evictions_ts |}).

(** ** Integer helpers *)

(** Modelled from the spec: [cdiv] is imported from [vllm.utils], which is
    not among the sources; the spec writes it [ceil(a / b)].  On Python
    integers that is [-(a // -b)]; [Z.div] rounds towards minus infinity
    like [//]. *)
Definition cdiv (a b : Z) : Z := - (a / - b).

(** ** Requests and block hashes *)

(** Modelled from the spec: a BlockHash is the triple
    [(hash_value, parent_hash_or_none, cache_partition_key)]. *)
Record BlockHashType : Type := {
  hash_value : Z;
  parent_hash : option Z;
  cache_partition_key : option Z
}.

Inductive RequestStatus : Type := WAITING | RUNNING | PREEMPTED | FINISHED.

Record SamplingParams : Type := {
  prompt_logprobs : option Z
}.

(** Modelled from the spec: the [Request] class is not among the sources;
    the manager reads its id, token ids, [num_computed_tokens], pending
    speculative token ids, sampling parameters and status.  [num_tokens]
    is the number of token ids the request holds. *)
Record Request : Type := {
  request_id : string;
  all_token_ids : list Z;
  num_computed_tokens : Z;
  spec_token_ids : list Z;
  sampling_params : SamplingParams;
  partition_key : option Z;
  status : RequestStatus
}.

Definition num_tokens (r : Request) : Z := len (all_token_ids r).

(** The hash function of the manager ([sha256] or the builtin [hash]):
    previous chain hash, the tokens of the block, the partition key. *)
Definition HashFn : Type := option Z → list Z → option Z → Z.

(** Modelled from the spec: [hash_request_tokens] is not among the sources.
    It produces the chain of hashes of every complete block of the token
    sequence, the trailing partial block excluded; each hash is a function
    of the previous chain hash, the tokens of the block and the partition
    key. *)
Definition hash_request_tokens (hash_fn : HashFn) (block_size : Z)
    (request : Request) : list BlockHashType :=
  let token_ids := all_token_ids request in
  foldl
    (λ chain k,
       let parent := hash_value <$> last chain in
       let block_token_ids :=
         take (Z.to_nat block_size) (drop (k * Z.to_nat block_size) token_ids) in
       chain ++
       [ {| hash_value := hash_fn parent block_token_ids (partition_key request);
            parent_hash := parent;
            cache_partition_key := partition_key request |} ])
    [] (seq 0 (Z.to_nat (len token_ids / block_size))).

(** ** The block pool

    The [BlockPool] class is not among the sources.  Section 4.3 of the
    specification gives its contract; the definitions below follow it
    sentence by sentence. *)

(** Modelled from the spec: [KVCacheBlock] is not among the sources; a
    block has a reference count ([ref_cnt] in the manager's code) and an
    optional content hash, set once the block is a cacheable unit. *)
Record KVCacheBlock : Type := {
  ref_cnt : nat;
  block_hash : option BlockHashType
}.

(** Modelled from the spec: [BlockPool] is not among the sources; it
    "owns the fixed inventory of physical blocks; maintains a reference
    count per block, a FIFO/LRU evictable-queue of unreferenced blocks, and
    a hash→block index for already-cached content". *)
Record BlockPool : Type := {
  (* the fixed inventory; a block is its index *)
  blocks : list KVCacheBlock;
  (* the evictable queue: unreferenced blocks, oldest release first *)
  free_block_queue : list nat;
  (* the cache index: hash value to the one resident block holding it *)
  cached_block_hash_to_block : gmap Z nat
}.

(** Modelled from the spec: a new pool holds [num_gpu_blocks] blocks, none
    referenced, none cached, all queued in index order.  The constructor
    is also passed [enable_caching]; the contract gives it no effect on
    the operations below, which the manager calls for caching only when
    caching is enabled. *)
Definition BlockPool_init (num_gpu_blocks : nat) : BlockPool :=
  {| blocks := replicate num_gpu_blocks {| ref_cnt := 0; block_hash := None |};
     free_block_queue := seq 0 num_gpu_blocks;
     cached_block_hash_to_block := ∅ |}.

(** Modelled from the spec: [blk.ref_cnt], read from the pool that holds
    the block; an index outside the inventory names no block and reads as
    unreferenced. *)
Definition block_ref_cnt (p : BlockPool) (b : nat) : nat :=
  match blocks p !! b with Some k => ref_cnt k | None => 0%nat end.

(** Modelled from the spec: the content hash of a block, read from the
    pool that holds it. *)
Definition block_content_hash (p : BlockPool) (b : nat) : option BlockHashType :=
  match blocks p !! b with Some k => block_hash k | None => None end.

(** Modelled from the spec: "[get_num_free_blocks() → int]: blocks with
    [ref_count == 0], i.e., either truly empty or evictable-cached". *)
Definition get_num_free_blocks (p : BlockPool) : Z :=
  len (filter (λ k, ref_cnt k = 0%nat) (blocks p)).

(** Modelled from the spec: "[touch(blocks)]: pins ... (increments
    ref_count, removes from the evictable queue)". *)
Definition touch_block (p : BlockPool) (b : nat) : BlockPool :=
  match blocks p !! b with
  | None => p
  | Some k =>
      {| blocks := <[b := {| ref_cnt := S (ref_cnt k); block_hash := block_hash k |}]>
                     (blocks p);
         free_block_queue :=
           if decide (ref_cnt k = 0%nat)
           then filter (λ x, x ≠ b) (free_block_queue p)
           else free_block_queue p;
         cached_block_hash_to_block := cached_block_hash_to_block p |}
  end.

(** Modelled from the spec: [touch(blocks)] pins the blocks one after the
    other. *)
Definition touch (bs : list nat) : M BlockPool unit :=
  modify (λ p, foldl touch_block p bs).

(** Modelled from the spec: "[free_blocks(blocks)]: decrements [ref_count]
    for each block; any block reaching 0 is appended to the tail of the
    evictable queue"; releasing a block whose count is already zero is an
    invariant violation, "reported as an assertion failure". *)
Definition free_block (b : nat) : M BlockPool unit := λ p,
  match blocks p !! b with
  | None => (Returned tt, p)
  | Some k =>
      match ref_cnt k with
      | O => (Raised AssertionError, p)
      | S n =>
          (Returned tt,
           {| blocks := <[b := {| ref_cnt := n; block_hash := block_hash k |}]>
                          (blocks p);
              free_block_queue :=
                if decide (n = 0%nat) then free_block_queue p ++ [b]
                else free_block_queue p;
              cached_block_hash_to_block := cached_block_hash_to_block p |})
      end
  end.

(** Modelled from the spec: [free_blocks(blocks)] releases the blocks in
    the order given. *)
Fixpoint free_blocks (bs : list nat) : M BlockPool unit :=
  match bs with
  | [] => mret tt
  | b :: bs' => free_block b;; free_blocks bs'
  end.

(** Modelled from the spec: handing out one block of [get_new_blocks];
    eviction is "removing the hash-index entry and clearing the block's
    content identity before handing it out"; the block leaves the queue
    with [ref_count] set to 1. *)
Definition take_block (p : BlockPool) (b : nat) : BlockPool :=
  {| blocks := <[b := {| ref_cnt := 1; block_hash := None |}]> (blocks p);
     free_block_queue := filter (λ x, x ≠ b) (free_block_queue p);
     cached_block_hash_to_block :=
       match block_content_hash p b with
       | Some h =>
           if decide (cached_block_hash_to_block p !! hash_value h = Some b)
           then delete (hash_value h) (cached_block_hash_to_block p)
           else cached_block_hash_to_block p
       | None => cached_block_hash_to_block p
       end |}.

(** Modelled from the spec: a block holds cached content when its content
    hash is set. *)
Definition is_cached (p : BlockPool) (b : nat) : Prop :=
  is_Some (block_content_hash p b).

Global Instance is_cached_dec p b : Decision (is_cached p b) := _.

(** Modelled from the spec: "[get_new_blocks(n) → list of n Blocks]:
    returns n blocks with [ref_count] set to 1 each.  Satisfies the request
    first from truly-free blocks; if insufficient, evicts from the head of
    the evictable queue (oldest-released-first) ... Fails (asserts ...) if
    fewer than n blocks are obtainable". *)
Definition get_new_blocks (n : nat) : M BlockPool (list nat) := λ p,
  let queue := free_block_queue p in
  if decide (length queue < n)%nat then (Raised AssertionError, p)
  else
    let truly_free := filter (λ b, ¬ is_cached p b) queue in
    let evictable := filter (λ b, is_cached p b) queue in
    let chosen := take n (truly_free ++ evictable) in
    (Returned chosen, foldl take_block p chosen).

(** Modelled from the spec: "[cache_full_blocks(request, blocks,
    block_hashes, first_uncached_index, last_full_index, block_size,
    hash_fn)]: for every block between the two indices that is not yet
    indexed, computes/assigns its content hash from the chain and inserts
    it into the cache index (no-op if an identical hash is already
    resident ... the new block is simply not re-indexed)".  The hash of
    position [i] is read from the stored chain, or computed from the
    request's tokens when the stored chain is shorter. *)
Definition cache_block (chain : list BlockHashType) (req_blocks : list nat)
    (p : BlockPool) (i : nat) : BlockPool :=
  match req_blocks !! i, chain !! i with
  | Some b, Some h =>
      match blocks p !! b with
      | Some k =>
          match block_hash k with
          | Some _ => p
          | None =>
              {| blocks := <[b := {| ref_cnt := ref_cnt k; block_hash := Some h |}]>
                             (blocks p);
                 free_block_queue := free_block_queue p;
                 cached_block_hash_to_block :=
                   match cached_block_hash_to_block p !! hash_value h with
                   | Some _ => cached_block_hash_to_block p
                   | None => <[hash_value h := b]> (cached_block_hash_to_block p)
                   end |}
          end
      | None => p
      end
  | _, _ => p
  end.

(** Modelled from the spec: the chain [cache_full_blocks] hashes the
    blocks from: the stored hashes, continued by the hashes computed from
    the request's tokens. *)
Definition extended_chain (request : Request) (block_hashes : list BlockHashType)
    (block_size : Z) (hash_fn : HashFn) : list BlockHashType :=
  block_hashes
  ++ drop (length block_hashes) (hash_request_tokens hash_fn block_size request).

(** Modelled from the spec: [cache_full_blocks] goes through the positions
    from [num_cached_blocks] up to [num_full_blocks], the latter
    excluded. *)
Definition cache_full_blocks (request : Request) (req_blocks : list nat)
    (block_hashes : list BlockHashType) (num_cached_blocks num_full_blocks : Z)
    (block_size : Z) (hash_fn : HashFn) : M BlockPool unit :=
  let chain := extended_chain request block_hashes block_size hash_fn in
  modify (λ p,
    foldl (cache_block chain req_blocks) p
      (seq (Z.to_nat num_cached_blocks)
           (Z.to_nat num_full_blocks - Z.to_nat num_cached_blocks))).

(** ** The cache-topology policy (specialized manager) *)

(** Modelled from the spec: the specialized manager is not among the
    sources; it answers which prefix of a chain is resident in the pool,
    and which blocks of a request's list can be dropped. *)
Record SpecializedManager : Type := {
  (* the resident blocks matching a prefix of the chain *)
  find_longest_cache_hit : BlockPool → list BlockHashType → list nat;
  (* the request's list after dropping the blocks attention no longer
     needs, and the dropped blocks *)
  remove_skipped_blocks : list nat → Z → list nat * list nat
}.

(** Modelled from the spec: full attention "scans the chain from the start,
    matching each hash against the cache index; stops at the first miss";
    its [remove_skipped_blocks] "is always empty". *)
Fixpoint full_attention_hit (p : BlockPool) (chain : list BlockHashType)
    : list nat :=
  match chain with
  | [] => []
  | h :: chain' =>
      match cached_block_hash_to_block p !! hash_value h with
      | Some b => b :: full_attention_hit p chain'
      | None => []
      end
  end.

(** Modelled from the spec: the full-attention policy. *)
Definition FullAttentionManager : SpecializedManager :=
  {| find_longest_cache_hit := full_attention_hit;
     remove_skipped_blocks := λ req_blocks _, (req_blocks, []) |}.

(** ** Prefix-cache statistics *)

Module Stats.
(** Modelled from the spec: [PrefixCacheStats] is not among the sources;
    it is the per-interval record of counters the manager increments,
    with a reset flag. *)
Record PrefixCacheStats : Type := {
  reset : bool;
  requests : Z;
  queries : Z;
  hits : Z;
  request_hits : Z;
  evictions : Z;
  request_evictions : Z
}.

Definition fresh : PrefixCacheStats :=
  {| reset := false; requests := 0; queries := 0; hits := 0;
     request_hits := 0; evictions := 0; request_evictions := 0 |}.

Definition add_request (st : PrefixCacheStats) : PrefixCacheStats :=
  {| reset := reset st; requests := requests st + 1; queries := queries st;
     hits := hits st; request_hits := request_hits st;
     evictions := evictions st; request_evictions := request_evictions st |}.

(** [queries += q; hits += h; if h > 0: request_hits += 1]. *)
Definition add_lookup (q h : Z) (st : PrefixCacheStats) : PrefixCacheStats :=
  {| reset := reset st; requests := requests st; queries := queries st + q;
     hits := hits st + h;
     request_hits := if 0 <? h then request_hits st + 1 else request_hits st;
     evictions := evictions st; request_evictions := request_evictions st |}.

(** [evictions += n; request_evictions += 1]. *)
Definition add_evictions (n : Z) (st : PrefixCacheStats) : PrefixCacheStats :=
  {| reset := reset st; requests := requests st; queries := queries st;
     hits := hits st; request_hits := request_hits st;
     evictions := evictions st + n;
     request_evictions := request_evictions st + 1 |}.
End Stats.

(** ** [KVCacheManager] (kv_cache_manager.py) *)

(** The attributes [__init__] fixes once and no method assigns again. *)
Record ManagerConfig : Type := {
  block_size : Z;
  num_gpu_blocks : nat;
  max_model_len : Z;
  enable_caching : bool;
  caching_hash_fn : HashFn;
  num_preallocate_tokens : Z;
  log_stats : bool;
  specialized_manager : SpecializedManager
}.

Definition max_num_blocks_per_req (cfg : ManagerConfig) : Z :=
  cdiv (max_model_len cfg) (block_size cfg).

Definition num_preallocate_blocks (cfg : ManagerConfig) : Z :=
  cdiv (num_preallocate_tokens cfg) (block_size cfg).

(** The attributes the methods mutate, together with the clock read by the
    telemetry object.  [req_to_blocks] and [req_to_block_hashes] are
    [defaultdict(list)]: reading a missing key stores an empty list. *)
Record KVCacheManager : Type := {
  block_pool : BlockPool;
  cache_telemetry : option CacheTelemetry;
  wall_clock : Clock;
  req_to_blocks : gmap string (list nat);
  req_to_block_hashes : gmap string (list BlockHashType);
  num_cached_block : gmap string Z;
  prefix_cache_stats : Stats.PrefixCacheStats
}.

Definition KVCacheManager_init (cfg : ManagerConfig)
    (telemetry : option CacheTelemetry) (clk : Clock) : KVCacheManager :=
  {| block_pool := BlockPool_init (num_gpu_blocks cfg);
     cache_telemetry := telemetry;
     wall_clock := clk;
     req_to_blocks := ∅;
     req_to_block_hashes := ∅;
     num_cached_block := ∅;
     prefix_cache_stats := Stats.fresh |}.

Definition set_block_pool (p : BlockPool) (m : KVCacheManager) : KVCacheManager :=
  {| block_pool := p; cache_telemetry := cache_telemetry m;
     wall_clock := wall_clock m; req_to_blocks := req_to_blocks m;
     req_to_block_hashes := req_to_block_hashes m;
     num_cached_block := num_cached_block m;
     prefix_cache_stats := prefix_cache_stats m |}.

Definition set_telemetry (w : TelemetryWorld) (m : KVCacheManager) : KVCacheManager :=
  {| block_pool := block_pool m; cache_telemetry := Some w.2;
     wall_clock := w.1; req_to_blocks := req_to_blocks m;
     req_to_block_hashes := req_to_block_hashes m;
     num_cached_block := num_cached_block m;
     prefix_cache_stats := prefix_cache_stats m |}.

Definition set_req_to_blocks (d : gmap string (list nat)) (m : KVCacheManager)
    : KVCacheManager :=
  {| block_pool := block_pool m; cache_telemetry := cache_telemetry m;
     wall_clock := wall_clock m; req_to_blocks := d;
     req_to_block_hashes := req_to_block_hashes m;
     num_cached_block := num_cached_block m;
     prefix_cache_stats := prefix_cache_stats m |}.

Definition set_req_to_block_hashes (d : gmap string (list BlockHashType))
    (m : KVCacheManager) : KVCacheManager :=
  {| block_pool := block_pool m; cache_telemetry := cache_telemetry m;
     wall_clock := wall_clock m; req_to_blocks := req_to_blocks m;
     req_to_block_hashes := d;
     num_cached_block := num_cached_block m;
     prefix_cache_stats := prefix_cache_stats m |}.

Definition set_num_cached_block (d : gmap string Z) (m : KVCacheManager)
    : KVCacheManager :=
  {| block_pool := block_pool m; cache_telemetry := cache_telemetry m;
     wall_clock := wall_clock m; req_to_blocks := req_to_blocks m;
     req_to_block_hashes := req_to_block_hashes m;
     num_cached_block := d;
     prefix_cache_stats := prefix_cache_stats m |}.

Definition set_prefix_cache_stats (st : Stats.PrefixCacheStats)
    (m : KVCacheManager) : KVCacheManager :=
  {| block_pool := block_pool m; cache_telemetry := cache_telemetry m;
     wall_clock := wall_clock m; req_to_blocks := req_to_blocks m;
     req_to_block_hashes := req_to_block_hashes m;
     num_cached_block := num_cached_block m;
     prefix_cache_stats := st |}.

(** A pool method called on [self.block_pool]. *)
Definition on_pool {A} (op : M BlockPool A) : M KVCacheManager A := λ m,
  let '(r, p) := op (block_pool m) in (r, set_block_pool p m).

(** A telemetry method called on [self.cache_telemetry]; the attribute
    defaults to [None], on which the call raises. *)
Definition on_telemetry (op : TelemetryWorld → TelemetryWorld)
    : M KVCacheManager unit := λ m,
  match cache_telemetry m with
  | None => (Raised AttributeError, m)
  | Some t => (Returned tt, set_telemetry (op (wall_clock m, t)) m)
  end.

(** [self.req_to_blocks[request_id]] on the [defaultdict]. *)
Definition req_blocks_of (id : string) : M KVCacheManager (list nat) := λ m,
  match req_to_blocks m !! id with
  | Some l => (Returned l, m)
  | None => (Returned [], set_req_to_blocks (<[id := []]> (req_to_blocks m)) m)
  end.

(** [self.req_to_block_hashes[request_id]] on the [defaultdict]. *)
Definition req_block_hashes_of (id : string)
    : M KVCacheManager (list BlockHashType) := λ m,
  match req_to_block_hashes m !! id with
  | Some l => (Returned l, m)
  | None =>
      (Returned [],
       set_req_to_block_hashes (<[id := []]> (req_to_block_hashes m)) m)
  end.

(** The list stored under a request id is mutated in place by the source
    ([pop], [append], [extend]); here the new list is stored back. *)
Definition store_req_blocks (id : string) (l : list nat) : M KVCacheManager unit :=
  modify (λ m, set_req_to_blocks (<[id := l]> (req_to_blocks m)) m).

Definition store_block_hashes (id : string) (l : list BlockHashType)
    : M KVCacheManager unit :=
  modify (λ m, set_req_to_block_hashes (<[id := l]> (req_to_block_hashes m)) m).

Definition update_stats (f : Stats.PrefixCacheStats → Stats.PrefixCacheStats)
    : M KVCacheManager unit :=
  modify (λ m, set_prefix_cache_stats (f (prefix_cache_stats m)) m).

(** [KVCacheManager.get_computed_blocks]. *)
Definition get_computed_blocks (cfg : ManagerConfig) (request : Request)
    : M KVCacheManager (list nat * Z) :=
  if negb (enable_caching cfg) then
    (* Prefix caching is disabled. *)
    mret ([], 0)
  else
    stored ← req_block_hashes_of (request_id request);
    block_hashes ←
      match stored with
      | [] =>
          let computed :=
            hash_request_tokens (caching_hash_fn cfg) (block_size cfg) request in
          store_block_hashes (request_id request) computed;;
          mret computed
      | _ :: _ => mret stored
      end;
    update_stats Stats.add_request;;
    (* When the request requires prompt logprobs, we skip prefix caching. *)
    match prompt_logprobs (sampling_params request) with
    | Some _ => mret ([], 0)
    | None =>
        '(block_hashes, last_block_hash) ←
          (if decide (len block_hashes * block_size cfg = num_tokens request) then
             match last block_hashes with
             | None => raise IndexError
             | Some h =>
                 store_block_hashes (request_id request) (removelast block_hashes);;
                 mret (removelast block_hashes, Some h)
             end
           else mret (block_hashes, None));
        pool ← gets block_pool;
        let computed_blocks :=
          find_longest_cache_hit (specialized_manager cfg) pool block_hashes in
        update_stats (Stats.add_lookup (len block_hashes) (len computed_blocks));;
        (if log_stats cfg then
           on_telemetry
             (record_hit (len computed_blocks) (Some (request_id request)));;
           on_telemetry
             (record_miss (len block_hashes - len computed_blocks)
                (Some (request_id request)))
         else mret tt);;
        match last_block_hash with
        | Some h =>
            (* Add back the last block hash if it was removed. *)
            store_block_hashes (request_id request) (block_hashes ++ [h])
        | None => mret tt
        end;;
        mret (computed_blocks, len computed_blocks * block_size cfg)
    end.

(** [KVCacheManager.allocate_slots]. *)
Definition allocate_slots (cfg : ManagerConfig) (request : Request)
    (num_tokens : Z) (new_computed_blocks : option (list nat))
    : M KVCacheManager (option (list nat)) :=
  if decide (num_tokens = 0) then raise ValueError
  else
    let new_computed_blocks := default [] new_computed_blocks in
    req_blocks ← req_blocks_of (request_id request);
    (* Free the blocks that are skipped during the attention computation. *)
    let '(req_blocks, removed_blocks) :=
      remove_skipped_blocks (specialized_manager cfg) req_blocks
        (num_computed_tokens request) in
    store_req_blocks (request_id request) req_blocks;;
    on_pool (free_blocks removed_blocks);;
    let num_computed_tokens :=
      num_computed_tokens request + len new_computed_blocks * block_size cfg in
    let num_required_blocks :=
      cdiv (num_computed_tokens + num_tokens) (block_size cfg) in
    let num_new_blocks :=
      num_required_blocks - len req_blocks - len new_computed_blocks in
    pool ← gets block_pool;
    let num_evictable_computed_blocks :=
      len (filter (λ blk, block_ref_cnt pool blk = 0%nat) new_computed_blocks) in
    if decide (num_new_blocks >
               get_num_free_blocks pool - num_evictable_computed_blocks) then
      (* Cannot allocate new blocks *)
      mret None
    else
      (* Touch the computed blocks to make sure they won't be evicted. *)
      (if enable_caching cfg then on_pool (touch new_computed_blocks)
       else assert (bool_decide (new_computed_blocks = [])));;
      let req_blocks := req_blocks ++ new_computed_blocks in
      store_req_blocks (request_id request) req_blocks;;
      '(req_blocks, new_blocks) ←
        (if decide (num_new_blocks ≤ 0) then
           (* No new block is needed. *)
           mret (req_blocks, [])
         else
           free ← gets (λ m, get_num_free_blocks (block_pool m));
           let num_new_blocks :=
             Z.min (Z.min (num_new_blocks + num_preallocate_blocks cfg) free)
               (max_num_blocks_per_req cfg - len req_blocks) in
           assert (bool_decide (num_new_blocks > 0));;
           num_readily_free_blocks ← gets (λ m, get_num_free_blocks (block_pool m));
           (if decide (num_new_blocks > num_readily_free_blocks) then
              let num_blocks_to_evict := num_new_blocks - num_readily_free_blocks in
              update_stats (Stats.add_evictions num_blocks_to_evict);;
              (if log_stats cfg then
                 on_telemetry
                   (record_eviction num_blocks_to_evict (Some (request_id request)))
               else mret tt)
            else mret tt);;
           new_blocks ← on_pool (get_new_blocks (Z.to_nat num_new_blocks));
           store_req_blocks (request_id request) (req_blocks ++ new_blocks);;
           mret (req_blocks ++ new_blocks, new_blocks));
      if negb (enable_caching cfg) then mret (Some new_blocks)
      else
        num_cached_blocks ←
          gets (λ m, default (len new_computed_blocks)
                       (num_cached_block m !! request_id request));
        (* We only cache blocks with generated (accepted) tokens. *)
        let num_full_blocks_after_append :=
          (num_computed_tokens + num_tokens - len (spec_token_ids request))
            / block_size cfg in
        block_hashes ← req_block_hashes_of (request_id request);
        on_pool
          (cache_full_blocks request req_blocks block_hashes num_cached_blocks
             num_full_blocks_after_append (block_size cfg) (caching_hash_fn cfg));;
        modify (λ m, set_num_cached_block
                       (<[request_id request := num_full_blocks_after_append]>
                          (num_cached_block m)) m);;
        mret (Some new_blocks).

(** [KVCacheManager.free]. *)
Definition free (cfg : ManagerConfig) (request : Request)
    : M KVCacheManager unit :=
  (* Default to [] in case a request is freed (aborted) before alloc. *)
  blocks ← gets (λ m, default [] (req_to_blocks m !! request_id request));
  modify (λ m, set_req_to_blocks (delete (request_id request) (req_to_blocks m)) m);;
  let ordered_blocks :=
    if enable_caching cfg then reverse blocks else blocks in
  on_pool (free_blocks ordered_blocks);;
  modify (λ m, set_num_cached_block
                 (delete (request_id request) (num_cached_block m)) m).

(** [KVCacheManager.free_block_hashes]. *)
Definition free_block_hashes (request : Request) : M KVCacheManager unit :=
  modify (λ m, set_req_to_block_hashes
                 (delete (request_id request) (req_to_block_hashes m)) m).

(** ** Sequences of calls *)

(** A run of [record_hit] calls, each given by its count and request id. *)
Definition record_hits (calls : list (Z * option string)) (w : TelemetryWorld)
    : TelemetryWorld :=
  foldl (λ w c, record_hit c.1 c.2 w) w calls.

Definition sum_counts (l : list Z) : Z := foldr Z.add 0 l.

(** ** Quantities of [allocate_slots], named for the statements *)

(** [num_new_blocks], before it is clamped: the blocks required for the
    computed and the new tokens, minus the blocks the request holds and
    the new computed blocks. *)
Definition required_new_blocks (cfg : ManagerConfig) (request : Request)
    (num_tokens : Z) (new_computed_blocks kept : list nat) : Z :=
  cdiv (num_computed_tokens request + len new_computed_blocks * block_size cfg
        + num_tokens) (block_size cfg)
  - len kept - len new_computed_blocks.

(** [num_full_blocks_after_append]. *)
Definition full_blocks_after_append (cfg : ManagerConfig) (request : Request)
    (num_tokens : Z) (new_computed_blocks : list nat) : Z :=
  (num_computed_tokens request + len new_computed_blocks * block_size cfg
   + num_tokens - len (spec_token_ids request)) / block_size cfg.

(** [num_evictable_computed_blocks]. *)
Definition num_evictable (p : BlockPool) (new_computed_blocks : list nat) : Z :=
  len (filter (λ blk, block_ref_cnt p blk = 0%nat) new_computed_blocks).

(** [num_new_blocks], after it is clamped by the free blocks and by the
    per-request cap. *)
Definition pulled_blocks (cfg : ManagerConfig) (needed free held : Z) : Z :=
  Z.min (Z.min (needed + num_preallocate_blocks cfg) free)
    (max_num_blocks_per_req cfg - held).

(** What a call of [allocate_slots] that returned a block list went
    through: [kept] and [removed] are the policy's answer, [p1] the pool
    after the release of [removed], [p2] after pinning the new computed
    blocks, [p3] after pulling [new]. *)
Record alloc_success (cfg : ManagerConfig) (r : Request) (n : Z)
    (ncb : list nat) (m : KVCacheManager) (new : list nat)
    (m' : KVCacheManager) (kept removed : list nat) (p1 p2 p3 : BlockPool)
    : Prop := {
  as_nonzero : n ≠ 0;
  as_skipped :
    remove_skipped_blocks (specialized_manager cfg)
      (default [] (req_to_blocks m !! request_id r)) (num_computed_tokens r)
    = (kept, removed);
  as_released : free_blocks removed (block_pool m) = (Returned tt, p1);
  as_capacity :
    required_new_blocks cfg r n ncb kept
    ≤ get_num_free_blocks p1 - num_evictable p1 ncb;
  as_touched :
    if enable_caching cfg then p2 = foldl touch_block p1 ncb
    else ncb = [] ∧ p2 = p1;
  as_pulled :
    if decide (required_new_blocks cfg r n ncb kept ≤ 0) then
      new = [] ∧ p3 = p2
    else
      let k := pulled_blocks cfg (required_new_blocks cfg r n ncb kept)
                 (get_num_free_blocks p2) (len (kept ++ ncb)) in
      k > 0 ∧ get_new_blocks (Z.to_nat k) p2 = (Returned new, p3);
  as_blocks :
    req_to_blocks m' = <[request_id r := kept ++ ncb ++ new]> (req_to_blocks m);
  as_stats : prefix_cache_stats m' = prefix_cache_stats m;
  as_telemetry : cache_telemetry m' = cache_telemetry m;
  as_clock : wall_clock m' = wall_clock m;
  as_cached :
    if enable_caching cfg then
      num_cached_block m'
      = <[request_id r := full_blocks_after_append cfg r n ncb]>
          (num_cached_block m) ∧
      cache_full_blocks r (kept ++ ncb ++ new)
        (default [] (req_to_block_hashes m !! request_id r))
        (default (len ncb) (num_cached_block m !! request_id r))
        (full_blocks_after_append cfg r n ncb) (block_size cfg)
        (caching_hash_fn cfg) p3
      = (Returned tt, block_pool m') ∧
      (∀ id l, req_to_block_hashes m !! id = Some l →
               req_to_block_hashes m' !! id = Some l) ∧
      (∀ id, req_to_block_hashes m !! id = None →
             req_to_block_hashes m' !! id = None ∨
             (id = request_id r ∧ req_to_block_hashes m' !! id = Some []))
    else
      num_cached_block m' = num_cached_block m ∧
      block_pool m' = p3 ∧
      req_to_block_hashes m' = req_to_block_hashes m
}.

(** ** The hash chain [get_computed_blocks] works on *)

(** The stored chain when there is a non-empty one, else the chain freshly
    computed from the request's tokens. *)
Definition request_chain (cfg : ManagerConfig) (request : Request)
    (m : KVCacheManager) : list BlockHashType :=
  match default [] (req_to_block_hashes m !! request_id request) with
  | [] => hash_request_tokens (caching_hash_fn cfg) (block_size cfg) request
  | stored => stored
  end.

(** The chain handed to the policy: the last hash is dropped when the
    chain covers the request's tokens exactly. *)
Definition probed_chain (cfg : ManagerConfig) (request : Request)
    (m : KVCacheManager) : list BlockHashType :=
  let chain := request_chain cfg request m in
  if decide (len chain * block_size cfg = num_tokens request)
  then removelast chain else chain.

(** A manager that logs statistics was given a telemetry object. *)
Definition telemetry_ready (cfg : ManagerConfig) (m : KVCacheManager) : Prop :=
  log_stats cfg = true → is_Some (cache_telemetry m).

(** A policy never reports more resident blocks than the chain it was
    given has hashes. *)
Definition hit_within_chain (pol : SpecializedManager) : Prop :=
  ∀ p chain, (length (find_longest_cache_hit pol p chain) ≤ length chain)%nat.

(** A method body that raises only exceptions of a given kind. *)
Definition raises_only {S A} (c : M S A) (allowed : exn → Prop) : Prop :=
  ∀ s e s', c s = (Raised e, s') → allowed e.

(** ** Concrete managers, on which the model is run *)

Definition example_hash : HashFn := λ parent token_ids _,
  foldl (λ h t, (h * 31 + t) `mod` 1009) (default 7 parent) token_ids.

Definition example_config (caching stats : bool) (preallocate_tokens : Z)
    (gpu_blocks : nat) : ManagerConfig :=
  {| block_size := 16;
     num_gpu_blocks := gpu_blocks;
     max_model_len := 1024;
     enable_caching := caching;
     caching_hash_fn := example_hash;
     num_preallocate_tokens := preallocate_tokens;
     log_stats := stats;
     specialized_manager := FullAttentionManager |}.

Definition example_clock : Clock :=
  {| clock_readings := λ k, Z.of_nat k; clock_reads := 0 |}.

Definition example_manager (cfg : ManagerConfig) : KVCacheManager :=
  let '(clk, telemetry) := CacheTelemetry_init "telemetry" true example_clock in
  KVCacheManager_init cfg (Some telemetry) clk.

(** A request whose tokens are [first], [first + 1], ... *)
Definition example_request (id : string) (first : Z) (tokens : nat) : Request :=
  {| request_id := id;
     all_token_ids := (λ k, first + Z.of_nat k) <$> seq 0 tokens;
     num_computed_tokens := 0;
     spec_token_ids := [];
     sampling_params := {| prompt_logprobs := None |};
     partition_key := None;
     status := WAITING |}.

(** The scenario of an eviction: one block in the pool, two requests with
    different tokens, one after the other. *)
Definition eviction_config : ManagerConfig := example_config true true 0 1.
Definition first_request : Request := example_request "a" 0 16.
Definition second_request : Request := example_request "b" 100 16.

(** The manager while the first request holds the block. *)
Definition manager_holding_first : KVCacheManager :=
  let m := example_manager eviction_config in
  let m := (get_computed_blocks eviction_config first_request m).2 in
  (allocate_slots eviction_config first_request 16 (Some []) m).2.

(** The manager after the first request was freed and the second one was
    looked up. *)
Definition manager_after_first : KVCacheManager :=
  let m := manager_holding_first in
  let m := (free eviction_config first_request m).2 in
  let m := (free_block_hashes first_request m).2 in
  (get_computed_blocks eviction_config second_request m).2.

(** The scenario of a cached prompt: a 32-token prompt was looked up and
    given its blocks, with block size 16. *)
Definition caching_config : ManagerConfig := example_config true true 64 10.
Definition prompt_request (id : string) : Request := example_request id 0 32.

Definition manager_with_cached_prompt : KVCacheManager :=
  let m := example_manager caching_config in
  let m := (get_computed_blocks caching_config (prompt_request "a") m).2 in
  (allocate_slots caching_config (prompt_request "a") 32 (Some []) m).2.

(** A manager whose requests may hold two blocks at most. *)
Definition short_context_config : ManagerConfig :=
  {| block_size := 16;
     num_gpu_blocks := 10;
     max_model_len := 32;
     enable_caching := true;
     caching_hash_fn := example_hash;
     num_preallocate_tokens := 0;
     log_stats := false;
     specialized_manager := FullAttentionManager |}.

(** The request, once [computed] of its tokens are computed. *)
Definition with_computed_tokens (computed : Z) (r : Request) : Request :=
  {| request_id := request_id r;
     all_token_ids := all_token_ids r;
     num_computed_tokens := computed;
     spec_token_ids := spec_token_ids r;
     sampling_params := sampling_params r;
     partition_key := partition_key r;
     status := status r |}.

(** A method body that leaves an observation of the state as it was. *)
Definition preserves {S A X} (c : M S A) (f : S → X) : Prop :=
  ∀ s, f (c s).2 = f s.

(** The statistics and the telemetry, as [allocate_slots] may change
    them. *)
Definition observability (m : KVCacheManager)
    : Stats.PrefixCacheStats * option CacheTelemetry * Clock :=
  (prefix_cache_stats m, cache_telemetry m, wall_clock m).

(** ** Runs of [allocate_slots] *)

Record alloc_call : Type := {
  call_request : Request;
  call_num_tokens : Z;
  call_new_computed : option (list nat)
}.

(** The block list the manager holds for a request id. *)
Definition held_blocks (m : KVCacheManager) (id : string) : list nat :=
  default [] (req_to_blocks m !! id).

(** [num_required_blocks] of a call. *)
Definition required_blocks (cfg : ManagerConfig) (c : alloc_call) : Z :=
  cdiv (num_computed_tokens (call_request c)
        + len (default [] (call_new_computed c)) * block_size cfg
        + call_num_tokens c) (block_size cfg).

(** New computed blocks are passed for a request that holds no block yet
    ("use [new_computed_blocks] for a new request"), with a positive token
    count. *)
Definition first_allocation_only (m : KVCacheManager) (c : alloc_call) : Prop :=
  default [] (call_new_computed c) = [] ∨
  (held_blocks m (request_id (call_request c)) = [] ∧
   0 ≤ num_computed_tokens (call_request c) ∧
   0 < call_num_tokens c).

(** A run of calls of [allocate_slots], each of which returned a block
    list. *)
Inductive alloc_run (cfg : ManagerConfig)
    : KVCacheManager → list alloc_call → KVCacheManager → Prop :=
| alloc_run_nil m : alloc_run cfg m [] m
| alloc_run_snoc m calls m1 c new m2 :
    alloc_run cfg m calls m1 →
    first_allocation_only m1 c →
    allocate_slots cfg (call_request c) (call_num_tokens c)
      (call_new_computed c) m1 = (Returned (Some new), m2) →
    alloc_run cfg m (calls ++ [c]) m2.

(** A policy drops blocks from the request's list; it adds none. *)
Definition keeps_no_more (pol : SpecializedManager) : Prop :=
  ∀ l n kept removed,
    remove_skipped_blocks pol l n = (kept, removed) →
    (length kept ≤ length l)%nat.

(** Two calls for one request: its 20 prompt tokens, then one more. *)
Definition first_call : alloc_call :=
  {| call_request := example_request "r" 0 20;
     call_num_tokens := 20;
     call_new_computed := None |}.

Definition second_call : alloc_call :=
  {| call_request := with_computed_tokens 20 (example_request "r" 0 21);
     call_num_tokens := 1;
     call_new_computed := None |}.

Definition example_calls : list alloc_call := [first_call; second_call].

(** ** The other methods of [KVCacheManager] *)

(** [KVCacheManager.make_prefix_cache_stats]: get (and reset) the prefix
    cache stats. *)
Definition make_prefix_cache_stats : M KVCacheManager Stats.PrefixCacheStats :=
  stats ← gets prefix_cache_stats;
  modify (set_prefix_cache_stats Stats.fresh);;
  mret stats.

(** The loop of [get_num_common_prefix_blocks]: count the blocks while
    their [ref_cnt] equals the number of running requests, [break] at the
    first that differs. *)
Fixpoint count_common_blocks (pool : BlockPool) (num_running_requests : Z)
    (blocks : list nat) (num_common_blocks : Z) : Z :=
  match blocks with
  | [] => num_common_blocks
  | block :: blocks' =>
      if decide (Z.of_nat (block_ref_cnt pool block) = num_running_requests)
      then count_common_blocks pool num_running_requests blocks'
             (num_common_blocks + 1)
      else num_common_blocks
  end.

(** [KVCacheManager.get_num_common_prefix_blocks]. *)
Definition get_num_common_prefix_blocks (request : Request)
    (num_running_requests : Z) : M KVCacheManager Z :=
  match status request with
  | RUNNING =>
      blocks ← req_blocks_of (request_id request);
      pool ← gets block_pool;
      mret (count_common_blocks pool num_running_requests blocks 0)
  | _ => raise AssertionError
  end.

(** The request, once it is running. *)
Definition running (r : Request) : Request :=
  {| request_id := request_id r;
     all_token_ids := all_token_ids r;
     num_computed_tokens := num_computed_tokens r;
     spec_token_ids := spec_token_ids r;
     sampling_params := sampling_params r;
     partition_key := partition_key r;
     status := RUNNING |}.

(** A request of five blocks whose first two blocks hold the tokens
    0 to 31 and whose last three hold tokens of its own. *)
Definition shared_prefix_request (id : string) (own : Z) : Request :=
  {| request_id := id;
     all_token_ids :=
       ((λ k, Z.of_nat k) <$> seq 0 32) ++ ((λ k, own + Z.of_nat k) <$> seq 0 48);
     num_computed_tokens := 0;
     spec_token_ids := [];
     sampling_params := {| prompt_logprobs := None |};
     partition_key := None;
     status := WAITING |}.

Definition shared_prefix_config : ManagerConfig := example_config true false 0 20.

(** Looking a request up and giving it the blocks for all its tokens, the
    matched blocks passed as new computed blocks. *)
Definition admit_request (cfg : ManagerConfig) (r : Request)
    (m : KVCacheManager) : KVCacheManager :=
  match get_computed_blocks cfg r m with
  | (Returned (computed, num_computed), m1) =>
      (allocate_slots cfg r (num_tokens r - num_computed) (Some computed) m1).2
  | (Raised _, m1) => m1
  end.

(** Three requests sharing their first two blocks, all admitted. *)
Definition manager_with_three_requests : KVCacheManager :=
  admit_request shared_prefix_config (shared_prefix_request "c" 3000)
    (admit_request shared_prefix_config (shared_prefix_request "b" 2000)
       (admit_request shared_prefix_config (shared_prefix_request "a" 1000)
          (example_manager shared_prefix_config))).

(** ** Observations of the manager, for the statements *)

(** What [get_computed_blocks] has no business with: the pool, the block
    lists and the cached-block counts. *)
Definition allocation_state (m : KVCacheManager)
    : BlockPool * gmap string (list nat) * gmap string Z :=
  (block_pool m, req_to_blocks m, num_cached_block m).

(** The two telemetry calls of [get_computed_blocks], for [matched] blocks
    out of [queried] hashes. *)
Definition recorded_lookup (id : string) (queried matched : Z)
    (w : TelemetryWorld) : TelemetryWorld :=
  record_miss (queried - matched) (Some id) (record_hit matched (Some id) w).

(** The counters of hits never exceed the counters they are hits of. *)
Definition stats_consistent (st : Stats.PrefixCacheStats) : Prop :=
  0 ≤ Stats.hits st ≤ Stats.queries st ∧
  0 ≤ Stats.request_hits st ≤ Stats.requests st.

(** ** Runs of telemetry calls *)

Inductive telemetry_call : Type :=
| ResetCall
| HitCall (num_blocks : Z) (request_id : option string)
| MissCall (num_blocks : Z) (request_id : option string)
| EvictionCall (num_blocks : Z) (request_id : option string).

Definition telemetry_step (c : telemetry_call) (w : TelemetryWorld)
    : TelemetryWorld :=
  match c with
  | ResetCall => reset w
  | HitCall n id => record_hit n id w
  | MissCall n id => record_miss n id w
  | EvictionCall n id => record_eviction n id w
  end.

Definition telemetry_run (calls : list telemetry_call) (w : TelemetryWorld)
    : TelemetryWorld :=
  foldl (λ w c, telemetry_step c w) w calls.

(** The counts of a time series, added up. *)
Definition series_total (ts : list (Z * Z)) : Z := sum_counts (ts.*2).

(** Every block counted is a hit or a miss. *)
Definition counters_add_up (t : CacheTelemetry) : Prop :=
  total_blocks t = total_hits t + total_misses t.

(** The request counter counts the tracked ids, one series entry each, and
    the per-outcome sets hold tracked ids only, one series entry each for
    hits and misses. *)
Definition requests_tracked (t : CacheTelemetry) : Prop :=
  unique_requests t = Z.of_nat (size (tracked_requests t)) ∧
  len (unique_requests_ts t) = unique_requests t ∧
  requests_with_hits t ⊆ tracked_requests t ∧
  requests_with_misses t ⊆ tracked_requests t ∧
  requests_with_evictions t ⊆ tracked_requests t ∧
  length (requests_with_hits_ts t) = size (requests_with_hits t) ∧
  length (requests_with_misses_ts t) = size (requests_with_misses t).

(** Each block-level series adds up to its counter. *)
Definition series_agree (t : CacheTelemetry) : Prop :=
  series_total (total_blocks_ts t) = total_blocks t ∧
  series_total (total_hits_ts t) = total_hits t ∧
  series_total (total_misses_ts t) = total_misses t ∧
  series_total (total_evictions_ts t) = total_evictions t.

(** A call that is not [record_hit]. *)
Definition not_a_hit (c : telemetry_call) : Prop :=
  match c with HitCall _ _ | ResetCall => False | _ => True end.

(** ** [reset_prefix_cache] and runs of manager calls *)

(** Modelled from the spec: "[reset_prefix_cache() → bool]: clears the
    entire cache index and all block content identities.  Must refuse
    (return false, no mutation) if any block currently has
    [ref_count > 0]". *)
Definition BlockPool_reset_prefix_cache : M BlockPool bool := λ p,
  if decide (Forall (λ k, ref_cnt k = 0%nat) (blocks p)) then
    (Returned true,
     {| blocks := (λ k, {| ref_cnt := ref_cnt k; block_hash := None |})
                  <$> blocks p;
        free_block_queue := free_block_queue p;
        cached_block_hash_to_block := ∅ |})
  else (Returned false, p).

(** [self.prefix_cache_stats.reset = True]. *)
Definition mark_reset (st : Stats.PrefixCacheStats) : Stats.PrefixCacheStats :=
  {| Stats.reset := true; Stats.requests := Stats.requests st;
     Stats.queries := Stats.queries st; Stats.hits := Stats.hits st;
     Stats.request_hits := Stats.request_hits st;
     Stats.evictions := Stats.evictions st;
     Stats.request_evictions := Stats.request_evictions st |}.

(** [KVCacheManager.reset_prefix_cache]. *)
Definition reset_prefix_cache : M KVCacheManager bool :=
  on_pool BlockPool_reset_prefix_cache ≫= λ succeeded : bool,
    if succeeded then update_stats mark_reset;; mret true
    else mret false.

(** A call of one of the manager's methods. *)
Inductive manager_call : Type :=
| GetComputedBlocks (request : Request)
| AllocateSlots (request : Request) (num_tokens : Z)
    (new_computed_blocks : option (list nat))
| Free (request : Request)
| FreeBlockHashes (request : Request)
| MakePrefixCacheStats
| GetNumCommonPrefixBlocks (request : Request) (num_running_requests : Z)
| ResetPrefixCache.

(** The manager a call leaves behind, whether it returned or raised. *)
Definition manager_step (cfg : ManagerConfig) (c : manager_call)
    (m : KVCacheManager) : KVCacheManager :=
  match c with
  | GetComputedBlocks r => (get_computed_blocks cfg r m).2
  | AllocateSlots r n ncb => (allocate_slots cfg r n ncb m).2
  | Free r => (free cfg r m).2
  | FreeBlockHashes r => (free_block_hashes r m).2
  | MakePrefixCacheStats => (make_prefix_cache_stats m).2
  | GetNumCommonPrefixBlocks r n => (get_num_common_prefix_blocks r n m).2
  | ResetPrefixCache => (reset_prefix_cache m).2
  end.

Definition manager_run (cfg : ManagerConfig) (calls : list manager_call)
    (m : KVCacheManager) : KVCacheManager :=
  foldl (λ m c, manager_step cfg c m) m calls.


(** What the manager keeps for one request id. *)
Definition request_entries (id : string) (m : KVCacheManager)
    : option (list nat) * option (list BlockHashType) * option Z :=
  (req_to_blocks m !! id, req_to_block_hashes m !! id, num_cached_block m !! id).

(** ** Histogram buckets (loggers.py) *)

(** One run of [for m in mantissa_lst] in [build_buckets], at one exponent:
    the bucket list it leaves, and whether it reached [return buckets]. *)
Fixpoint buckets_pass (mantissa_lst : list Z) (exponent max_value : Z)
    (buckets : list Z) : list Z * bool :=
  match mantissa_lst with
  | [] => (buckets, false)
  | m :: rest =>
      let value := m * 10 ^ exponent in
      if decide (value ≤ max_value)
      then buckets_pass rest exponent max_value (buckets ++ [value])
      else (buckets, true)
  end.

(** The [while True] loop of [build_buckets]; [fuel] bounds the number of
    iterations, and [None] says the bound was reached before a return. *)
Fixpoint build_buckets_loop (fuel : nat) (mantissa_lst : list Z)
    (max_value exponent : Z) (buckets : list Z) : option (list Z) :=
  match fuel with
  | O => None
  | S fuel' =>
      match buckets_pass mantissa_lst exponent max_value buckets with
      | (buckets', true) => Some buckets'
      | (buckets', false) =>
          build_buckets_loop fuel' mantissa_lst max_value (exponent + 1)
            buckets'
      end
  end.

(** [build_buckets]. *)
Definition build_buckets (fuel : nat) (mantissa_lst : list Z) (max_value : Z)
    : option (list Z) :=
  build_buckets_loop fuel mantissa_lst max_value 0 [].

(** [build_1_2_5_buckets]. *)
Definition build_1_2_5_buckets (fuel : nat) (max_value : Z)
    : option (list Z) :=
  build_buckets fuel [1; 2; 5] max_value.

(** The values of one exponent, in the order of the mantissas. *)
Definition bucket_values (exponent : Z) (mantissa_lst : list Z) : list Z :=
  (λ m, m * 10 ^ exponent) <$> mantissa_lst.

(** The values of [n] successive exponents from [exponent] on. *)
Fixpoint bucket_passes (mantissa_lst : list Z) (exponent : Z) (n : nat)
    : list Z :=
  match n with
  | O => []
  | S n' =>
      bucket_values exponent mantissa_lst
      ++ bucket_passes mantissa_lst (exponent + 1) n'
  end.

(** A value [m * 10 ** e] of a mantissa of the list. *)
Definition bucket_value_of (mantissa_lst : list Z) (v : Z) : Prop :=
  ∃ m e, m ∈ mantissa_lst ∧ 0 ≤ e ∧ v = m * 10 ^ e.

(** Mantissas in increasing order, positive, and within one decade: the
    largest is less than ten times the smallest. *)
Definition increasing_mantissas (mantissa_lst : list Z) : Prop :=
  StronglySorted Z.lt mantissa_lst ∧
  Forall (λ a, 0 < a) mantissa_lst ∧
  Forall (λ a, Forall (λ b, b < 10 * a) mantissa_lst) mantissa_lst.

Global Instance increasing_mantissas_dec lst :
  Decision (increasing_mantissas lst).
Proof. unfold increasing_mantissas. apply _. Defined.

(** ** Consistency of the manager's block lists with the pool *)

(** Modelled from the spec: the evictable queue holds the "unreferenced
    blocks", each once: a block of the inventory is queued exactly when its
    reference count is zero. *)
Definition pool_ok (p : BlockPool) : Prop :=
  NoDup (free_block_queue p) ∧
  ∀ b, b ∈ free_block_queue p ↔
       (b < length (blocks p))%nat ∧ block_ref_cnt p b = 0%nat.

(** How many times a block occurs in a block list. *)
Definition occurrences (b : nat) (l : list nat) : nat :=
  length (filter (λ x, x = b) l).

(** How many times the block lists of all requests name a block. *)
Definition holders (d : gmap string (list nat)) (b : nat) : nat :=
  map_fold (λ _ l acc, (occurrences b l + acc)%nat) 0%nat d.

(** The reference counts of the pool are ahead of the block lists by the
    blocks of [pending]: blocks already pinned or pulled and not yet
    entered into a list. *)
Definition consistent_but (pending : list nat) (m : KVCacheManager) : Prop :=
  pool_ok (block_pool m) ∧
  ∀ b, (b < length (blocks (block_pool m)))%nat →
       block_ref_cnt (block_pool m) b
       = (holders (req_to_blocks m) b + occurrences b pending)%nat.

(** The reference count of every block is the number of times the
    requests' block lists name it, and the queue holds the others. *)
Definition manager_consistent (m : KVCacheManager) : Prop :=
  consistent_but [] m.

(** A Hoare triple for a method body: from a state in [P], a return
    leaves the value and the state in [Q], and a raise leaves the state in
    [E]. *)
Definition triple {S A} (P : S → Prop) (c : M S A) (Q : A → S → Prop)
    (E : S → Prop) : Prop :=
  ∀ s, P s →
    match c s with
    | (Returned a, s') => Q a s'
    | (Raised _, s') => E s'
    end.

(** Deciding a property of the element of a lookup, false on a miss. *)
Global Instance from_option_False_dec {A} (P : A → Prop)
    `{!∀ x, Decision (P x)} (o : option A) :
  Decision (from_option P False o).
Proof. destruct o; simpl; apply _. Defined.

(** The request's list is [l], and the pool is ahead by [pending]. *)
Definition holds (id : string) (l pending : list nat) (m : KVCacheManager)
    : Prop :=
  req_to_blocks m !! id = Some l ∧ consistent_but pending m.

(** The state a run of calls of [allocate_slots] leaves, call after
    call. *)
Definition alloc_state (cfg : ManagerConfig) (calls : list alloc_call)
    (m : KVCacheManager) : KVCacheManager :=
  foldl (λ m c, (allocate_slots cfg (call_request c) (call_num_tokens c)
                   (call_new_computed c) m).2) m calls.

(** ** The pool handed to [cache_full_blocks] *)

(** The pool as [allocate_slots] hands it to [cache_full_blocks], read off
    the steps before the publication: the manager's pool after the release
    of the skipped blocks, the pinning of the new computed blocks and the
    pull of the new blocks. *)
Definition pool_before_publication (cfg : ManagerConfig) (request : Request)
    (num_tokens : Z) (new_computed_blocks : list nat) (m : KVCacheManager)
    : BlockPool :=
  let '(req_blocks, removed_blocks) :=
    remove_skipped_blocks (specialized_manager cfg)
      (held_blocks m (request_id request)) (num_computed_tokens request) in
  let p1 := (free_blocks removed_blocks (block_pool m)).2 in
  let p2 :=
    if enable_caching cfg then foldl touch_block p1 new_computed_blocks
    else p1 in
  let num_new_blocks :=
    required_new_blocks cfg request num_tokens new_computed_blocks req_blocks in
  if decide (num_new_blocks ≤ 0) then p2
  else
    (get_new_blocks
       (Z.to_nat (pulled_blocks cfg num_new_blocks (get_num_free_blocks p2)
                    (len (req_blocks ++ new_computed_blocks)))) p2).2.

(** A 32-token request whose last token is speculative. *)
Definition speculative_request : Request :=
  {| request_id := "s";
     all_token_ids := (λ k, Z.of_nat k) <$> seq 0 32;
     num_computed_tokens := 0;
     spec_token_ids := [31];
     sampling_params := {| prompt_logprobs := None |};
     partition_key := None;
     status := WAITING |}.

(** The manager after the lookup of the speculative request, and after its
    32 tokens were given their blocks. *)
Definition manager_before_speculative : KVCacheManager :=
  (get_computed_blocks caching_config speculative_request
     (example_manager caching_config)).2.

Definition manager_after_speculative : KVCacheManager :=
  (allocate_slots caching_config speculative_request 32 (Some [])
     manager_before_speculative).2.

(** * Properties *)

(** ** Telemetry *)

Lemma CacheTelemetry_init_armed dir b clk :
  first_block (CacheTelemetry_init dir b clk).2 = true.
Proof. reflexivity. Qed.

Lemma reset_armed w : first_block (reset w).2 = true.
Proof. by destruct w. Qed.

Lemma reset_total_hits w : total_hits (reset w).2 = 0.
Proof. by destruct w. Qed.

(** Once the flag is down, a call with a positive count adds it to
    [total_hits] and leaves the flag down. *)
Lemma record_hit_disarmed n id w :
  first_block w.2 = false → 0 < n →
  total_hits (record_hit n id w).2 = total_hits w.2 + n ∧
  first_block (record_hit n id w).2 = false.
Proof.
  destruct w as [clk t]; simpl; intros Hf Hn.
  apply Z.ltb_lt in Hn.
  unfold record_hit, track_request, elapsed, time_time.
  rewrite Hf, Hn.
  destruct id as [id|]; repeat case_decide; done.
Qed.

Lemma record_hits_disarmed calls : ∀ w,
  first_block w.2 = false → Forall (λ c, 0 < c.1) calls →
  total_hits (record_hits calls w).2 = total_hits w.2 + sum_counts (calls.*1).
Proof.
  unfold record_hits.
  induction calls as [|[n id] calls IH]; intros w Hf Hpos.
  - simpl. lia.
  - inversion_clear Hpos as [|? ? Hn Hrest]; simpl in Hn.
    destruct (record_hit_disarmed n id w Hf Hn) as [Hh Hf'].
    rewrite fmap_cons. cbn [foldl fst snd].
    rewrite IH by done. rewrite Hh.
    change (sum_counts (n :: calls.*1)) with (n + sum_counts calls.*1). lia.
Qed.

(** With the flag up, the call only lowers it. *)
Lemma record_hit_armed n id w :
  first_block w.2 = true →
  (record_hit n id w).1 = w.1 ∧
  first_block (record_hit n id w).2 = false ∧
  total_blocks (record_hit n id w).2 = total_blocks w.2 ∧
  total_hits (record_hit n id w).2 = total_hits w.2 ∧
  total_blocks_ts (record_hit n id w).2 = total_blocks_ts w.2 ∧
  total_hits_ts (record_hit n id w).2 = total_hits_ts w.2 ∧
  unique_requests (record_hit n id w).2 = unique_requests w.2 ∧
  tracked_requests (record_hit n id w).2 = tracked_requests w.2 ∧
  requests_with_hits (record_hit n id w).2 = requests_with_hits w.2 ∧
  unique_requests_ts (record_hit n id w).2 = unique_requests_ts w.2 ∧
  requests_with_hits_ts (record_hit n id w).2 = requests_with_hits_ts w.2.
Proof.
  destruct w as [clk t]; simpl; intros Hf.
  unfold record_hit. rewrite Hf. simpl. repeat split.
Qed.

(** C10.  After construction or [reset], the first [record_hit] records
    nothing: the clock is not read, the block counters, the request sets,
    the request count and every series are as [reset] left them, whatever
    the count and the request id; so after a run of [record_hit] calls with
    positive counts, [total_hits] is the sum of the counts of all calls but
    the first. *)
Theorem record_hit_skips_first_call (w0 : TelemetryWorld)
    (calls : list (Z * option string)) :
  Forall (λ c, 0 < c.1) calls →
  (∀ n id,
     (record_hit n id (reset w0)).1 = (reset w0).1 ∧
     total_blocks (record_hit n id (reset w0)).2 = 0 ∧
     total_hits (record_hit n id (reset w0)).2 = 0 ∧
     total_blocks_ts (record_hit n id (reset w0)).2 = [] ∧
     total_hits_ts (record_hit n id (reset w0)).2 = [] ∧
     unique_requests (record_hit n id (reset w0)).2 = 0 ∧
     tracked_requests (record_hit n id (reset w0)).2 = ∅ ∧
     requests_with_hits (record_hit n id (reset w0)).2 = ∅ ∧
     unique_requests_ts (record_hit n id (reset w0)).2 = [] ∧
     requests_with_hits_ts (record_hit n id (reset w0)).2 = []) ∧
  total_hits (record_hits calls (reset w0)).2 = sum_counts (tail (calls.*1)).
Proof.
  intros Hpos. split.
  - intros n id.
    pose proof (record_hit_armed n id (reset w0) (reset_armed w0))
      as (-> & _ & -> & -> & -> & -> & -> & -> & -> & -> & ->).
    by destruct w0.
  - unfold record_hits. destruct calls as [|[n id] calls].
    + apply reset_total_hits.
    + rewrite fmap_cons. cbn [foldl fst snd tail].
      inversion_clear Hpos as [|? ? _ Hrest].
      pose proof (record_hit_armed n id (reset w0) (reset_armed w0))
        as (_ & Hf & _ & Hh & _).
      pose proof (record_hits_disarmed calls _ Hf Hrest) as Hsum.
      unfold record_hits in Hsum. rewrite Hsum, Hh, reset_total_hits. lia.
Qed.

(** ** Evaluating the monad *)

Lemma bind_Returned_inv {S A B} (c : M S A) (k : A → M S B) s b s' :
  (c ≫= k) s = (Returned b, s') →
  ∃ a s1, c s = (Returned a, s1) ∧ k a s1 = (Returned b, s').
Proof.
  unfold mbind, M_bind. destruct (c s) as [[a|e] s1]; [eauto|done].
Qed.

Ltac bind_inv H a s E :=
  apply bind_Returned_inv in H as (a & s & E & H).

Arguments record_hit : simpl never.
Arguments record_miss : simpl never.
Arguments record_eviction : simpl never.
Arguments get_new_blocks : simpl never.
Arguments free_blocks : simpl never.
Arguments touch_block : simpl never.
Arguments cache_full_blocks : simpl never.
Arguments hash_request_tokens : simpl never.
Arguments get_num_free_blocks : simpl never.
Arguments cdiv : simpl never.
Arguments len : simpl never.
Arguments Stats.add_evictions : simpl never.
Arguments Stats.add_lookup : simpl never.
Arguments Stats.add_request : simpl never.

Lemma req_blocks_of_eq id m :
  req_blocks_of id m =
  (Returned (default [] (req_to_blocks m !! id)),
   set_req_to_blocks
     (<[id := default [] (req_to_blocks m !! id)]> (req_to_blocks m)) m).
Proof.
  unfold req_blocks_of. destruct m as [p t c rb rh nc st]; simpl.
  destruct (rb !! id) as [l|] eqn:E; simpl; [|done].
  unfold set_req_to_blocks; simpl. by rewrite insert_id.
Qed.

Lemma req_block_hashes_of_eq id m :
  req_block_hashes_of id m =
  (Returned (default [] (req_to_block_hashes m !! id)),
   set_req_to_block_hashes
     (<[id := default [] (req_to_block_hashes m !! id)]> (req_to_block_hashes m)) m).
Proof.
  unfold req_block_hashes_of. destruct m as [p t c rb rh nc st]; simpl.
  destruct (rh !! id) as [l|] eqn:E; simpl; [|done].
  unfold set_req_to_block_hashes; simpl. by rewrite insert_id.
Qed.

Lemma allocate_slots_Some_inv cfg r n ncb m new m' :
  allocate_slots cfg r n ncb m = (Returned (Some new), m') →
  ∃ kept removed p1 p2 p3,
    alloc_success cfg r n (default [] ncb) m new m' kept removed p1 p2 p3.
Proof.
  unfold allocate_slots. intros HH.
  case_decide as Hn; [done|].
  set (ncb' := default [] ncb) in *.
  bind_inv HH l0 s0 E0. rewrite req_blocks_of_eq in E0. simplify_eq.
  destruct (remove_skipped_blocks _ _ _) as [kept removed] eqn:Hrs.
  bind_inv HH u1 s1 E1. unfold store_req_blocks, modify in E1. simplify_eq.
  bind_inv HH u2 s2 E2. unfold on_pool in E2. simpl in E2.
  destruct (free_blocks removed (block_pool m)) as [[[]|e] p1] eqn:Efree;
    simplify_eq.
  bind_inv HH pool s3 E3. unfold gets in E3. simpl in E3. simplify_eq.
  rename pool into p1.
  fold (required_new_blocks cfg r n ncb' kept) in *.
  fold (num_evictable p1 ncb') in *.
  case_decide as Hcap; [done|].
  bind_inv HH u4 s4 E4. bind_inv HH u5 s5 E5.
  unfold store_req_blocks, modify in E5. simplify_eq.
  apply bind_Returned_inv in HH as ([rb nb] & s6 & E6 & HH).
  exists kept, removed, p1, (block_pool s4), (block_pool s6).
  assert (req_to_blocks s4 = <[request_id r := kept]> (req_to_blocks m) ∧
          prefix_cache_stats s4 = prefix_cache_stats m ∧
          cache_telemetry s4 = cache_telemetry m ∧
          wall_clock s4 = wall_clock m ∧
          num_cached_block s4 = num_cached_block m ∧
          req_to_block_hashes s4 = req_to_block_hashes m ∧
          if enable_caching cfg then block_pool s4 = foldl touch_block p1 ncb'
          else ncb' = [] ∧ block_pool s4 = p1)
    as (B4 & S4 & T4 & C4 & N4 & H4 & P4).
  { destruct (enable_caching cfg).
    - unfold on_pool, touch, modify in E4. simplify_eq. simpl.
      by rewrite insert_insert_eq.
    - unfold assert in E4. case_bool_decide as Hempty; [|done].
      unfold mret, M_ret in E4. simplify_eq. simpl.
      by rewrite insert_insert_eq. }
  assert (req_to_blocks s6 = <[request_id r := kept ++ ncb' ++ nb]> (req_to_blocks m) ∧
          rb = kept ++ ncb' ++ nb ∧
          prefix_cache_stats s6 = prefix_cache_stats m ∧
          cache_telemetry s6 = cache_telemetry m ∧
          wall_clock s6 = wall_clock m ∧
          num_cached_block s6 = num_cached_block m ∧
          req_to_block_hashes s6 = req_to_block_hashes m ∧
          if decide (required_new_blocks cfg r n ncb' kept ≤ 0) then
            nb = [] ∧ block_pool s6 = block_pool s4
          else
            let k := pulled_blocks cfg (required_new_blocks cfg r n ncb' kept)
                       (get_num_free_blocks (block_pool s4)) (len (kept ++ ncb')) in
            k > 0 ∧
            get_new_blocks (Z.to_nat k) (block_pool s4) = (Returned nb, block_pool s6))
    as (B6 & -> & S6 & T6 & C6 & N6 & H6 & P6).
  { case_decide as Hneed.
    - unfold mret, M_ret in E6. simplify_eq. simpl.
      rewrite B4, insert_insert_eq, app_nil_r. done.
    - bind_inv E6 nfree s7 E7. unfold gets in E7. simplify_eq. simpl in E6.
      fold (pulled_blocks cfg (required_new_blocks cfg r n ncb' kept)
              (get_num_free_blocks (block_pool s4)) (len (kept ++ ncb'))) in E6.
      set (k := pulled_blocks _ _ _ _) in *.
      bind_inv E6 u8 s8 E8. unfold assert in E8.
      case_bool_decide as Hk; [|done]. unfold mret, M_ret in E8. simplify_eq.
      bind_inv E6 readily s9 E9. unfold gets in E9. simplify_eq. simpl in E6.
      case_decide as Hevict.
      { subst k. unfold pulled_blocks in Hevict. lia. }
      bind_inv E6 u10 s10 E10. unfold mret, M_ret in E10. simplify_eq.
      bind_inv E6 nb' s11 E11. unfold on_pool in E11. simpl in E11.
      destruct (get_new_blocks _ _) as [[l|e] p3] eqn:Eget; simplify_eq.
      bind_inv E6 u12 s12 E12. unfold store_req_blocks, modify in E12.
      unfold mret, M_ret in E6. simplify_eq. simpl.
      rewrite B4, !insert_insert_eq, (assoc_L (++)). done. }
  clear E4 E6.
  assert (new = nb ∧
          req_to_blocks m' = req_to_blocks s6 ∧
          prefix_cache_stats m' = prefix_cache_stats s6 ∧
          cache_telemetry m' = cache_telemetry s6 ∧
          wall_clock m' = wall_clock s6 ∧
          if enable_caching cfg then
            num_cached_block m'
            = <[request_id r := full_blocks_after_append cfg r n ncb']>
                (num_cached_block s6) ∧
            cache_full_blocks r (kept ++ ncb' ++ nb)
              (default [] (req_to_block_hashes s6 !! request_id r))
              (default (len ncb') (num_cached_block s6 !! request_id r))
              (full_blocks_after_append cfg r n ncb') (block_size cfg)
              (caching_hash_fn cfg) (block_pool s6)
            = (Returned tt, block_pool m') ∧
            req_to_block_hashes m'
            = <[request_id r := default [] (req_to_block_hashes s6 !! request_id r)]>
                (req_to_block_hashes s6)
          else m' = s6)
    as (-> & Bf & Sf & Tf & Cf & Pf).
  { destruct (enable_caching cfg); simpl in HH.
    - bind_inv HH nc s7 E7. unfold gets in E7. simplify_eq.
      bind_inv HH bh s8 E8. rewrite req_block_hashes_of_eq in E8. simplify_eq.
      bind_inv HH u9 s9 E9. unfold on_pool in E9. simpl in E9.
      fold (full_blocks_after_append cfg r n ncb') in *.
      destruct (cache_full_blocks _ _ _ _ _ _ _ _) as [[[]|e] p4] eqn:Ecache;
        simplify_eq.
      bind_inv HH u10 s10 E10. unfold modify in E10.
      unfold mret, M_ret in HH. simplify_eq. simpl. done.
    - unfold mret, M_ret in HH. by simplify_eq. }
  split; try congruence.
  destruct (enable_caching cfg).
  - destruct Pf as (Pn & Pc & Ph). rewrite Pn, N6.
    rewrite N6, H6 in Pc. repeat split; try done.
    + intros id l Hl. rewrite Ph, H6.
      destruct (decide (id = request_id r)) as [->|Hne].
      * rewrite lookup_insert_eq, Hl. done.
      * by rewrite lookup_insert_ne.
    + intros id Hl. rewrite Ph, H6.
      destruct (decide (id = request_id r)) as [->|Hne].
      * right. rewrite lookup_insert_eq, Hl. done.
      * left. by rewrite lookup_insert_ne.
  - subst m'. done.
Qed.

(** ** [get_computed_blocks] *)

Lemma last_Some_removelast {A} (l : list A) x :
  last l = Some x → removelast l ++ [x] = l.
Proof.
  intros H. apply last_Some in H as [l' ->].
  by rewrite removelast_last.
Qed.

Lemma bind_eval {S A B} (c : M S A) (k : A → M S B) s a s1 :
  c s = (Returned a, s1) → (c ≫= k) s = k a s1.
Proof. unfold mbind, M_bind. by intros ->. Qed.

Lemma gcb_lookup cfg r m :
  enable_caching cfg = true →
  prompt_logprobs (sampling_params r) = None →
  telemetry_ready cfg m →
  (request_chain cfg r m = [] → num_tokens r ≠ 0) →
  let blocks := find_longest_cache_hit (specialized_manager cfg) (block_pool m)
                  (probed_chain cfg r m) in
  ∃ m', get_computed_blocks cfg r m
        = (Returned (blocks, len blocks * block_size cfg), m') ∧
        req_to_block_hashes m'
        = <[request_id r := request_chain cfg r m]> (req_to_block_hashes m) ∧
        block_pool m' = block_pool m ∧
        req_to_blocks m' = req_to_blocks m ∧
        num_cached_block m' = num_cached_block m ∧
        prefix_cache_stats m'
        = Stats.add_lookup (len (probed_chain cfg r m)) (len blocks)
            (Stats.add_request (prefix_cache_stats m)).
Proof.
  intros Hc Hl Ht Hpop blocks.
  unfold get_computed_blocks. rewrite Hc, Hl. simpl.
  erewrite bind_eval by apply req_block_hashes_of_eq.
  set (chain := request_chain cfg r m) in *.
  set (probe := probed_chain cfg r m) in *.
  erewrite bind_eval; cycle 1.
  { instantiate (1 := set_req_to_block_hashes
                        (<[request_id r := chain]> (req_to_block_hashes m)) m).
    instantiate (1 := chain).
    subst chain. unfold request_chain.
    destruct (default [] (req_to_block_hashes m !! request_id r)) eqn:E.
    - unfold store_block_hashes, modify, mbind, M_bind, mret, M_ret; simpl.
      by rewrite insert_insert_eq.
    - done. }
  erewrite bind_eval by reflexivity.
  assert (∃ s2 last_hash,
    (if decide (len chain * block_size cfg = num_tokens r) then
       match last chain with
       | Some h =>
           store_block_hashes (request_id r) (removelast chain);;
           mret (removelast chain, Some h)
       | None => raise IndexError
       end
     else mret (chain, None))
      (set_prefix_cache_stats
         (Stats.add_request (prefix_cache_stats m))
         (set_req_to_block_hashes
            (<[request_id r := chain]> (req_to_block_hashes m)) m))
    = (Returned (probe, last_hash), s2) ∧
    block_pool s2 = block_pool m ∧ req_to_blocks s2 = req_to_blocks m ∧
    num_cached_block s2 = num_cached_block m ∧
    cache_telemetry s2 = cache_telemetry m ∧
    prefix_cache_stats s2 = Stats.add_request (prefix_cache_stats m) ∧
    <[request_id r := chain]> (req_to_block_hashes s2)
    = <[request_id r := chain]> (req_to_block_hashes m) ∧
    match last_hash with
    | Some h => probe ++ [h] = chain
    | None => req_to_block_hashes s2
              = <[request_id r := chain]> (req_to_block_hashes m)
    end) as (s2 & last_hash & E2 & P2 & B2 & N2 & T2 & S2 & H2 & L2).
  { subst probe. unfold probed_chain. fold chain. case_decide as Hlen.
    - destruct (last chain) as [h|] eqn:Elast.
      + eexists _, (Some h). split; [reflexivity|]. simpl.
        rewrite !insert_insert_eq. repeat split; try done.
        by apply last_Some_removelast.
      + apply last_None in Elast. rewrite Elast in Hlen.
        exfalso. apply Hpop; [done|]. unfold len in Hlen at 1. simpl in Hlen. lia.
    - eexists _, None. split; [reflexivity|]. simpl.
      rewrite !insert_insert_eq. done. }
  erewrite bind_eval by exact E2. simpl.
  erewrite bind_eval by reflexivity.
  rewrite P2. fold blocks.
  erewrite bind_eval by reflexivity.
  set (sX := set_prefix_cache_stats _ s2).
  assert (∃ s3,
    (if log_stats cfg then
       on_telemetry (record_hit (len blocks) (Some (request_id r)));;
       on_telemetry (record_miss (len probe - len blocks) (Some (request_id r)))
     else mret tt) sX = (Returned tt, s3) ∧
    block_pool s3 = block_pool sX ∧ req_to_blocks s3 = req_to_blocks sX ∧
    num_cached_block s3 = num_cached_block sX ∧
    prefix_cache_stats s3 = prefix_cache_stats sX ∧
    req_to_block_hashes s3 = req_to_block_hashes sX)
    as (s3 & E3 & P3 & B3 & N3 & S3 & H3).
  { destruct (log_stats cfg) eqn:Hlog.
    - destruct (Ht Hlog) as [t Htel]. rewrite <- T2 in Htel.
      unfold on_telemetry, mbind, M_bind. simpl. rewrite Htel. simpl.
      eexists. split; [reflexivity|]. done.
    - eexists. split; [reflexivity|]. done. }
  erewrite bind_eval by exact E3.
  destruct last_hash as [h|].
  - eexists. split; [reflexivity|]. simpl.
    rewrite P3, B3, N3, S3, H3. subst sX. simpl.
    rewrite L2, H2, P2, B2, N2, S2. done.
  - eexists. split; [reflexivity|]. simpl.
    rewrite P3, B3, N3, S3, H3. subst sX. simpl.
    rewrite L2, P2, B2, N2, S2. done.
Qed.

Lemma length_foldl_snoc {A B} (f : list A → B → A) (l : list B) : ∀ acc,
  length (foldl (λ c k, c ++ [f c k]) acc l) = (length acc + length l)%nat.
Proof.
  induction l as [|k l IH]; intros acc; simpl; [lia|].
  rewrite IH, length_app. simpl. lia.
Qed.

Lemma length_hash_request_tokens hash_fn bs r :
  length (hash_request_tokens hash_fn bs r) = Z.to_nat (num_tokens r / bs).
Proof.
  unfold hash_request_tokens, num_tokens.
  rewrite (length_foldl_snoc
             (λ chain k,
                {| hash_value :=
                     hash_fn (hash_value <$> last chain)
                       (take (Z.to_nat bs)
                          (drop (k * Z.to_nat bs) (all_token_ids r)))
                       (partition_key r);
                   parent_hash := hash_value <$> last chain;
                   cache_partition_key := partition_key r |})).
  by rewrite length_seq.
Qed.

Lemma full_attention_hit_within_chain : hit_within_chain FullAttentionManager.
Proof.
  intros p chain. simpl. induction chain as [|h chain IH]; simpl; [lia|].
  destruct (_ !! _); simpl; lia.
Qed.

Lemma length_removelast_lt {A} (l : list A) :
  l ≠ [] → (length (removelast l) < length l)%nat.
Proof.
  intros Hl. destruct (last l) as [x|] eqn:E.
  - apply last_Some_removelast in E. rewrite <- E at 2.
    rewrite length_app. simpl. lia.
  - by apply last_None in E.
Qed.

(** C1.  When the token count of the request is a positive multiple of the
    block size, [get_computed_blocks] returns, the chain covers the tokens
    exactly, the number of matched blocks is at most [len(chain) - 1]
    (the policy is consulted on the chain without its last hash), and on
    return the chain stored for the request is the whole chain again. *)
Theorem get_computed_blocks_exact_multiple cfg r m :
  0 < block_size cfg →
  0 < num_tokens r →
  num_tokens r `mod` block_size cfg = 0 →
  request_chain cfg r m
  = hash_request_tokens (caching_hash_fn cfg) (block_size cfg) r →
  telemetry_ready cfg m →
  hit_within_chain (specialized_manager cfg) →
  let chain := request_chain cfg r m in
  ∃ blocks m',
    get_computed_blocks cfg r m
    = (Returned (blocks, len blocks * block_size cfg), m') ∧
    len chain * block_size cfg = num_tokens r ∧
    len blocks ≤ len chain - 1 ∧
    (enable_caching cfg = true →
     req_to_block_hashes m' !! request_id r = Some chain) ∧
    (enable_caching cfg = true →
     prompt_logprobs (sampling_params r) = None →
     blocks = find_longest_cache_hit (specialized_manager cfg) (block_pool m)
                (removelast chain)).
Proof.
  intros Hbs Hn Hmod Hchain Ht Hpol chain.
  assert (len chain * block_size cfg = num_tokens r) as Hlen.
  { subst chain. rewrite Hchain. unfold len.
    rewrite length_hash_request_tokens, Z2Nat.id by (apply Z.div_pos; lia).
    rewrite Z.mul_comm. symmetry.
    apply Z.div_exact; lia. }
  assert (chain ≠ []) as Hne.
  { intros E. rewrite E in Hlen. unfold len in Hlen. simpl in Hlen. lia. }
  assert (0 ≤ len chain - 1) as Hpos.
  { unfold len. destruct chain; [done|]. simpl. lia. }
  destruct (enable_caching cfg) eqn:Hc.
  - destruct (prompt_logprobs (sampling_params r)) as [k|] eqn:Hl.
    + (* prompt logprobs: the chain is stored, nothing is matched *)
      exists [], (set_prefix_cache_stats
                    (Stats.add_request (prefix_cache_stats m))
                    (set_req_to_block_hashes
                       (<[request_id r := chain]> (req_to_block_hashes m)) m)).
      split; [|split; [done|split; [done|split; [|done]]]].
      * unfold get_computed_blocks. rewrite Hc, Hl. simpl.
        erewrite bind_eval by apply req_block_hashes_of_eq.
        erewrite bind_eval; cycle 1.
        { instantiate (1 := set_req_to_block_hashes
                              (<[request_id r := chain]> (req_to_block_hashes m)) m).
          instantiate (1 := chain).
          subst chain. unfold request_chain.
          destruct (default [] (req_to_block_hashes m !! request_id r)) eqn:E.
          - unfold store_block_hashes, modify, mbind, M_bind, mret, M_ret; simpl.
            by rewrite insert_insert_eq.
          - done. }
        reflexivity.
      * intros _. simpl. by rewrite lookup_insert_eq.
    + destruct (gcb_lookup cfg r m Hc Hl Ht) as (m' & E & Hh & _).
      { intros E. done. }
      fold chain in Hh.
      assert (probed_chain cfg r m = removelast chain) as Hprobe.
      { unfold probed_chain. fold chain. by rewrite decide_True. }
      rewrite Hprobe in E.
      eexists _, m'. split; [exact E|]. split; [done|]. split.
      * pose proof (Hpol (block_pool m) (removelast chain)) as Hle.
        pose proof (length_removelast_lt chain Hne). unfold len. lia.
      * split; [|done]. intros _. rewrite Hh. by rewrite lookup_insert_eq.
  - exists [], m. unfold get_computed_blocks. rewrite Hc. simpl.
    repeat split; try done.
Qed.

(** C4.  With caching disabled, or for a request that asks for prompt
    log-probabilities, the result is the empty list and 0; otherwise the
    call returns the blocks the policy matched and their number times the
    block size. *)
Theorem get_computed_blocks_result cfg r m :
  (enable_caching cfg = false ∨ is_Some (prompt_logprobs (sampling_params r)) →
   ∃ m', get_computed_blocks cfg r m = (Returned ([], 0), m')) ∧
  (enable_caching cfg = true →
   prompt_logprobs (sampling_params r) = None →
   telemetry_ready cfg m →
   0 < num_tokens r →
   ∃ blocks m',
     get_computed_blocks cfg r m
     = (Returned (blocks, len blocks * block_size cfg), m') ∧
     blocks = find_longest_cache_hit (specialized_manager cfg) (block_pool m)
                (probed_chain cfg r m)).
Proof.
  split.
  - intros Hskip. unfold get_computed_blocks.
    destruct (enable_caching cfg) eqn:Hc; simpl; [|by eexists].
    destruct Hskip as [|[k Hk]]; [done|]. rewrite Hk.
    erewrite bind_eval by apply req_block_hashes_of_eq.
    destruct (default [] (req_to_block_hashes m !! request_id r)); by eexists.
  - intros Hc Hl Ht Hn.
    destruct (gcb_lookup cfg r m Hc Hl Ht) as (m' & E & _); [lia|].
    by eexists _, m'.
Qed.

(** ** [allocate_slots] *)

(** C3.  When the blocks still needed exceed the free blocks of the pool
    (after the release of the skipped blocks) minus the unreferenced new
    computed blocks, the call returns [None], and the state it leaves is
    the state it found with the effects of step 1 only: the request's list
    is what the policy kept of it, the pool is the pool after the release;
    nothing is appended to the list, pinned or pulled, and the statistics,
    the chains and the cached-block counts are untouched. *)
Theorem allocate_slots_cannot_allocate cfg r n ncb m kept removed p1 :
  n ≠ 0 →
  remove_skipped_blocks (specialized_manager cfg)
    (default [] (req_to_blocks m !! request_id r)) (num_computed_tokens r)
  = (kept, removed) →
  free_blocks removed (block_pool m) = (Returned tt, p1) →
  required_new_blocks cfg r n (default [] ncb) kept
  > get_num_free_blocks p1 - num_evictable p1 (default [] ncb) →
  allocate_slots cfg r n ncb m
  = (Returned None,
     set_block_pool p1
       (set_req_to_blocks (<[request_id r := kept]> (req_to_blocks m)) m)).
Proof.
  intros Hn Hrs Hfree Hcap. unfold allocate_slots.
  rewrite decide_False by done.
  erewrite bind_eval by apply req_blocks_of_eq.
  rewrite Hrs.
  erewrite bind_eval by reflexivity.
  erewrite bind_eval; cycle 1.
  { unfold on_pool. simpl. rewrite Hfree. reflexivity. }
  erewrite bind_eval by reflexivity. simpl.
  fold (required_new_blocks cfg r n (default [] ncb) kept).
  fold (num_evictable p1 (default [] ncb)).
  rewrite decide_True by done.
  unfold mret, M_ret. by rewrite insert_insert_eq.
Qed.

Lemma allocate_slots_zero_raises cfg r ncb m :
  allocate_slots cfg r 0 ncb m = (Raised ValueError, m).
Proof. reflexivity. Qed.


(** ** Which exceptions a call can raise *)

Section RaisesOnly.
Context {S : Type} (allowed : exn → Prop).

Lemma ro_ret {A} (a : A) : raises_only (mret a : M S A) allowed.
Proof. by intros s e s' [=]. Qed.

Lemma ro_gets {A} (f : S → A) : raises_only (gets f) allowed.
Proof. by intros s e s' [=]. Qed.

Lemma ro_modify (f : S → S) : raises_only (modify f) allowed.
Proof. by intros s e s' [=]. Qed.

Lemma ro_raise {A} e : allowed e → raises_only (raise e : M S A) allowed.
Proof. by intros He s e' s' [= <- _]. Qed.

Lemma ro_assert b : allowed AssertionError → raises_only (assert b : M S unit) allowed.
Proof. destruct b; [by intros _ s e s' [=]|apply ro_raise]. Qed.

Lemma ro_bind {A B} (c : M S A) (k : A → M S B) :
  raises_only c allowed → (∀ a, raises_only (k a) allowed) →
  raises_only (c ≫= k) allowed.
Proof.
  intros Hc Hk s e s'. unfold mbind, M_bind.
  destruct (c s) as [[a|e0] s1] eqn:E.
  - apply Hk.
  - intros [= <- _]. by eapply Hc.
Qed.
End RaisesOnly.

Lemma ro_free_blocks allowed l :
  allowed AssertionError → raises_only (free_blocks l) allowed.
Proof.
  intros Ha. induction l as [|b l IH]; simpl.
  - apply ro_ret.
  - apply ro_bind; [|done].
    intros p e p'. unfold free_block.
    destruct (blocks p !! b) as [k|]; [|done].
    destruct (ref_cnt k); [|done]. by intros [= <- _].
Qed.

Lemma ro_get_new_blocks allowed k :
  allowed AssertionError → raises_only (get_new_blocks k) allowed.
Proof.
  intros Ha p e p'. unfold get_new_blocks.
  case_decide; [|done]. by intros [= <- _].
Qed.

Lemma ro_on_pool {A} allowed (op : M BlockPool A) :
  raises_only op allowed → raises_only (on_pool op) allowed.
Proof.
  intros Hop m e m'. unfold on_pool.
  destruct (op (block_pool m)) as [[a|e0] p] eqn:E; [done|].
  intros [= <- _]. by eapply Hop.
Qed.

Lemma ro_on_telemetry allowed op :
  allowed AttributeError → raises_only (on_telemetry op) allowed.
Proof.
  intros Ha m e m'. unfold on_telemetry.
  destruct (cache_telemetry m); [done|]. by intros [= <- _].
Qed.

Lemma allocate_slots_raises cfg r n ncb :
  n ≠ 0 →
  raises_only (allocate_slots cfg r n ncb)
    (λ e, e = AssertionError ∨ e = AttributeError).
Proof.
  intros Hn. unfold allocate_slots. rewrite decide_False by done.
  apply ro_bind; [by intros m e m'; rewrite req_blocks_of_eq|intros l0].
  destruct (remove_skipped_blocks _ _ _) as [kept removed].
  apply ro_bind; [apply ro_modify|intros _].
  apply ro_bind; [apply ro_on_pool, ro_free_blocks; auto|intros _].
  apply ro_bind; [apply ro_gets|intros pool].
  case_decide; [apply ro_ret|].
  apply ro_bind.
  { destruct (enable_caching cfg);
      [apply ro_on_pool, ro_modify|apply ro_assert; auto]. }
  intros _. apply ro_bind; [apply ro_modify|intros _].
  apply ro_bind.
  { case_decide; [apply ro_ret|].
    apply ro_bind; [apply ro_gets|intros nfree].
    apply ro_bind; [apply ro_assert; auto|intros _].
    apply ro_bind; [apply ro_gets|intros readily].
    apply ro_bind.
    { case_decide; [|apply ro_ret].
      apply ro_bind; [apply ro_modify|intros _].
      destruct (log_stats cfg); [apply ro_on_telemetry; auto|apply ro_ret]. }
    intros _.
    apply ro_bind; [apply ro_on_pool, ro_get_new_blocks; auto|intros new].
    apply ro_bind; [apply ro_modify|intros _]. apply ro_ret. }
  intros [rb nb].
  destruct (enable_caching cfg); simpl; [|apply ro_ret].
  apply ro_bind; [apply ro_gets|intros nc].
  apply ro_bind; [by intros m e m'; rewrite req_block_hashes_of_eq|intros bh].
  apply ro_bind; [apply ro_on_pool, ro_modify|intros _].
  apply ro_bind; [apply ro_modify|intros _]. apply ro_ret.
Qed.

(** [ValueError] is raised exactly on a zero token count. *)
Lemma allocate_slots_ValueError_iff cfg r n ncb m :
  (allocate_slots cfg r n ncb m).1 = Raised ValueError ↔ n = 0.
Proof.
  split; [|by intros ->].
  intros Hraise. destruct (decide (n = 0)) as [|Hn]; [done|].
  destruct (allocate_slots cfg r n ncb m) as [res m'] eqn:E. simpl in Hraise.
  subst res. by destruct (allocate_slots_raises cfg r n ncb Hn _ _ _ E).
Qed.

(** C2, at a negative token count.  On a manager without caching, a call
    with [num_tokens = -1] for a request that holds no block raises
    nothing: it returns the empty list and has stored an empty block list
    for the request. *)
Theorem allocate_slots_negative_not_rejected :
  let cfg := example_config false false 64 10 in
  let request := example_request "r" 0 3 in
  let '(result, m') := allocate_slots cfg request (-1) None (example_manager cfg) in
  result = Returned (Some []) ∧
  req_to_blocks (example_manager cfg) !! "r" = None ∧
  req_to_blocks m' !! "r" = Some [].
Proof. vm_compute. done. Qed.


(** ** The pool *)

Lemma free_block_held (p : BlockPool) b k n :
  blocks p !! b = Some k → ref_cnt k = S n →
  free_block b p =
  (Returned tt,
   {| blocks := <[b := {| ref_cnt := n; block_hash := block_hash k |}]> (blocks p);
      free_block_queue :=
        if decide (n = 0%nat) then free_block_queue p ++ [b]
        else free_block_queue p;
      cached_block_hash_to_block := cached_block_hash_to_block p |}).
Proof. intros Hb Hk. unfold free_block. by rewrite Hb, Hk. Qed.

(** Releasing distinct blocks that each have one reference queues them in
    the order given and changes no other block. *)
Lemma free_blocks_queue l : ∀ p,
  NoDup l →
  (∀ b, b ∈ l → block_ref_cnt p b = 1%nat ∧ (b < length (blocks p))%nat) →
  ∃ p', free_blocks l p = (Returned tt, p') ∧
        free_block_queue p' = free_block_queue p ++ l.
Proof.
  induction l as [|b l IH]; intros p Hnd Hl.
  - exists p. by rewrite app_nil_r.
  - apply NoDup_cons in Hnd as [Hb Hnd].
    destruct (Hl b) as [Hr Hlt]; [left|].
    unfold block_ref_cnt in Hr.
    destruct (blocks p !! b) as [k|] eqn:Ek;
      [|by apply lookup_ge_None in Ek; lia].
    set (p1 := {| blocks := <[b := {| ref_cnt := 0; block_hash := block_hash k |}]> (blocks p);
                  free_block_queue := free_block_queue p ++ [b];
                  cached_block_hash_to_block := cached_block_hash_to_block p |}).
    destruct (IH p1 Hnd) as (p' & E & Hq).
    { intros b' Hb'. destruct (Hl b') as [Hr' Hlt']; [by right|].
      unfold block_ref_cnt in *. simpl. rewrite length_insert.
      rewrite list_lookup_insert_ne by (intros ->; done). done. }
    exists p'. split.
    + change (free_blocks (b :: l) p) with ((free_block b;; free_blocks l) p).
      erewrite bind_eval by (by apply (free_block_held p b k 0)). exact E.
    + rewrite Hq. simpl. by rewrite <- (assoc_L (++)).
Qed.

(** ** [free] and [free_block_hashes] *)

(** C6.  [free] pops the block list of the request and hands it to the
    pool's [free_blocks] reversed when caching is enabled, as it is when
    caching is disabled; when the blocks are distinct and held by this
    request only, they join the evictable queue in that order: the tail
    first with caching, the head first without. *)
Theorem free_releases_in_order cfg r m held :
  req_to_blocks m !! request_id r = Some held →
  held ≠ [] →
  let ordered := if enable_caching cfg then reverse held else held in
  req_to_blocks (free cfg r m).2 = delete (request_id r) (req_to_blocks m) ∧
  ((free cfg r m).1, block_pool (free cfg r m).2)
  = free_blocks ordered (block_pool m) ∧
  (NoDup held →
   (∀ b, b ∈ held → block_ref_cnt (block_pool m) b = 1%nat ∧
                    (b < length (blocks (block_pool m)))%nat) →
   (free cfg r m).1 = Returned tt ∧
   free_block_queue (block_pool (free cfg r m).2)
   = free_block_queue (block_pool m) ++ ordered).
Proof.
  intros Hheld Hne ordered.
  assert (free cfg r m =
          let '(res, p) := free_blocks ordered (block_pool m) in
          (res,
           match res with
           | Returned _ =>
               set_num_cached_block (delete (request_id r) (num_cached_block m))
                 (set_block_pool p
                    (set_req_to_blocks (delete (request_id r) (req_to_blocks m)) m))
           | Raised _ =>
               set_block_pool p
                 (set_req_to_blocks (delete (request_id r) (req_to_blocks m)) m)
           end)) as Efree.
  { unfold free. erewrite bind_eval by reflexivity. simpl.
    rewrite Hheld. simpl. fold ordered.
    erewrite bind_eval by reflexivity.
    unfold mbind, M_bind, on_pool, modify. simpl.
    by destruct (free_blocks ordered (block_pool m)) as [[[]|e] p]. }
  rewrite Efree.
  destruct (free_blocks ordered (block_pool m)) as [res p] eqn:E.
  split; [by destruct res|]. split; [by destruct res|].
  intros Hnd Hrefs.
  destruct (free_blocks_queue ordered (block_pool m)) as (p' & E' & Hq).
  { subst ordered. destruct (enable_caching cfg); [by rewrite reverse_Permutation|done]. }
  { intros b Hb. apply Hrefs. subst ordered.
    destruct (enable_caching cfg); [by apply elem_of_reverse|done]. }
  rewrite E in E'. simplify_eq. done.
Qed.

Lemma free_eval cfg r m :
  free cfg r m =
  let held := default [] (req_to_blocks m !! request_id r) in
  let '(res, p) :=
    free_blocks (if enable_caching cfg then reverse held else held)
      (block_pool m) in
  (res,
   match res with
   | Returned _ =>
       set_num_cached_block (delete (request_id r) (num_cached_block m))
         (set_block_pool p
            (set_req_to_blocks (delete (request_id r) (req_to_blocks m)) m))
   | Raised _ =>
       set_block_pool p
         (set_req_to_blocks (delete (request_id r) (req_to_blocks m)) m)
   end).
Proof.
  unfold free. erewrite bind_eval by reflexivity. simpl.
  erewrite bind_eval by reflexivity.
  unfold mbind, M_bind, on_pool, modify. simpl.
  by destruct (free_blocks _ (block_pool m)) as [[[]|e] p].
Qed.

(** Freeing a request that holds no block list (or an empty one) releases
    nothing. *)
Lemma free_nothing_held cfg r m :
  default [] (req_to_blocks m !! request_id r) = [] →
  free cfg r m =
  (Returned tt,
   set_num_cached_block (delete (request_id r) (num_cached_block m))
     (set_block_pool (block_pool m)
        (set_req_to_blocks (delete (request_id r) (req_to_blocks m)) m))).
Proof.
  intros Hheld. rewrite free_eval, Hheld. simpl.
  by destruct (enable_caching cfg).
Qed.

(** C7.  A second [free] after a first one that returned changes nothing
    and releases nothing; so does [free] for a request id the manager has
    never seen; [free_block_hashes] after [free] returns, touches only the
    stored chain and changes nothing at all when no chain is stored; and
    [free] for a request whose stored block list is empty releases
    nothing and leaves every block list as it reads. *)
Theorem free_idempotent cfg r :
  (∀ m m1, free cfg r m = (Returned tt, m1) →
           free cfg r m1 = (Returned tt, m1)) ∧
  (∀ m, req_to_blocks m !! request_id r = None →
        num_cached_block m !! request_id r = None →
        free cfg r m = (Returned tt, m)) ∧
  (∀ m m1, free cfg r m = (Returned tt, m1) →
           ∃ m2, free_block_hashes r m1 = (Returned tt, m2) ∧
                 block_pool m2 = block_pool m1 ∧
                 req_to_blocks m2 = req_to_blocks m1 ∧
                 num_cached_block m2 = num_cached_block m1 ∧
                 prefix_cache_stats m2 = prefix_cache_stats m1 ∧
                 cache_telemetry m2 = cache_telemetry m1 ∧
                 req_to_block_hashes m2 !! request_id r = None ∧
                 (req_to_block_hashes m1 !! request_id r = None → m2 = m1)) ∧
  (∀ m, default [] (req_to_blocks m !! request_id r) = [] →
        ∃ m', free cfg r m = (Returned tt, m') ∧
              block_pool m' = block_pool m ∧
              req_to_block_hashes m' = req_to_block_hashes m ∧
              prefix_cache_stats m' = prefix_cache_stats m ∧
              cache_telemetry m' = cache_telemetry m ∧
              (∀ id, default [] (req_to_blocks m' !! id)
                     = default [] (req_to_blocks m !! id))).
Proof.
  assert (∀ m, req_to_blocks m !! request_id r = None →
               num_cached_block m !! request_id r = None →
               free cfg r m = (Returned tt, m)) as Hunknown.
  { intros m Hb Hn. rewrite free_nothing_held by (by rewrite Hb).
    destruct m as [p t c rb rh nc st]; simpl in *.
    unfold set_num_cached_block, set_block_pool, set_req_to_blocks; simpl.
    by rewrite !delete_id. }
  split; [|split; [done|split]].
  - intros m m1 Hfree. apply Hunknown.
    + rewrite free_eval in Hfree. cbv zeta in Hfree.
      destruct (free_blocks _ _) as [[[]|e] p]; simplify_eq. simpl.
      apply lookup_delete_eq.
    + rewrite free_eval in Hfree. cbv zeta in Hfree.
      destruct (free_blocks _ _) as [[[]|e] p]; simplify_eq. simpl.
      apply lookup_delete_eq.
  - intros m m1 _. eexists. split; [reflexivity|]. simpl.
    repeat split; try done.
    + apply lookup_delete_eq.
    + intros Hnone. destruct m1 as [p t c rb rh nc st]; simpl in *.
      unfold set_req_to_block_hashes; simpl. by rewrite delete_id.
  - intros m Hheld. eexists. split; [by apply free_nothing_held|]. simpl.
    repeat split; try done. intros id.
    destruct (decide (id = request_id r)) as [->|Hne].
    + by rewrite lookup_delete_eq, Hheld.
    + by rewrite lookup_delete_ne.
Qed.

(** ** What a call leaves unchanged *)

Section Preserves.
Context {S X : Type} (f : S → X).

Lemma pr_ret {A} (a : A) : preserves (mret a : M S A) f.
Proof. done. Qed.

Lemma pr_gets {A} (g : S → A) : preserves (gets g) f.
Proof. done. Qed.

Lemma pr_raise {A} e : preserves (raise e : M S A) f.
Proof. done. Qed.

Lemma pr_assert b : preserves (assert b : M S unit) f.
Proof. by destruct b. Qed.

Lemma pr_modify (g : S → S) : (∀ s, f (g s) = f s) → preserves (modify g) f.
Proof. intros Hg s. apply Hg. Qed.

Lemma pr_bind {A B} (c : M S A) (k : A → M S B) :
  preserves c f → (∀ a, preserves (k a) f) → preserves (c ≫= k) f.
Proof.
  intros Hc Hk s. unfold mbind, M_bind.
  specialize (Hc s). destruct (c s) as [[a|e] s1]; simpl in *.
  - by rewrite Hk.
  - done.
Qed.
End Preserves.

Lemma pr_on_pool {A} (op : M BlockPool A) : preserves (on_pool op) observability.
Proof. intros m. unfold on_pool. by destruct (op (block_pool m)). Qed.

(** No call of [allocate_slots] touches the statistics or the telemetry:
    the count of blocks to pull is at most the number of free blocks, so
    the branch that records evictions is never taken. *)
Lemma allocate_slots_observability cfg r n ncb :
  preserves (allocate_slots cfg r n ncb) observability.
Proof.
  unfold allocate_slots. case_decide; [apply pr_raise|].
  apply pr_bind; [by intros m; rewrite req_blocks_of_eq|intros l0].
  destruct (remove_skipped_blocks _ _ _) as [kept removed].
  apply pr_bind; [by apply pr_modify|intros _].
  apply pr_bind; [apply pr_on_pool|intros _].
  apply pr_bind; [apply pr_gets|intros pool].
  case_decide; [apply pr_ret|].
  apply pr_bind.
  { destruct (enable_caching cfg); [apply pr_on_pool|apply pr_assert]. }
  intros _. apply pr_bind; [by apply pr_modify|intros _].
  apply pr_bind.
  { case_decide; [apply pr_ret|].
    intros m. unfold mbind at 1, M_bind at 1, gets at 1.
    unfold mbind at 1, M_bind at 1, assert.
    case_bool_decide; [|done].
    unfold mbind at 1, M_bind at 1, gets at 1, mret at 1, M_ret at 1.
    rewrite decide_False by lia.
    unfold mbind at 1, M_bind at 1, mret at 1, M_ret at 1.
    apply (pr_bind observability); [apply pr_on_pool|intros new].
    apply pr_bind; [by apply pr_modify|intros _]. apply pr_ret. }
  intros [rb nb].
  destruct (enable_caching cfg); simpl; [|apply pr_ret].
  apply pr_bind; [apply pr_gets|intros nc].
  apply pr_bind; [by intros m; rewrite req_block_hashes_of_eq|intros bh].
  apply pr_bind; [apply pr_on_pool|intros _].
  apply pr_bind; [by apply pr_modify|intros _]. apply pr_ret.
Qed.

(** C9, at an allocation that evicts.  The pool has one block; it was
    cached and released by a first request, so it is free and holds cached
    content.  The second request is given this block, whose cache entry is
    removed, and neither the statistics nor the telemetry record an
    eviction. *)
Theorem allocate_slots_eviction_not_recorded :
  let before := manager_after_first in
  let '(result, after) :=
    allocate_slots eviction_config second_request 16 None before in
  (* the only free block holds cached content *)
  get_num_free_blocks (block_pool before) = 1 ∧
  hash_value <$> block_content_hash (block_pool before) 0 = Some 135 ∧
  cached_block_hash_to_block (block_pool before) !! 135 = Some 0%nat ∧
  (* it is handed out, and its cache entry is gone *)
  result = Returned (Some [0%nat]) ∧
  cached_block_hash_to_block (block_pool after) !! 135 = None ∧
  (* no eviction was recorded *)
  Stats.evictions (prefix_cache_stats after) = 0 ∧
  Stats.request_evictions (prefix_cache_stats after) = 0 ∧
  total_evictions <$> cache_telemetry after = Some 0 ∧
  total_evictions_ts <$> cache_telemetry after = Some [].
Proof. vm_compute. done. Qed.

(** ** Arithmetic of [cdiv] *)

Lemma cdiv_bounds a b :
  0 < b → b * (cdiv a b - 1) < a ≤ b * cdiv a b.
Proof.
  intros Hb. unfold cdiv.
  pose proof (Z.div_mod a (- b) ltac:(lia)) as Hdm.
  pose proof (Z.mod_neg_bound a (- b) ltac:(lia)) as Hm.
  nia.
Qed.

Lemma cdiv_nonneg a b : 0 < b → 0 ≤ a → 0 ≤ cdiv a b.
Proof. intros Hb Ha. pose proof (cdiv_bounds a b Hb). nia. Qed.

Lemma cdiv_lower a b c : 0 < b → b * c < a → c < cdiv a b.
Proof. intros Hb Ha. pose proof (cdiv_bounds a b Hb). nia. Qed.

(** ** Counting the free blocks *)

Lemma length_filter_insert {A} (P : A → Prop) `{!∀ x, Decision (P x)}
    (l : list A) i x y :
  l !! i = Some x →
  (length (filter P (<[i:=y]> l)) + (if decide (P x) then 1 else 0)
   = length (filter P l) + (if decide (P y) then 1 else 0))%nat.
Proof.
  revert i. induction l as [|z l IH]; intros [|i] Hi; simplify_eq/=.
  - rewrite !filter_cons. repeat case_decide; simpl; lia.
  - rewrite !filter_cons. specialize (IH i Hi).
    destruct (decide (P z)); simpl; lia.
Qed.

Lemma get_num_free_blocks_touch p b :
  get_num_free_blocks p
  - (if decide (block_ref_cnt p b = 0%nat) then 1 else 0)
  ≤ get_num_free_blocks (touch_block p b).
Proof.
  unfold get_num_free_blocks, touch_block, block_ref_cnt, len.
  destruct (blocks p !! b) as [k|] eqn:Ek; simpl; [|repeat case_decide; lia].
  pose proof (length_filter_insert (λ k, ref_cnt k = 0%nat) (blocks p) b k
                {| ref_cnt := S (ref_cnt k); block_hash := block_hash k |} Ek)
    as Hlen.
  simpl in Hlen. repeat case_decide; lia.
Qed.

Lemma block_ref_cnt_touch p b x :
  block_ref_cnt (touch_block p b) x = 0%nat → block_ref_cnt p x = 0%nat.
Proof.
  unfold touch_block, block_ref_cnt.
  destruct (blocks p !! b) as [k|] eqn:Ek; simpl; [|done].
  destruct (decide (x = b)) as [->|Hne].
  - rewrite list_lookup_insert_eq by (by eapply lookup_lt_Some). done.
  - by rewrite list_lookup_insert_ne.
Qed.

Lemma num_evictable_touch p b l :
  num_evictable (touch_block p b) l ≤ num_evictable p l.
Proof.
  unfold num_evictable, len. induction l as [|x l IH]; [done|].
  rewrite !filter_cons.
  destruct (decide (block_ref_cnt (touch_block p b) x = 0%nat)) as [H0|H0].
  - rewrite decide_True by (by eapply block_ref_cnt_touch). simpl. lia.
  - case_decide; simpl; lia.
Qed.

(** Pinning the new computed blocks takes at most the unreferenced ones
    among them out of the free blocks. *)
Lemma get_num_free_blocks_touched l : ∀ p,
  get_num_free_blocks p - num_evictable p l
  ≤ get_num_free_blocks (foldl touch_block p l).
Proof.
  induction l as [|b l IH]; intros p; simpl.
  - unfold num_evictable, len. simpl. lia.
  - specialize (IH (touch_block p b)).
    pose proof (get_num_free_blocks_touch p b).
    pose proof (num_evictable_touch p b l).
    assert (num_evictable p (b :: l)
            = (if decide (block_ref_cnt p b = 0%nat) then 1 else 0)
              + num_evictable p l) as ->.
    { unfold num_evictable, len. rewrite filter_cons.
      case_decide; simpl; lia. }
    lia.
Qed.

Lemma length_filter_split {A} (P : A → Prop) `{!∀ x, Decision (P x)}
    (l : list A) :
  (length (filter (λ x, ¬ P x) l) + length (filter P l) = length l)%nat.
Proof.
  induction l as [|x l IH]; [done|]. rewrite !filter_cons.
  destruct (decide (P x)); simpl.
  - rewrite decide_False by tauto. simpl. lia.
  - rewrite decide_True by done. simpl. lia.
Qed.

(** A successful [get_new_blocks] hands out exactly the number of blocks
    asked for. *)
Lemma get_new_blocks_length k p l p' :
  get_new_blocks k p = (Returned l, p') → length l = k.
Proof.
  unfold get_new_blocks. case_decide as Hk; [done|]. intros [= <- _].
  rewrite length_take, length_app.
  assert ((length (filter (λ b, ¬ is_cached p b) (free_block_queue p))
           + length (filter (λ b, is_cached p b) (free_block_queue p))
           = length (free_block_queue p))%nat) as Hsum
    by exact (length_filter_split (is_cached p) (free_block_queue p)).
  lia.
Qed.

(** ** Bounds on the block list *)

Lemma full_attention_keeps_no_more : keeps_no_more FullAttentionManager.
Proof. intros l n kept removed [= <- _]. done. Qed.

Lemma alloc_success_bounds cfg r n ncb m new m' kept removed p1 p2 p3 :
  0 < block_size cfg →
  0 ≤ num_preallocate_tokens cfg →
  alloc_success cfg r n ncb m new m' kept removed p1 p2 p3 →
  Z.min (cdiv (num_computed_tokens r + len ncb * block_size cfg + n)
           (block_size cfg))
        (max_num_blocks_per_req cfg)
  ≤ len (kept ++ ncb ++ new) ∧
  (new ≠ [] → len (kept ++ ncb ++ new) ≤ max_num_blocks_per_req cfg).
Proof.
  intros Hbs Hpre Hs.
  pose proof (as_capacity _ _ _ _ _ _ _ _ _ _ _ _ Hs) as Hcap.
  pose proof (as_touched _ _ _ _ _ _ _ _ _ _ _ _ Hs) as Htouch.
  pose proof (as_pulled _ _ _ _ _ _ _ _ _ _ _ _ Hs) as Hpull.
  assert (required_new_blocks cfg r n ncb kept ≤ get_num_free_blocks p2)
    as Hfree.
  { destruct (enable_caching cfg).
    - subst p2. pose proof (get_num_free_blocks_touched ncb p1). lia.
    - destruct Htouch as [-> ->]. unfold num_evictable, len in Hcap.
      simpl in Hcap. lia. }
  assert (0 ≤ num_preallocate_blocks cfg) as Hp by (by apply cdiv_nonneg).
  unfold required_new_blocks in *.
  set (R := cdiv _ _) in *.
  unfold len in *. rewrite !length_app.
  case_decide as Hneed.
  - destruct Hpull as [-> _]. simpl. split; [lia|done].
  - cbv zeta in Hpull. destruct Hpull as [Hk Hget].
    apply get_new_blocks_length in Hget. rewrite Hget.
    unfold pulled_blocks, len in *. rewrite length_app in *. lia.
Qed.

Lemma alloc_success_upper cfg r n ncb m new m' kept removed p1 p2 p3 :
  alloc_success cfg r n ncb m new m' kept removed p1 p2 p3 →
  len (kept ++ ncb ++ new)
  ≤ Z.max (len kept + len ncb)
      (cdiv (num_computed_tokens r + len ncb * block_size cfg + n)
         (block_size cfg)
       + num_preallocate_blocks cfg).
Proof.
  intros Hs.
  pose proof (as_pulled _ _ _ _ _ _ _ _ _ _ _ _ Hs) as Hpull.
  unfold required_new_blocks in *.
  set (R := cdiv _ _) in *.
  unfold len in *. rewrite !length_app.
  case_decide as Hneed.
  - destruct Hpull as [-> _]. simpl. lia.
  - cbv zeta in Hpull. destruct Hpull as [Hk Hget].
    apply get_new_blocks_length in Hget. rewrite Hget.
    unfold pulled_blocks, len in *. rewrite length_app in *. lia.
Qed.

Lemma alloc_run_snoc_inv cfg m calls c m' :
  alloc_run cfg m (calls ++ [c]) m' →
  ∃ m1 new,
    alloc_run cfg m calls m1 ∧
    first_allocation_only m1 c ∧
    allocate_slots cfg (call_request c) (call_num_tokens c)
      (call_new_computed c) m1 = (Returned (Some new), m').
Proof.
  intros Hrun. remember (calls ++ [c]) as l eqn:El.
  destruct Hrun as [m|m calls0 m1 c0 new m2 Hr Hf Hc].
  - by destruct calls.
  - apply app_inj_tail in El as [-> ->]. by exists m1, new.
Qed.

Lemma alloc_run_state cfg m calls m' :
  alloc_run cfg m calls m' → m' = alloc_state cfg calls m.
Proof.
  induction 1 as [m|m calls m1 c new m2 Hrun IH Hf Hcall]; [done|].
  unfold alloc_state in *. rewrite foldl_snoc, <- IH. by rewrite Hcall.
Qed.

Lemma alloc_run_app_inv cfg m l1 l2 : ∀ m',
  alloc_run cfg m (l1 ++ l2) m' →
  alloc_run cfg m l1 (alloc_state cfg l1 m) ∧
  alloc_run cfg (alloc_state cfg l1 m) l2 m'.
Proof.
  induction l2 as [|c l2 IH] using rev_ind; intros m' Hrun.
  - rewrite app_nil_r in Hrun.
    rewrite <- (alloc_run_state _ _ _ _ Hrun). split; [done|constructor].
  - rewrite (assoc_L (++)) in Hrun.
    apply alloc_run_snoc_inv in Hrun as (m1 & new & Hrun & Hf & Hcall).
    apply IH in Hrun as [H1 H2]. split; [done|].
    by eapply alloc_run_snoc.
Qed.

Lemma alloc_run_other cfg m calls m' id :
  alloc_run cfg m calls m' →
  Forall (λ c, request_id (call_request c) ≠ id) calls →
  held_blocks m' id = held_blocks m id.
Proof.
  induction 1 as [m|m calls m1 c new m2 Hrun IH Hf Hcall]; [done|].
  intros [Hcalls Hc]%Forall_app. rewrite <- IH by done.
  rewrite Forall_singleton in Hc.
  apply allocate_slots_Some_inv in Hcall
    as (kept & removed & p1 & p2 & p3 & Hs).
  pose proof (as_blocks _ _ _ _ _ _ _ _ _ _ _ _ Hs) as Hblocks.
  unfold held_blocks. by rewrite Hblocks, lookup_insert_ne.
Qed.

Lemma alloc_run_cap cfg m calls m' :
  0 < block_size cfg →
  0 ≤ num_preallocate_tokens cfg →
  keeps_no_more (specialized_manager cfg) →
  (∀ id, len (held_blocks m id) ≤ max_num_blocks_per_req cfg) →
  alloc_run cfg m calls m' →
  ∀ id, len (held_blocks m' id) ≤ max_num_blocks_per_req cfg.
Proof.
  intros Hbs Hpre Hpol Hinit Hrun.
  induction Hrun as [m|m calls m1 c new m2 Hrun IH Hdisc Hcall]; [done|].
  specialize (IH Hinit).
  apply allocate_slots_Some_inv in Hcall
    as (kept & removed & p1 & p2 & p3 & Hs).
  set (r := call_request c) in *.
  set (ncb := default [] (call_new_computed c)) in *.
  destruct (alloc_success_bounds _ _ _ _ _ _ _ _ _ _ _ _ Hbs Hpre Hs)
    as [Hlow Hup].
  pose proof (as_blocks _ _ _ _ _ _ _ _ _ _ _ _ Hs) as Hblocks.
  assert (held_blocks m2 (request_id r) = kept ++ ncb ++ new) as Hheld.
  { unfold held_blocks. by rewrite Hblocks, lookup_insert_eq. }
  intros id. destruct (decide (id = request_id r)) as [->|Hne]; cycle 1.
  { unfold held_blocks. rewrite Hblocks, lookup_insert_ne by done.
    apply IH. }
  rewrite Hheld.
  destruct (decide (new = [])) as [Hnew|Hnew]; [|by apply Hup].
  pose proof (Hpol _ _ _ _ (as_skipped _ _ _ _ _ _ _ _ _ _ _ _ Hs)) as Hkept.
  specialize (IH (request_id r)). unfold held_blocks in IH.
  destruct Hdisc as [Hncb|(Hnone & Hnct & Hn)].
  - fold ncb in Hncb. rewrite Hncb, Hnew, !app_nil_r.
    unfold len in *. lia.
  - exfalso. unfold held_blocks in Hnone. fold r in Hnone, Hnct.
    rewrite Hnone in Hkept. simpl in Hkept.
    pose proof (as_pulled _ _ _ _ _ _ _ _ _ _ _ _ Hs) as Hpull.
    assert (¬ required_new_blocks cfg r (call_num_tokens c) ncb kept ≤ 0)
      as Hneed.
    { unfold required_new_blocks.
      assert (len ncb
              < cdiv (num_computed_tokens r + len ncb * block_size cfg
                      + call_num_tokens c) (block_size cfg)).
      { apply cdiv_lower; lia. }
      unfold len in *. lia. }
    rewrite decide_False in Hpull by done. cbv zeta in Hpull.
    destruct Hpull as [Hk Hget].
    apply get_new_blocks_length in Hget. rewrite Hnew in Hget.
    simpl in Hget. lia.
Qed.

(** C8, as amended.  Along any run of calls of [allocate_slots] that each
    returned a block list, new computed blocks being passed only for a
    request that holds no block yet: no block list grows beyond
    [ceil(max_model_len / block_size)]; a request no call was made for
    keeps its list; and for every request a call was made for, with
    [required = ceil((num_computed_tokens + num_tokens) / block_size)] of
    its latest call, the length of its list is at least [required], or
    the cap when that is smaller, and at most the larger of [required]
    plus the preallocated blocks and of the length before that call plus
    the new computed blocks passed.  So without preallocation the length
    is [required], as long as the list was not longer before and the cap
    is not reached. *)
Theorem block_list_length_bounds cfg m calls m' :
  0 < block_size cfg →
  0 ≤ num_preallocate_tokens cfg →
  keeps_no_more (specialized_manager cfg) →
  (∀ id, len (held_blocks m id) ≤ max_num_blocks_per_req cfg) →
  alloc_run cfg m calls m' →
  (∀ id, len (held_blocks m' id) ≤ max_num_blocks_per_req cfg) ∧
  (∀ id, Forall (λ c, request_id (call_request c) ≠ id) calls →
         held_blocks m' id = held_blocks m id) ∧
  (∀ before c after,
     calls = before ++ c :: after →
     Forall (λ c', request_id (call_request c') ≠ request_id (call_request c))
       after →
     let id := request_id (call_request c) in
     let held_before := len (held_blocks (alloc_state cfg before m) id) in
     let passed := len (default [] (call_new_computed c)) in
     let required := required_blocks cfg c in
     let length_now := len (held_blocks m' id) in
     Z.min required (max_num_blocks_per_req cfg) ≤ length_now ∧
     length_now
     ≤ Z.max (held_before + passed) (required + num_preallocate_blocks cfg) ∧
     (num_preallocate_blocks cfg = 0 →
      held_before + passed ≤ required →
      required ≤ max_num_blocks_per_req cfg →
      length_now = required)).
Proof.
  intros Hbs Hpre Hpol Hinit Hrun.
  split; [by eapply alloc_run_cap|].
  split; [intros id; by apply (alloc_run_other cfg)|].
  intros before c after -> Hafter. cbv zeta.
  replace (before ++ c :: after) with ((before ++ [c]) ++ after) in Hrun
    by (by rewrite <- (assoc_L (++))).
  apply alloc_run_app_inv in Hrun as [Hrun Hrest].
  rewrite (alloc_run_other cfg _ _ _ _ Hrest Hafter). clear Hrest.
  apply alloc_run_snoc_inv in Hrun as (m1 & new & Hrun & Hdisc & Hcall).
  apply alloc_run_state in Hrun. subst m1.
  set (m1 := alloc_state cfg before m) in *.
  set (m2 := alloc_state cfg (before ++ [c]) m) in *.
  apply allocate_slots_Some_inv in Hcall
    as (kept & removed & p1 & p2 & p3 & Hs).
  set (r := call_request c) in *.
  set (ncb := default [] (call_new_computed c)) in *.
  destruct (alloc_success_bounds _ _ _ _ _ _ _ _ _ _ _ _ Hbs Hpre Hs)
    as [Hlow _].
  pose proof (alloc_success_upper _ _ _ _ _ _ _ _ _ _ _ _ Hs) as Hup.
  pose proof (as_blocks _ _ _ _ _ _ _ _ _ _ _ _ Hs) as Hblocks.
  pose proof (Hpol _ _ _ _ (as_skipped _ _ _ _ _ _ _ _ _ _ _ _ Hs)) as Hkept.
  assert (held_blocks m2 (request_id r) = kept ++ ncb ++ new) as ->.
  { unfold held_blocks. by rewrite Hblocks, lookup_insert_eq. }
  unfold required_blocks. fold r ncb.
  set (R := cdiv _ _) in *.
  unfold held_blocks, len in *. lia.
Qed.

(** ** Publication into the cache index *)

Lemma cache_block_length chain held p i :
  length (blocks (cache_block chain held p i)) = length (blocks p).
Proof.
  unfold cache_block. repeat case_match; simpl; rewrite ?length_insert; done.
Qed.

Lemma cache_block_other chain held p i b :
  held !! i ≠ Some b →
  blocks (cache_block chain held p i) !! b = blocks p !! b.
Proof.
  intros Hb. unfold cache_block.
  destruct (held !! i) as [b'|] eqn:E1; [|done].
  destruct (chain !! i); [|done].
  destruct (blocks p !! b') as [k|]; [|done].
  destruct (block_hash k); [done|]. simpl.
  apply list_lookup_insert_ne. by intros ->.
Qed.

Lemma cache_block_keeps chain held p i b :
  is_cached p b → is_cached (cache_block chain held p i) b.
Proof.
  unfold is_cached, block_content_hash, cache_block. intros Hb.
  destruct (held !! i) as [b'|] eqn:E1; [|done].
  destruct (chain !! i); [|done].
  destruct (blocks p !! b') as [k|] eqn:Ek; [|done].
  destruct (block_hash k) eqn:Eh; [done|]. simpl.
  destruct (decide (b' = b)) as [->|Hne].
  - rewrite list_lookup_insert_eq by (by eapply lookup_lt_Some). done.
  - by rewrite list_lookup_insert_ne.
Qed.

Lemma cache_block_sets chain held p i b h :
  held !! i = Some b → chain !! i = Some h →
  (b < length (blocks p))%nat →
  is_cached (cache_block chain held p i) b.
Proof.
  intros Hb Hh Hlt. unfold is_cached, block_content_hash, cache_block.
  rewrite Hb, Hh.
  destruct (blocks p !! b) as [k|] eqn:Ek;
    [|by apply lookup_ge_None in Ek; lia].
  destruct (block_hash k) as [h'|] eqn:Eh.
  - by rewrite Ek, Eh.
  - simpl. rewrite list_lookup_insert_eq by done. done.
Qed.

Lemma cache_blocks_length chain held idxs : ∀ p,
  length (blocks (foldl (cache_block chain held) p idxs)) = length (blocks p).
Proof.
  induction idxs as [|i idxs IH]; intros p; simpl; [done|].
  by rewrite IH, cache_block_length.
Qed.

Lemma cache_blocks_other chain held b idxs : ∀ p,
  (∀ i, i ∈ idxs → held !! i ≠ Some b) →
  blocks (foldl (cache_block chain held) p idxs) !! b = blocks p !! b.
Proof.
  induction idxs as [|i idxs IH]; intros p Hb; simpl; [done|].
  rewrite IH by (intros j Hj; apply Hb; by right).
  apply cache_block_other, Hb. by left.
Qed.

Lemma cache_blocks_keeps chain held b idxs : ∀ p,
  is_cached p b → is_cached (foldl (cache_block chain held) p idxs) b.
Proof.
  induction idxs as [|i idxs IH]; intros p Hb; simpl; [done|].
  by apply IH, cache_block_keeps.
Qed.

Lemma cache_blocks_sets chain held b h i idxs : ∀ p,
  i ∈ idxs → held !! i = Some b → chain !! i = Some h →
  (b < length (blocks p))%nat →
  is_cached (foldl (cache_block chain held) p idxs) b.
Proof.
  induction idxs as [|j idxs IH]; intros p Hi Hb Hh Hlt; simpl.
  - by apply elem_of_nil in Hi.
  - apply elem_of_cons in Hi as [->|Hi].
    + by eapply cache_blocks_keeps, cache_block_sets.
    + apply IH; try done. by rewrite cache_block_length.
Qed.

Lemma cache_block_index chain held p i h b :
  cached_block_hash_to_block (cache_block chain held p i) !! h = Some b →
  cached_block_hash_to_block p !! h = Some b ∨ held !! i = Some b.
Proof.
  unfold cache_block.
  destruct (held !! i) as [b'|] eqn:Eb; [|by left].
  destruct (chain !! i) as [h'|]; [|by left].
  destruct (blocks p !! b') as [k|]; [|by left].
  destruct (block_hash k); [by left|]. simpl.
  destruct (cached_block_hash_to_block p !! hash_value h'); [by left|].
  destruct (decide (h = hash_value h')) as [->|Hne].
  - rewrite lookup_insert_eq. intros [= ->]. by right.
  - rewrite lookup_insert_ne by done. by left.
Qed.

Lemma cache_blocks_index chain held h b idxs : ∀ p,
  cached_block_hash_to_block (foldl (cache_block chain held) p idxs) !! h
  = Some b →
  cached_block_hash_to_block p !! h = Some b ∨
  ∃ i, i ∈ idxs ∧ held !! i = Some b.
Proof.
  induction idxs as [|i idxs IH]; intros p Hb; simpl in *; [by left|].
  apply IH in Hb as [Hb|(j & Hj & Hb)].
  - apply cache_block_index in Hb as [Hb|Hb]; [by left|].
    right. exists i. split; [left|done].
  - right. exists j. split; [by right|done].
Qed.

Lemma take_block_uncached p x b :
  b = x ∨ block_content_hash p b = None →
  block_content_hash (take_block p x) b = None.
Proof.
  unfold block_content_hash, take_block. simpl. intros Hb.
  destruct (decide (b = x)) as [->|Hne].
  - destruct (decide (x < length (blocks p))%nat) as [Hlt|Hge].
    + by rewrite list_lookup_insert_eq.
    + rewrite (proj2 (lookup_ge_None _ _)); [done|].
      rewrite length_insert. lia.
  - rewrite list_lookup_insert_ne by done. by destruct Hb.
Qed.

Lemma take_blocks_uncached l b : ∀ p,
  b ∈ l ∨ block_content_hash p b = None →
  block_content_hash (foldl take_block p l) b = None.
Proof.
  induction l as [|x l IH]; intros p Hb; simpl.
  - destruct Hb as [Hb|Hb]; [by apply elem_of_nil in Hb|done].
  - destruct Hb as [Hb|Hb].
    + apply elem_of_cons in Hb as [->|Hb]; [|by apply IH; left].
      apply IH. right. apply take_block_uncached. by left.
    + apply IH. right. apply take_block_uncached. by right.
Qed.

Lemma get_new_blocks_uncached k p new p' b :
  get_new_blocks k p = (Returned new, p') → b ∈ new →
  block_content_hash p' b = None.
Proof.
  unfold get_new_blocks. case_decide; [done|]. intros [= <- <-] Hb.
  apply take_blocks_uncached. by left.
Qed.

(** C5.  A call of [allocate_slots] that returns a block list, with caching
    enabled, records [floor((num_computed_tokens + num_tokens -
    len(spec_token_ids)) / block_size)] as the request's cached-block
    count, and the pool it leaves is the pool it had before the
    publication, after [cache_full_blocks] went from the previously
    recorded count up to that position and no further.  Every block of the
    request's list at one of these positions, for which the chain has a
    hash, holds cached content afterwards; a block at none of them is as
    it was before the publication; the cache index has gained entries for
    blocks at these positions only; and a new block of this call beyond
    them, such as one holding speculative tokens, is not published. *)
Theorem allocate_slots_publishes_full_blocks cfg r n ncb m new m' :
  enable_caching cfg = true →
  allocate_slots cfg r n ncb m = (Returned (Some new), m') →
  let new_computed := default [] ncb in
  let num_full_blocks_now :=
    (num_computed_tokens r + len new_computed * block_size cfg + n
     - len (spec_token_ids r)) / block_size cfg in
  let already_cached :=
    default (len new_computed) (num_cached_block m !! request_id r) in
  let stored_chain := default [] (req_to_block_hashes m !! request_id r) in
  let chain :=
    extended_chain r stored_chain (block_size cfg) (caching_hash_fn cfg) in
  let req_blocks := held_blocks m' (request_id r) in
  let p := pool_before_publication cfg r n new_computed m in
  let published (i : nat) :=
    (Z.to_nat already_cached ≤ i < Z.to_nat num_full_blocks_now)%nat in
  num_cached_block m' !! request_id r = Some num_full_blocks_now ∧
  cache_full_blocks r req_blocks stored_chain already_cached
    num_full_blocks_now (block_size cfg) (caching_hash_fn cfg) p
  = (Returned tt, block_pool m') ∧
  (∀ i b, published i → req_blocks !! i = Some b → is_Some (chain !! i) →
          (b < length (blocks p))%nat →
          is_cached (block_pool m') b) ∧
  (∀ b, (∀ i, published i → req_blocks !! i ≠ Some b) →
        blocks (block_pool m') !! b = blocks p !! b) ∧
  (∀ h b, cached_block_hash_to_block (block_pool m') !! h = Some b →
          cached_block_hash_to_block p !! h = Some b ∨
          ∃ i, published i ∧ req_blocks !! i = Some b) ∧
  (∀ b, b ∈ new → (∀ i, published i → req_blocks !! i ≠ Some b) →
        ¬ is_cached (block_pool m') b).
Proof.
  intros Hc Hcall. cbv zeta.
  apply allocate_slots_Some_inv in Hcall
    as (kept & removed & p1 & p2 & p3 & Hs).
  pose proof (as_cached _ _ _ _ _ _ _ _ _ _ _ _ Hs) as Hcached.
  pose proof (as_blocks _ _ _ _ _ _ _ _ _ _ _ _ Hs) as Hblocks.
  pose proof (as_skipped _ _ _ _ _ _ _ _ _ _ _ _ Hs) as Hskip.
  pose proof (as_released _ _ _ _ _ _ _ _ _ _ _ _ Hs) as Hrel.
  pose proof (as_touched _ _ _ _ _ _ _ _ _ _ _ _ Hs) as Htouch.
  pose proof (as_pulled _ _ _ _ _ _ _ _ _ _ _ _ Hs) as Hpull.
  rewrite Hc in Hcached, Htouch. destruct Hcached as (Hn & Hp & _).
  assert (pool_before_publication cfg r n (default [] ncb) m = p3) as ->.
  { unfold pool_before_publication, held_blocks.
    rewrite Hskip, Hrel, Hc. simpl. rewrite <- Htouch.
    case_decide; [by destruct Hpull as [_ ->]|].
    cbv zeta in Hpull. destruct Hpull as [_ ->]. done. }
  unfold full_blocks_after_append in *.
  set (nfb := _ `div` _) in *.
  split; [by rewrite Hn, lookup_insert_eq|].
  assert (held_blocks m' (request_id r) = kept ++ default [] ncb ++ new)
    as Hheld.
  { unfold held_blocks. by rewrite Hblocks, lookup_insert_eq. }
  rewrite Hheld. split; [done|].
  unfold cache_full_blocks, modify in Hp.
  injection Hp as Hp. rewrite <- Hp.
  set (a := Z.to_nat (default _ _)). set (f := Z.to_nat nfb).
  assert (∀ i, (a ≤ i < f)%nat ↔ i ∈ seq a (f - a)) as Hseq.
  { intros i. rewrite elem_of_seq. lia. }
  assert (∀ b, (∀ i, (a ≤ i < f)%nat →
                     (kept ++ default [] ncb ++ new) !! i ≠ Some b) →
               blocks (foldl (cache_block
                                (extended_chain r
                                   (default [] (req_to_block_hashes m !! request_id r))
                                   (block_size cfg) (caching_hash_fn cfg))
                                (kept ++ default [] ncb ++ new)) p3
                         (seq a (f - a))) !! b
               = blocks p3 !! b) as Hother.
  { intros b Hb. apply cache_blocks_other.
    intros i Hi. by apply Hb, Hseq. }
  split; [|split; [done|split]].
  - intros i b Hi Hb [h Hh] Hlt.
    eapply cache_blocks_sets; try done. by apply Hseq.
  - intros h b Hb. apply cache_blocks_index in Hb as [Hb|(i & Hi & Hb)];
      [by left|]. right. exists i. split; [by apply Hseq|done].
  - intros b Hnew Hb. unfold is_cached, block_content_hash.
    rewrite (Hother b Hb).
    case_decide as Hneed; [destruct Hpull as [-> _]; by apply elem_of_nil in Hnew|].
    cbv zeta in Hpull. destruct Hpull as [_ Hget].
    pose proof (get_new_blocks_uncached _ _ _ _ b Hget Hnew) as Hnone.
    unfold block_content_hash in Hnone. rewrite Hnone. by intros [].
Qed.

(** ** The properties at concrete managers *)

(** The spec's example for C1: block size 16, a 32-token prompt whose two
    blocks are cached by an earlier identical request: one block is
    matched, 16 tokens are computed, and the stored chain has both hashes
    again. *)
Lemma get_computed_blocks_exact_multiple_witness :
  ∃ m',
    get_computed_blocks caching_config (prompt_request "b")
      manager_with_cached_prompt
    = (Returned ([0%nat], 16), m') ∧
    length (hash_request_tokens example_hash 16 (prompt_request "b")) = 2%nat ∧
    req_to_block_hashes m' !! "b"
    = Some (hash_request_tokens example_hash 16 (prompt_request "b")).
Proof.
  destruct (get_computed_blocks_exact_multiple caching_config
              (prompt_request "b") manager_with_cached_prompt)
    as (blocks & m' & E & _ & _ & Hstored & Hblocks).
  - reflexivity.
  - reflexivity.
  - reflexivity.
  - vm_compute. reflexivity.
  - intros _. vm_compute. eexists. reflexivity.
  - apply full_attention_hit_within_chain.
  - specialize (Hblocks eq_refl eq_refl). specialize (Hstored eq_refl).
    exists m'. split; [|split].
    + rewrite E. subst blocks. vm_compute. reflexivity.
    + vm_compute. reflexivity.
    + etrans; [exact Hstored|]. vm_compute. reflexivity.
Defined.

(** C3 at a full pool: the only block is held by the first request, and
    the second request cannot be given one. *)
Lemma allocate_slots_cannot_allocate_witness :
  allocate_slots eviction_config second_request 16 None manager_holding_first
  = (Returned None,
     set_block_pool (block_pool manager_holding_first)
       (set_req_to_blocks
          (<["b" := []]> (req_to_blocks manager_holding_first))
          manager_holding_first)) ∧
  get_num_free_blocks (block_pool manager_holding_first) = 0.
Proof.
  split; [|reflexivity].
  apply (allocate_slots_cannot_allocate eviction_config second_request 16 None
           manager_holding_first [] [] (block_pool manager_holding_first)).
  - discriminate.
  - reflexivity.
  - reflexivity.
  - vm_compute. reflexivity.
Defined.

(** C4 on both paths: without caching nothing is computed; with the
    prompt cached one block is matched and 16 tokens are computed. *)
Lemma get_computed_blocks_result_witness :
  (∃ m', get_computed_blocks (example_config false false 64 10)
           (prompt_request "b")
           (example_manager (example_config false false 64 10))
         = (Returned ([], 0), m')) ∧
  (∃ blocks m', get_computed_blocks caching_config (prompt_request "b")
                  manager_with_cached_prompt
                = (Returned (blocks, len blocks * 16), m') ∧
                blocks = [0%nat]).
Proof.
  split.
  - apply (get_computed_blocks_result (example_config false false 64 10)
             (prompt_request "b")
             (example_manager (example_config false false 64 10))).
    left. reflexivity.
  - destruct (get_computed_blocks_result caching_config (prompt_request "b")
                manager_with_cached_prompt) as [_ Hhit].
    destruct Hhit as (blocks & m' & E & Hblocks).
    + reflexivity.
    + reflexivity.
    + intros _. vm_compute. eexists. reflexivity.
    + reflexivity.
    + exists blocks, m'. split; [exact E|].
      rewrite Hblocks. vm_compute. reflexivity.
Defined.

(** C5 at the allocation of 32 tokens of which the last is speculative:
    both blocks are full of tokens, one is counted and published, and the
    block holding the speculative token is not. *)
Lemma allocate_slots_publishes_full_blocks_witness :
  num_cached_block manager_after_speculative !! "s" = Some 1 ∧
  is_cached (block_pool manager_after_speculative) 0 ∧
  ¬ is_cached (block_pool manager_after_speculative) 1.
Proof.
  destruct (allocate_slots_publishes_full_blocks caching_config
              speculative_request 32 (Some []) manager_before_speculative
              [0; 1; 2; 3; 4; 5]%nat manager_after_speculative)
    as (Hcount & Hpool & Hin & _ & _ & Hout).
  - reflexivity.
  - vm_compute. reflexivity.
  - split; [exact Hcount|]. split.
    + apply (Hin 0%nat 0%nat).
      * vm_compute. lia.
      * vm_compute. reflexivity.
      * vm_compute. eexists. reflexivity.
      * vm_compute. repeat constructor.
    + apply (Hout 1%nat).
      * apply (list_elem_of_lookup_2 _ 1%nat). reflexivity.
      * intros i Hi. assert (i = 0%nat) as -> by (vm_compute in Hi; lia).
        vm_compute. discriminate.
Defined.

(** C6 at a request holding blocks 0 to 5: with caching they join the
    queue tail first. *)
Lemma free_releases_in_order_witness :
  free_block_queue
    (block_pool (free caching_config (prompt_request "a")
                   manager_with_cached_prompt).2)
  = [6; 7; 8; 9; 5; 4; 3; 2; 1; 0]%nat.
Proof.
  destruct (free_releases_in_order caching_config (prompt_request "a")
              manager_with_cached_prompt [0; 1; 2; 3; 4; 5]%nat)
    as (_ & _ & Hqueue).
  - vm_compute. reflexivity.
  - discriminate.
  - destruct Hqueue as [_ Hq].
    + refine (bool_decide_unpack _ _). vm_compute. exact I.
    + apply Forall_forall. refine (bool_decide_unpack _ _). vm_compute. exact I.
    + rewrite Hq. vm_compute. reflexivity.
Defined.

(** C7 at the same request: a second [free] returns and changes nothing. *)
Lemma free_idempotent_witness :
  let m1 := (free caching_config (prompt_request "a")
               manager_with_cached_prompt).2 in
  free caching_config (prompt_request "a") m1 = (Returned tt, m1) ∧
  free caching_config (prompt_request "z") (example_manager caching_config)
  = (Returned tt, example_manager caching_config).
Proof.
  destruct (free_idempotent caching_config (prompt_request "a"))
    as (Htwice & _).
  destruct (free_idempotent caching_config (prompt_request "z"))
    as (_ & Hunknown & _).
  split.
  - apply (Htwice manager_with_cached_prompt).
    vm_compute. reflexivity.
  - apply Hunknown; reflexivity.
Defined.

(** C8 as stated fails.  With the default preallocation of 64 tokens, a
    first call for one new token leaves five blocks in the list, where
    [ceil(1 / 16)] is one; and in a manager whose cap is two blocks, a
    computed block passed to a request that already holds two leaves three
    blocks in its list. *)
Lemma block_list_length_counterexample :
  (let cfg := example_config true false 64 10 in
   let request := example_request "r" 0 1 in
   let '(result, m') :=
     allocate_slots cfg request 1 None (example_manager cfg) in
   result = Returned (Some [0; 1; 2; 3; 4]%nat) ∧
   held_blocks m' "r" = [0; 1; 2; 3; 4]%nat ∧
   cdiv (num_computed_tokens request + 1) (block_size cfg) = 1 ∧
   len (held_blocks m' "r")
   ≠ cdiv (num_computed_tokens request + 1) (block_size cfg)) ∧
  (let cfg := short_context_config in
   let request := example_request "r" 0 32 in
   let m1 := (allocate_slots cfg request 32 None (example_manager cfg)).2 in
   let '(result, m2) := allocate_slots cfg request 1 (Some [5%nat]) m1 in
   held_blocks m1 "r" = [0; 1]%nat ∧
   result = Returned (Some []) ∧
   held_blocks m2 "r" = [0; 1; 5]%nat ∧
   max_num_blocks_per_req cfg = 2 ∧
   ¬ len (held_blocks m2 "r") ≤ cdiv (max_model_len cfg) (block_size cfg)).
Proof.
  vm_compute. repeat split; try reflexivity; try discriminate.
  intros Hle. apply Hle. reflexivity.
Qed.

(** C8 at two calls for one request, 20 prompt tokens and then one more.
    With 64 tokens preallocated six blocks are held: at least the two
    required, at most required plus the four preallocated, below the cap
    of 64.  With nothing preallocated the two required blocks are held. *)
Lemma block_list_length_bounds_witness :
  (let cfg := example_config true false 64 10 in
   let request := example_request "r" 0 20 in
   let m1 := (allocate_slots cfg request 20 None (example_manager cfg)).2 in
   let m2 :=
     (allocate_slots cfg (with_computed_tokens 20 (example_request "r" 0 21))
        1 None m1).2 in
   2 ≤ len (held_blocks m2 "r") ∧ len (held_blocks m2 "r") ≤ 6 ∧
   len (held_blocks m2 "r") ≤ 64) ∧
  (let cfg := example_config true false 0 10 in
   let request := example_request "r" 0 20 in
   let m1 := (allocate_slots cfg request 20 None (example_manager cfg)).2 in
   let m2 :=
     (allocate_slots cfg (with_computed_tokens 20 (example_request "r" 0 21))
        1 None m1).2 in
   len (held_blocks m2 "r") = 2).
Proof.
  split.
  - intros cfg request m1 m2.
    destruct (block_list_length_bounds cfg (example_manager cfg)
                example_calls m2) as (Hcap & _ & Hreq).
    + reflexivity.
    + discriminate.
    + apply full_attention_keeps_no_more.
    + intros id. vm_compute. discriminate.
    + apply (alloc_run_snoc cfg (example_manager cfg) [first_call] m1
               second_call [] m2).
      * apply (alloc_run_snoc cfg (example_manager cfg) []
                 (example_manager cfg) first_call [0; 1; 2; 3; 4; 5]%nat m1).
        -- apply alloc_run_nil.
        -- left. reflexivity.
        -- vm_compute. reflexivity.
      * left. reflexivity.
      * vm_compute. reflexivity.
    + destruct (Hreq [first_call] second_call [] eq_refl (Forall_nil_2 _))
        as (Hlow & Hup & _).
      split; [exact Hlow|]. split; [|apply (Hcap "r")].
      etrans; [exact Hup|]. vm_compute. discriminate.
  - intros cfg request m1 m2.
    destruct (block_list_length_bounds cfg (example_manager cfg)
                example_calls m2) as (_ & _ & Hreq).
    + reflexivity.
    + reflexivity.
    + apply full_attention_keeps_no_more.
    + intros id. vm_compute. discriminate.
    + apply (alloc_run_snoc cfg (example_manager cfg) [first_call] m1
               second_call [] m2).
      * apply (alloc_run_snoc cfg (example_manager cfg) []
                 (example_manager cfg) first_call [0; 1]%nat m1).
        -- apply alloc_run_nil.
        -- left. reflexivity.
        -- vm_compute. reflexivity.
      * left. reflexivity.
      * vm_compute. reflexivity.
    + destruct (Hreq [first_call] second_call [] eq_refl (Forall_nil_2 _))
        as (_ & _ & Heq).
      apply Heq.
      * reflexivity.
      * vm_compute. discriminate.
      * vm_compute. discriminate.
Defined.

(** C10 at three calls after a reset: the 3 of the first call is not
    counted. *)
Lemma record_hit_skips_first_call_witness :
  total_hits
    (record_hits [(3, Some "a"); (2, Some "b"); (5, None)]
       (reset (example_clock,
               (CacheTelemetry_init "telemetry" true example_clock).2))).2
  = 7.
Proof.
  destruct (record_hit_skips_first_call
              (example_clock,
               (CacheTelemetry_init "telemetry" true example_clock).2)
              [(3, Some "a"); (2, Some "b"); (5, None)]) as [_ Hsum].
  - repeat constructor.
  - exact Hsum.
Defined.

(** ** [get_num_common_prefix_blocks] *)

Lemma count_common_blocks_prefix pool n blocks : ∀ acc,
  ∃ k : nat,
    count_common_blocks pool n blocks acc = acc + Z.of_nat k ∧
    (k ≤ length blocks)%nat ∧
    (∀ i b, (i < k)%nat → blocks !! i = Some b →
            Z.of_nat (block_ref_cnt pool b) = n) ∧
    (∀ b, blocks !! k = Some b → Z.of_nat (block_ref_cnt pool b) ≠ n).
Proof.
  induction blocks as [|b blocks IH]; intros acc; simpl.
  - exists 0%nat. repeat split; [lia|lia|intros; lia|done].
  - case_decide as Hb.
    + destruct (IH (acc + 1)) as (k & Hk & Hlen & Hpre & Hstop).
      exists (S k). repeat split; [lia|lia| |done].
      intros [|i] b' Hi Hb'; simplify_eq/=; [done|].
      apply (Hpre i); [lia|done].
    + exists 0%nat. repeat split; [lia|lia|intros; lia|].
      intros b' [= <-]. done.
Qed.

(** X1.  On a running request, [get_num_common_prefix_blocks] returns the
    length of the longest prefix of the request's block list whose blocks
    all have [ref_cnt] equal to [num_running_requests]: every block before
    that position has this count, the block at that position (when there
    is one) has another; the pool and every block list read as before. *)
Theorem get_num_common_prefix_blocks_longest_prefix request n m :
  status request = RUNNING →
  ∃ (k : nat) m',
    get_num_common_prefix_blocks request n m = (Returned (Z.of_nat k), m') ∧
    (k ≤ length (held_blocks m (request_id request)))%nat ∧
    (∀ i b, (i < k)%nat → held_blocks m (request_id request) !! i = Some b →
            Z.of_nat (block_ref_cnt (block_pool m) b) = n) ∧
    (∀ b, held_blocks m (request_id request) !! k = Some b →
          Z.of_nat (block_ref_cnt (block_pool m) b) ≠ n) ∧
    block_pool m' = block_pool m ∧
    (∀ id, held_blocks m' id = held_blocks m id).
Proof.
  intros Hrun. unfold get_num_common_prefix_blocks. rewrite Hrun.
  erewrite bind_eval by apply req_blocks_of_eq.
  erewrite bind_eval by reflexivity. simpl.
  destruct (count_common_blocks_prefix (block_pool m) n
              (default [] (req_to_blocks m !! request_id request)) 0)
    as (k & Hk & Hlen & Hpre & Hstop).
  exists k. eexists. split; [by rewrite Hk|].
  repeat split; try done.
  intros id. unfold held_blocks. simpl.
  destruct (decide (id = request_id request)) as [->|Hne].
  - by rewrite lookup_insert_eq.
  - by rewrite lookup_insert_ne.
Qed.

(** X2.  [get_num_common_prefix_blocks] raises [AssertionError] exactly when
    the request is not running, and then leaves the manager untouched; on
    a running request the manager has no list for, it returns 0 and
    leaves an empty list stored for it. *)
Theorem get_num_common_prefix_blocks_requires_running request n m :
  ((get_num_common_prefix_blocks request n m).1 = Raised AssertionError
   ↔ status request ≠ RUNNING) ∧
  (status request ≠ RUNNING →
   (get_num_common_prefix_blocks request n m).2 = m) ∧
  (status request = RUNNING →
   req_to_blocks m !! request_id request = None →
   get_num_common_prefix_blocks request n m
   = (Returned 0,
      set_req_to_blocks (<[request_id request := []]> (req_to_blocks m)) m)).
Proof.
  unfold get_num_common_prefix_blocks. split; [|split].
  - destruct (status request); try done.
    erewrite bind_eval by apply req_blocks_of_eq. done.
  - by destruct (status request).
  - intros -> Hnone. erewrite bind_eval by apply req_blocks_of_eq.
    rewrite Hnone. reflexivity.
Qed.

(** Three running requests sharing the first two of their five blocks. *)
Lemma get_num_common_prefix_blocks_longest_prefix_witness :
  ∃ m', get_num_common_prefix_blocks (running (shared_prefix_request "a" 1000))
          3 manager_with_three_requests = (Returned 2, m').
Proof.
  destruct (get_num_common_prefix_blocks_longest_prefix
              (running (shared_prefix_request "a" 1000)) 3
              manager_with_three_requests eq_refl)
    as (k & m' & E & Hlen & Hpre & Hstop & _).
  exists m'. rewrite E. f_equal. f_equal.
  destruct k as [|[|[|k]]].
  - exfalso. specialize (Hstop 0%nat). apply Hstop; vm_compute; reflexivity.
  - exfalso. specialize (Hstop 1%nat). apply Hstop; vm_compute; reflexivity.
  - reflexivity.
  - exfalso. specialize (Hpre 2%nat 2%nat). 
    assert (Z.of_nat (block_ref_cnt (block_pool manager_with_three_requests) 2) = 3) as Hbad.
    { apply Hpre; [lia|vm_compute; reflexivity]. }
    vm_compute in Hbad. discriminate.
Defined.

Lemma get_num_common_prefix_blocks_requires_running_witness :
  get_num_common_prefix_blocks (shared_prefix_request "a" 1000) 3
    manager_with_three_requests
  = (Raised AssertionError, manager_with_three_requests) ∧
  (get_num_common_prefix_blocks (running (shared_prefix_request "z" 0)) 3
     manager_with_three_requests).1 = Returned 0.
Proof.
  destruct (get_num_common_prefix_blocks_requires_running
              (shared_prefix_request "a" 1000) 3 manager_with_three_requests)
    as (Hiff & Hsame & _).
  destruct (get_num_common_prefix_blocks_requires_running
              (running (shared_prefix_request "z" 0)) 3
              manager_with_three_requests)
    as (_ & _ & Hzero).
  split.
  - apply injective_projections.
    + apply Hiff. discriminate.
    + apply Hsame. discriminate.
  - rewrite Hzero.
    + reflexivity.
    + reflexivity.
    + vm_compute. reflexivity.
Defined.

(** ** More on [get_computed_blocks] *)

Lemma pr_on_telemetry {X} (f : KVCacheManager → X) op :
  (∀ w m, f (set_telemetry w m) = f m) → preserves (on_telemetry op) f.
Proof.
  intros Hf m. unfold on_telemetry. destruct (cache_telemetry m); [apply Hf|done].
Qed.

Lemma pr_req_block_hashes_of {X} (f : KVCacheManager → X) id :
  (∀ d m, f (set_req_to_block_hashes d m) = f m) →
  preserves (req_block_hashes_of id) f.
Proof. intros Hf m. rewrite req_block_hashes_of_eq. apply Hf. Qed.

Lemma pr_req_blocks_of {X} (f : KVCacheManager → X) id :
  (∀ d m, f (set_req_to_blocks d m) = f m) →
  preserves (req_blocks_of id) f.
Proof. intros Hf m. rewrite req_blocks_of_eq. apply Hf. Qed.

(** X3.  Whatever its outcome, [get_computed_blocks] leaves the block pool,
    the block lists and the cached-block counts as they were: a lookup
    pins nothing and allocates nothing. *)
Theorem get_computed_blocks_allocation_state cfg r :
  preserves (get_computed_blocks cfg r) allocation_state.
Proof.
  unfold get_computed_blocks.
  destruct (enable_caching cfg); simpl; [|apply pr_ret].
  apply pr_bind; [by apply pr_req_block_hashes_of|intros stored].
  apply pr_bind.
  { destruct stored; [|apply pr_ret].
    apply pr_bind; [by apply pr_modify|intros _; apply pr_ret]. }
  intros chain. apply pr_bind; [by apply pr_modify|intros _].
  destruct (prompt_logprobs _); [apply pr_ret|].
  apply pr_bind.
  { case_decide; [|apply pr_ret].
    destruct (last chain); [|apply pr_raise].
    apply pr_bind; [by apply pr_modify|intros _; apply pr_ret]. }
  intros [probe last_hash].
  apply pr_bind; [apply pr_gets|intros pool].
  apply pr_bind; [by apply pr_modify|intros _].
  apply pr_bind.
  { destruct (log_stats cfg); [|apply pr_ret].
    apply pr_bind; [by apply pr_on_telemetry|intros _].
    by apply pr_on_telemetry. }
  intros _. apply pr_bind; [|intros _; apply pr_ret].
  destruct last_hash; [by apply pr_modify|apply pr_ret].
Qed.

(** The whole outcome of [get_computed_blocks] on the path that consults
    the policy. *)
Lemma get_computed_blocks_outcome cfg r m :
  enable_caching cfg = true →
  prompt_logprobs (sampling_params r) = None →
  (request_chain cfg r m = [] → num_tokens r ≠ 0) →
  let chain := request_chain cfg r m in
  let probe := probed_chain cfg r m in
  let blocks :=
    find_longest_cache_hit (specialized_manager cfg) (block_pool m) probe in
  let st := Stats.add_lookup (len probe) (len blocks)
              (Stats.add_request (prefix_cache_stats m)) in
  get_computed_blocks cfg r m =
  if log_stats cfg then
    match cache_telemetry m with
    | None =>
        (Raised AttributeError,
         set_prefix_cache_stats st
           (set_req_to_block_hashes
              (<[request_id r := probe]> (req_to_block_hashes m)) m))
    | Some t =>
        (Returned (blocks, len blocks * block_size cfg),
         set_req_to_block_hashes
           (<[request_id r := chain]> (req_to_block_hashes m))
           (set_telemetry
              (recorded_lookup (request_id r) (len probe) (len blocks)
                 (wall_clock m, t))
              (set_prefix_cache_stats st m)))
    end
  else
    (Returned (blocks, len blocks * block_size cfg),
     set_req_to_block_hashes
       (<[request_id r := chain]> (req_to_block_hashes m))
       (set_prefix_cache_stats st m)).
Proof.
  intros Hc Hl Hpop chain probe blocks st.
  unfold get_computed_blocks. rewrite Hc, Hl. simpl.
  erewrite bind_eval by apply req_block_hashes_of_eq.
  erewrite bind_eval; cycle 1.
  { instantiate (1 := set_req_to_block_hashes
                        (<[request_id r := chain]> (req_to_block_hashes m)) m).
    instantiate (1 := chain).
    subst chain. unfold request_chain.
    destruct (default [] (req_to_block_hashes m !! request_id r)) eqn:E.
    - unfold store_block_hashes, modify, mbind, M_bind, mret, M_ret; simpl.
      by rewrite insert_insert_eq.
    - done. }
  erewrite bind_eval by reflexivity.
  assert (∃ last_hash,
    (if decide (len chain * block_size cfg = num_tokens r) then
       match last chain with
       | Some h =>
           store_block_hashes (request_id r) (removelast chain);;
           mret (removelast chain, Some h)
       | None => raise IndexError
       end
     else mret (chain, None))
      (set_prefix_cache_stats
         (Stats.add_request (prefix_cache_stats m))
         (set_req_to_block_hashes
            (<[request_id r := chain]> (req_to_block_hashes m)) m))
    = (Returned (probe, last_hash),
       set_prefix_cache_stats (Stats.add_request (prefix_cache_stats m))
         (set_req_to_block_hashes
            (<[request_id r := probe]> (req_to_block_hashes m)) m)) ∧
    match last_hash with
    | Some h => probe ++ [h] = chain
    | None => probe = chain
    end) as (last_hash & E2 & L2).
  { subst probe. unfold probed_chain. fold chain. case_decide as Hlen.
    - destruct (last chain) as [h|] eqn:Elast.
      + exists (Some h). split; [|by apply last_Some_removelast].
        unfold store_block_hashes, modify, mbind, M_bind, mret, M_ret; simpl.
        by rewrite insert_insert_eq.
      + apply last_None in Elast. rewrite Elast in Hlen.
        exfalso. apply Hpop; [done|]. unfold len in Hlen at 1.
        simpl in Hlen. lia.
    - by exists None. }
  erewrite bind_eval by exact E2. simpl.
  erewrite bind_eval by reflexivity. simpl. fold blocks.
  erewrite bind_eval by reflexivity. simpl. fold st.
  destruct (log_stats cfg), last_hash as [h|];
    unfold on_telemetry, store_block_hashes, modify, mbind, M_bind, mret, M_ret;
    simpl; try destruct (cache_telemetry m) as [t|] eqn:Ht; simpl;
    rewrite ?Ht; simpl; rewrite ?L2, ?insert_insert_eq; try reflexivity.
  all: unfold recorded_lookup; rewrite <- ?surjective_pairing; try reflexivity.
  all: subst chain; rewrite <- ?L2; reflexivity.
Qed.

Lemma get_computed_blocks_stored_chain cfg r m :
  match default [] (req_to_block_hashes m !! request_id r) with
  | [] =>
      store_block_hashes (request_id r)
        (hash_request_tokens (caching_hash_fn cfg) (block_size cfg) r);;
      mret (hash_request_tokens (caching_hash_fn cfg) (block_size cfg) r)
  | _ :: _ => mret (default [] (req_to_block_hashes m !! request_id r))
  end
    (set_req_to_block_hashes
       (<[request_id r := default [] (req_to_block_hashes m !! request_id r)]>
          (req_to_block_hashes m)) m)
  = (Returned (request_chain cfg r m),
     set_req_to_block_hashes
       (<[request_id r := request_chain cfg r m]> (req_to_block_hashes m)) m).
Proof.
  unfold request_chain.
  destruct (default [] (req_to_block_hashes m !! request_id r)) eqn:E.
  - unfold store_block_hashes, modify, mbind, M_bind, mret, M_ret; simpl.
    by rewrite insert_insert_eq.
  - done.
Qed.

(** The outcome on the path of prompt log-probabilities. *)
Lemma get_computed_blocks_skipped cfg r m k :
  enable_caching cfg = true →
  prompt_logprobs (sampling_params r) = Some k →
  get_computed_blocks cfg r m
  = (Returned ([], 0),
     set_prefix_cache_stats (Stats.add_request (prefix_cache_stats m))
       (set_req_to_block_hashes
          (<[request_id r := request_chain cfg r m]> (req_to_block_hashes m))
          m)).
Proof.
  intros Hc Hl. unfold get_computed_blocks. rewrite Hc, Hl. simpl.
  erewrite bind_eval by apply req_block_hashes_of_eq.
  erewrite bind_eval by apply get_computed_blocks_stored_chain.
  reflexivity.
Qed.

Lemma get_computed_blocks_pop_empty cfg r m :
  enable_caching cfg = true →
  prompt_logprobs (sampling_params r) = None →
  request_chain cfg r m = [] →
  num_tokens r = 0 →
  get_computed_blocks cfg r m
  = (Raised IndexError,
     set_prefix_cache_stats (Stats.add_request (prefix_cache_stats m))
       (set_req_to_block_hashes
          (<[request_id r := []]> (req_to_block_hashes m)) m)).
Proof.
  intros Hc Hl Hchain Hn. unfold get_computed_blocks. rewrite Hc, Hl. simpl.
  erewrite bind_eval by apply req_block_hashes_of_eq.
  erewrite bind_eval by apply get_computed_blocks_stored_chain.
  rewrite Hchain.
  erewrite bind_eval by reflexivity.
  rewrite decide_True by (rewrite Hn; reflexivity).
  reflexivity.
Qed.

Lemma request_chain_no_tokens cfg r m :
  all_token_ids r = [] →
  default [] (req_to_block_hashes m !! request_id r) = [] →
  request_chain cfg r m = [].
Proof.
  intros Ht Hs. unfold request_chain, hash_request_tokens.
  rewrite Hs, Ht. reflexivity.
Qed.

(** X4.  On a request without tokens and without a stored chain, with caching
    enabled and no prompt log-probabilities asked, [get_computed_blocks]
    raises [IndexError] (the [pop] on the empty chain), after it has stored
    the empty chain and counted the request. *)
Theorem get_computed_blocks_no_tokens cfg r m :
  enable_caching cfg = true →
  prompt_logprobs (sampling_params r) = None →
  all_token_ids r = [] →
  default [] (req_to_block_hashes m !! request_id r) = [] →
  get_computed_blocks cfg r m
  = (Raised IndexError,
     set_prefix_cache_stats (Stats.add_request (prefix_cache_stats m))
       (set_req_to_block_hashes
          (<[request_id r := []]> (req_to_block_hashes m)) m)).
Proof.
  intros Hc Hl Ht Hs. apply get_computed_blocks_pop_empty; try done.
  - by apply request_chain_no_tokens.
  - unfold num_tokens. by rewrite Ht.
Qed.


Lemma request_chain_stored cfg r m m' :
  req_to_block_hashes m' !! request_id r = Some (request_chain cfg r m) →
  request_chain cfg r m' = request_chain cfg r m.
Proof.
  intros Hs. unfold request_chain at 1. rewrite Hs. simpl.
  destruct (request_chain cfg r m) eqn:E; [|done].
  unfold request_chain in E.
  by destruct (default [] (req_to_block_hashes m !! request_id r)).
Qed.

Lemma probed_chain_stored cfg r m m' :
  req_to_block_hashes m' !! request_id r = Some (request_chain cfg r m) →
  probed_chain cfg r m' = probed_chain cfg r m.
Proof.
  intros Hs. unfold probed_chain. by rewrite (request_chain_stored _ _ m).
Qed.

(** X6.  A lookup that returned can be repeated: called again on the state it
    left, [get_computed_blocks] returns the same blocks and the same token
    count, works on the same chain and leaves every stored chain as it
    is. *)
Theorem get_computed_blocks_repeatable cfg r m blocks n m' :
  get_computed_blocks cfg r m = (Returned (blocks, n), m') →
  ∃ m'',
    get_computed_blocks cfg r m' = (Returned (blocks, n), m'') ∧
    req_to_block_hashes m'' = req_to_block_hashes m' ∧
    request_chain cfg r m' = request_chain cfg r m.
Proof.
  intros E.
  destruct (enable_caching cfg) eqn:Hc; cycle 1.
  { unfold get_computed_blocks in *. rewrite Hc in *. simpl in *.
    unfold mret, M_ret in E. simplify_eq. by eexists. }
  destruct (prompt_logprobs (sampling_params r)) as [k|] eqn:Hl.
  { rewrite (get_computed_blocks_skipped _ _ _ k) in E by done.
    simplify_eq. eexists. split; [by apply (get_computed_blocks_skipped _ _ _ k)|].
    simpl. split.
    - apply insert_id. rewrite lookup_insert_eq. f_equal. symmetry.
      apply (request_chain_stored cfg r m). simpl. by rewrite lookup_insert_eq.
    - apply request_chain_stored. simpl. by rewrite lookup_insert_eq. }
  destruct (decide (request_chain cfg r m = [] ∧ num_tokens r = 0))
    as [[Hchain Hn]|Hsafe].
  { by rewrite get_computed_blocks_pop_empty in E. }
  assert (request_chain cfg r m = [] → num_tokens r ≠ 0) as Hpop by tauto.
  rewrite get_computed_blocks_outcome in E by done.
  assert (req_to_block_hashes m' !! request_id r = Some (request_chain cfg r m)
          ∧ block_pool m' = block_pool m
          ∧ (log_stats cfg = true → is_Some (cache_telemetry m'))
          ∧ blocks = find_longest_cache_hit (specialized_manager cfg)
                       (block_pool m) (probed_chain cfg r m)
          ∧ n = len blocks * block_size cfg)
    as (Hs & Hp & Ht & -> & ->).
  { destruct (log_stats cfg); [destruct (cache_telemetry m); [|done]|];
      simplify_eq; simpl; rewrite lookup_insert_eq; repeat split; try done.
    all: try (intros _; by eexists). }
  pose proof (request_chain_stored cfg r m m' Hs) as Hchain'.
  pose proof (probed_chain_stored cfg r m m' Hs) as Hprobe'.
  assert (request_chain cfg r m' = [] → num_tokens r ≠ 0) as Hpop'
    by (by rewrite Hchain').
  rewrite (get_computed_blocks_outcome cfg r m') by done.
  rewrite Hchain', Hprobe', Hp.
  destruct (log_stats cfg).
  - destruct (Ht eq_refl) as [t' Ht']. rewrite Ht'.
    eexists. split; [reflexivity|]. simpl. split; [|done]. by apply insert_id.
  - eexists. split; [reflexivity|]. simpl. split; [|done]. by apply insert_id.
Qed.

(** ** Invariants of the telemetry *)

Lemma series_total_snoc ts x n :
  series_total (ts ++ [(x, n)]) = series_total ts + n.
Proof.
  unfold series_total, sum_counts. rewrite fmap_app, foldr_app. simpl.
  generalize (ts.*2). intros l. induction l as [|y l IH]; simpl; lia.
Qed.

Ltac telemetry_cases :=
  unfold record_hit, record_miss, record_eviction, reset, track_request,
    elapsed, time_time;
  repeat match goal with
         | |- context [first_block ?t] => destruct (first_block t) eqn:?
         | |- context [decide ?P] => destruct (decide P)
         | |- context [0 <? ?n] => destruct (0 <? n) eqn:?
         | |- context [match ?id with Some _ => _ | None => _ end] =>
             destruct id
         end; simpl.

Lemma telemetry_step_counters c clk t :
  counters_add_up t → counters_add_up (telemetry_step c (clk, t)).2.
Proof.
  unfold counters_add_up. intros H.
  destruct c as [|n id|n id|n id]; simpl; telemetry_cases; lia.
Qed.

Lemma telemetry_run_invariant (P : CacheTelemetry → Prop) :
  (∀ w, P (reset w).2) →
  (∀ c clk t, P t → P (telemetry_step c (clk, t)).2) →
  ∀ calls w0, P (telemetry_run calls (reset w0)).2.
Proof.
  intros Hreset Hstep calls w0. unfold telemetry_run.
  pose proof (Hreset w0) as Hinit. revert Hinit. generalize (reset w0).
  induction calls as [|c calls IH]; intros [clk t] Ht; simpl; [done|].
  apply IH. by apply Hstep.
Qed.

(** X7.  After construction or [reset], through any run of [record_hit],
    [record_miss], [record_eviction] and [reset] calls, [total_blocks] is
    the sum of [total_hits] and [total_misses]. *)
Theorem telemetry_counters_add_up calls w0 :
  counters_add_up (telemetry_run calls (reset w0)).2.
Proof.
  apply telemetry_run_invariant.
  - by intros [].
  - apply telemetry_step_counters.
Qed.

Lemma size_add_fresh (s : gset string) x :
  x ∉ s → size ({[x]} ∪ s) = S (size s).
Proof.
  intros Hx. rewrite size_union by set_solver. by rewrite size_singleton.
Qed.

Lemma telemetry_step_requests c clk t :
  requests_tracked t → requests_tracked (telemetry_step c (clk, t)).2.
Proof.
  unfold requests_tracked, len.
  intros (Hu & Hts & Hh & Hm & He & Hhl & Hml).
  destruct c as [|n id|n id|n id]; simpl; telemetry_cases;
    rewrite ?length_app, ?size_add_fresh by assumption; simpl;
    repeat split; try done; try lia;
    match goal with
    | |- {[_]} ∪ _ ⊆ {[_]} ∪ _ => by apply union_mono_l
    | |- {[_]} ∪ _ ⊆ _ =>
        apply union_subseteq; split; [by apply singleton_subseteq_l|done]
    | |- _ ⊆ {[_]} ∪ _ => by apply union_subseteq_r'
    end.
Qed.

(** X8.  After construction or [reset], through any run of [record_hit],
    [record_miss], [record_eviction] and [reset] calls, [unique_requests]
    is the number of tracked request ids and the length of its series;
    the sets of requests with hits, misses and evictions hold tracked ids
    only; and the series of requests with hits and with misses have one
    entry per member. *)
Theorem telemetry_requests_tracked calls w0 :
  requests_tracked (telemetry_run calls (reset w0)).2.
Proof.
  apply telemetry_run_invariant.
  - intros [clk t]. unfold requests_tracked. simpl.
    repeat split; try done.
  - apply telemetry_step_requests.
Qed.

Lemma telemetry_step_series c clk t :
  series_agree t → series_agree (telemetry_step c (clk, t)).2.
Proof.
  unfold series_agree. intros (Hb & Hh & Hm & He).
  destruct c as [|n id|n id|n id]; simpl; telemetry_cases;
    rewrite ?series_total_snoc; repeat split; try done; try lia.
Qed.

(** X9.  After construction or [reset], through any run of [record_hit],
    [record_miss], [record_eviction] and [reset] calls, each block-level
    time series adds up to its counter: blocks, hits, misses and
    evictions. *)
Theorem telemetry_series_agree calls w0 :
  series_agree (telemetry_run calls (reset w0)).2.
Proof.
  apply telemetry_run_invariant.
  - intros [clk t]. by repeat split.
  - apply telemetry_step_series.
Qed.

(** Calls other than [record_hit] leave the first-hit flag alone. *)
Lemma telemetry_step_keeps_flag c clk t :
  not_a_hit c → first_block (telemetry_step c (clk, t)).2 = first_block t.
Proof.
  destruct c as [|n id|n id|n id]; simpl; try done; intros _;
    unfold record_miss, record_eviction, track_request, elapsed, time_time;
    repeat match goal with
           | |- context [decide ?P] => destruct (decide P)
           | |- context [0 <? ?n] => destruct (0 <? n) eqn:?
           | |- context [match ?id with Some _ => _ | None => _ end] =>
               destruct id
           end; done.
Qed.

Lemma telemetry_step_keeps_hits c clk t :
  not_a_hit c →
  total_hits (telemetry_step c (clk, t)).2 = total_hits t ∧
  requests_with_hits (telemetry_step c (clk, t)).2 = requests_with_hits t.
Proof.
  destruct c as [|n id|n id|n id]; simpl; try done; intros _;
    unfold record_miss, record_eviction, track_request, elapsed, time_time;
    repeat match goal with
           | |- context [decide ?P] => destruct (decide P)
           | |- context [0 <? ?n] => destruct (0 <? n) eqn:?
           | |- context [match ?id with Some _ => _ | None => _ end] =>
               destruct id
           end; done.
Qed.

(** X10.  The call [record_hit] drops is the first [record_hit], not the first
    call: after any run of [record_miss] and [record_eviction] calls that
    follows a reset, a [record_hit] still only lowers the flag, so the hit
    counter and the set of requests with hits stay empty and
    [total_blocks] counts the misses alone. *)
Theorem first_hit_dropped_after_misses calls w0 n id :
  Forall not_a_hit calls →
  let w := telemetry_run calls (reset w0) in
  first_block w.2 = true ∧
  total_hits (record_hit n id w).2 = 0 ∧
  requests_with_hits (record_hit n id w).2 = ∅ ∧
  total_blocks (record_hit n id w).2 = total_misses w.2 ∧
  first_block (record_hit n id w).2 = false.
Proof.
  intros Hcalls w.
  assert (first_block w.2 = true ∧ total_hits w.2 = 0 ∧
          requests_with_hits w.2 = ∅) as (Hflag & Hhits & Hset).
  { subst w. unfold telemetry_run.
    assert (first_block (reset w0).2 = true ∧ total_hits (reset w0).2 = 0 ∧
            requests_with_hits (reset w0).2 = ∅) as Hinit by (by destruct w0).
    revert Hinit. generalize (reset w0).
    induction Hcalls as [|c calls Hc Hcalls IH]; intros [clk t] Ht; [done|].
    simpl. destruct (telemetry_step c (clk, t)) as [clk' t'] eqn:E.
    apply IH.
    pose proof (telemetry_step_keeps_flag c clk t Hc) as Hf.
    pose proof (telemetry_step_keeps_hits c clk t Hc) as [Hh Hs].
    rewrite E in *. simpl in *. destruct Ht as (? & ? & ?).
    repeat split; congruence. }
  pose proof (telemetry_run_invariant counters_add_up
                (λ w, ltac:(by destruct w)) telemetry_step_counters calls w0)
    as Hsum.
  fold w in Hsum. unfold counters_add_up in Hsum.
  destruct (record_hit_armed n id w Hflag)
    as (_ & -> & -> & -> & _ & _ & _ & _ & -> & _).
  repeat split; try done. lia.
Qed.



(** ** The statistics through runs of manager calls *)

Lemma get_computed_blocks_stats cfg r m :
  hit_within_chain (specialized_manager cfg) →
  let st := prefix_cache_stats m in
  let st' := prefix_cache_stats (get_computed_blocks cfg r m).2 in
  st' = st ∨ st' = Stats.add_request st ∨
  ∃ q h, 0 ≤ h ≤ q ∧ st' = Stats.add_lookup q h (Stats.add_request st).
Proof.
  intros Hpol. cbv zeta.
  destruct (enable_caching cfg) eqn:Hc; cycle 1.
  { left. unfold get_computed_blocks. by rewrite Hc. }
  destruct (prompt_logprobs (sampling_params r)) as [k|] eqn:Hl.
  { right. left. by rewrite (get_computed_blocks_skipped _ _ _ k). }
  destruct (decide (request_chain cfg r m = [] ∧ num_tokens r = 0))
    as [[Hchain Hn]|Hsafe].
  { right. left. by rewrite get_computed_blocks_pop_empty. }
  right. right.
  rewrite get_computed_blocks_outcome by tauto.
  set (probe := probed_chain cfg r m).
  set (blocks := find_longest_cache_hit _ _ _).
  exists (len probe), (len blocks). split.
  - pose proof (Hpol (block_pool m) probe) as Hle. fold blocks in Hle.
    unfold len. lia.
  - by destruct (log_stats cfg), (cache_telemetry m).
Qed.

Lemma stats_consistent_add_request st :
  stats_consistent st → stats_consistent (Stats.add_request st).
Proof. unfold stats_consistent. simpl. lia. Qed.

Lemma stats_consistent_add_lookup q h st :
  0 ≤ h ≤ q → stats_consistent (Stats.add_request st) →
  Stats.request_hits st < Stats.requests (Stats.add_request st) →
  stats_consistent (Stats.add_lookup q h (Stats.add_request st)).
Proof.
  unfold stats_consistent, Stats.add_lookup. simpl.
  intros Hh Hst Hr. destruct (0 <? h); simpl; lia.
Qed.

Lemma free_stats cfg r m :
  prefix_cache_stats (free cfg r m).2 = prefix_cache_stats m.
Proof.
  rewrite free_eval. cbv zeta.
  by destruct (free_blocks _ _) as [[[]|e] p].
Qed.

Lemma manager_step_stats_consistent cfg c m :
  hit_within_chain (specialized_manager cfg) →
  stats_consistent (prefix_cache_stats m) →
  stats_consistent (prefix_cache_stats (manager_step cfg c m)).
Proof.
  intros Hpol Hst. destruct c as [r|r n ncb|r|r| |r n|]; simpl.
  - destruct (get_computed_blocks_stats cfg r m Hpol)
      as [->|[->|(q & h & Hh & ->)]]; [done| |].
    + by apply stats_consistent_add_request.
    + apply stats_consistent_add_lookup;
        [done|by apply stats_consistent_add_request|].
      unfold stats_consistent in Hst. simpl. lia.
  - pose proof (allocate_slots_observability cfg r n ncb m) as Hobs.
    unfold observability in Hobs. injection Hobs as -> _ _. done.
  - by rewrite free_stats.
  - done.
  - unfold stats_consistent. simpl. lia.
  - unfold get_num_common_prefix_blocks.
    destruct (status r); try done.
    erewrite bind_eval by apply req_blocks_of_eq. done.
  - unfold reset_prefix_cache, on_pool, BlockPool_reset_prefix_cache,
      mbind, M_bind. simpl.
    case_decide; simpl; done.
Qed.

(** X12.  Along any run of calls of the manager's methods, in any order, with
    any arguments and whether they return or raise, the statistics stay
    consistent: no counter is negative, the hits are at most the queries,
    and the requests with a hit are at most the requests.  The policy is
    only asked to return no more blocks than the chain it is given has
    hashes. *)
Theorem manager_run_stats_consistent cfg calls m :
  hit_within_chain (specialized_manager cfg) →
  stats_consistent (prefix_cache_stats m) →
  stats_consistent (prefix_cache_stats (manager_run cfg calls m)).
Proof.
  intros Hpol. unfold manager_run. revert m.
  induction calls as [|c calls IH]; intros m Hst; simpl; [done|].
  by apply IH, manager_step_stats_consistent.
Qed.

(** ** Draining the statistics *)


(** ** [reset_prefix_cache] *)

(** X14.  [reset_prefix_cache] returns what the pool answers.  While any block
    is referenced it returns false and changes nothing.  When none is, it
    returns true, the reset flag of the statistics is set, the index is
    empty so every lookup finds nothing, the free blocks are as many as
    before, and the block lists, chains and publication counts of the
    requests are kept. *)
Theorem reset_prefix_cache_outcome m :
  ((∃ b, block_ref_cnt (block_pool m) b ≠ 0%nat) →
   reset_prefix_cache m = (Returned false, m)) ∧
  ((∀ b, block_ref_cnt (block_pool m) b = 0%nat) →
   ∃ m',
     reset_prefix_cache m = (Returned true, m') ∧
     Stats.reset (prefix_cache_stats m') = true ∧
     cached_block_hash_to_block (block_pool m') = ∅ ∧
     (∀ b, ¬ is_cached (block_pool m') b) ∧
     (∀ chain, find_longest_cache_hit FullAttentionManager (block_pool m') chain
               = []) ∧
     get_num_free_blocks (block_pool m') = get_num_free_blocks (block_pool m) ∧
     req_to_blocks m' = req_to_blocks m ∧
     req_to_block_hashes m' = req_to_block_hashes m ∧
     num_cached_block m' = num_cached_block m).
Proof.
  unfold reset_prefix_cache, on_pool, BlockPool_reset_prefix_cache,
    mbind, M_bind.
  split.
  - intros [b Hb]. rewrite decide_False; cycle 1.
    { intros Hall. apply Hb. unfold block_ref_cnt.
      destruct (blocks (block_pool m) !! b) as [k|] eqn:Ek; [|done].
      by apply (Forall_lookup_1 _ _ _ _ Hall Ek). }
    simpl. unfold mret, M_ret. f_equal. by destruct m.
  - intros Hall. rewrite decide_True; cycle 1.
    { apply Forall_lookup. intros b k Ek.
      specialize (Hall b). unfold block_ref_cnt in Hall. by rewrite Ek in Hall. }
    eexists. split; [reflexivity|]. simpl. repeat split; try done.
    + intros b. unfold is_cached, block_content_hash. simpl.
      rewrite list_lookup_fmap. destruct (_ !! b); simpl; by intros [].
    + intros [|h chain]; [done|]. simpl. by rewrite lookup_empty.
    + unfold get_num_free_blocks, len. simpl. f_equal.
      induction (blocks (block_pool m)) as [|k l IH]; [done|].
      rewrite fmap_cons, !filter_cons. simpl.
      case_decide; simpl; by rewrite IH.
Qed.

(** ** More on [allocate_slots] *)

Lemma allocate_slots_raises_assertion cfg r n ncb :
  n ≠ 0 →
  raises_only (allocate_slots cfg r n ncb) (λ e, e = AssertionError).
Proof.
  intros Hn. unfold allocate_slots. rewrite decide_False by done.
  apply ro_bind; [by intros m e m'; rewrite req_blocks_of_eq|intros l0].
  destruct (remove_skipped_blocks _ _ _) as [kept removed].
  apply ro_bind; [apply ro_modify|intros _].
  apply ro_bind; [apply ro_on_pool, ro_free_blocks; auto|intros _].
  apply ro_bind; [apply ro_gets|intros pool].
  case_decide; [apply ro_ret|].
  apply ro_bind.
  { destruct (enable_caching cfg);
      [apply ro_on_pool, ro_modify|apply ro_assert; auto]. }
  intros _. apply ro_bind; [apply ro_modify|intros _].
  apply ro_bind.
  { case_decide; [apply ro_ret|].
    intros m e m'. unfold mbind at 1, M_bind at 1, gets at 1.
    unfold mbind at 1, M_bind at 1, assert.
    case_bool_decide; [|by intros [= <- _]].
    unfold mbind at 1, M_bind at 1, gets at 1, mret at 1, M_ret at 1.
    rewrite decide_False by lia.
    unfold mbind at 1, M_bind at 1, mret at 1, M_ret at 1.
    apply (ro_bind (λ e, e = AssertionError) (on_pool (get_new_blocks _)));
      [apply ro_on_pool, ro_get_new_blocks; auto|intros new].
    apply ro_bind; [apply ro_modify|intros _]. apply ro_ret. }
  intros [rb nb].
  destruct (enable_caching cfg); simpl; [|apply ro_ret].
  apply ro_bind; [apply ro_gets|intros nc].
  apply ro_bind; [by intros m e m'; rewrite req_block_hashes_of_eq|intros bh].
  apply ro_bind; [apply ro_on_pool, ro_modify|intros _].
  apply ro_bind; [apply ro_modify|intros _]. apply ro_ret.
Qed.

Lemma allocate_slots_computed_without_caching cfg r n ncb m kept :
  n ≠ 0 →
  enable_caching cfg = false →
  default [] ncb ≠ [] →
  remove_skipped_blocks (specialized_manager cfg)
    (held_blocks m (request_id r)) (num_computed_tokens r) = (kept, []) →
  required_new_blocks cfg r n (default [] ncb) kept
  ≤ get_num_free_blocks (block_pool m)
    - num_evictable (block_pool m) (default [] ncb) →
  allocate_slots cfg r n ncb m
  = (Raised AssertionError,
     set_block_pool (block_pool m)
       (set_req_to_blocks (<[request_id r := kept]> (req_to_blocks m)) m)).
Proof.
  intros Hn Hc Hncb Hrs Hcap. unfold allocate_slots.
  rewrite decide_False by done.
  erewrite bind_eval by apply req_blocks_of_eq.
  unfold held_blocks in Hrs. rewrite Hrs.
  erewrite bind_eval by reflexivity.
  erewrite bind_eval by reflexivity.
  erewrite bind_eval by reflexivity. simpl.
  fold (required_new_blocks cfg r n (default [] ncb) kept).
  fold (num_evictable (block_pool m) (default [] ncb)).
  rewrite decide_False by lia.
  rewrite Hc, bool_decide_eq_false_2 by done.
  unfold mbind, M_bind, assert, raise. by rewrite insert_insert_eq.
Qed.

(** X15.  The exceptions of [allocate_slots].  A token count of zero
    raises [ValueError] and leaves the manager as it was, and
    [ValueError] is raised at no other count; whatever a call raises is
    [ValueError] or [AssertionError]; and [AssertionError] is raised when
    computed blocks are handed in with caching disabled, for a count that
    is not zero, a policy that releases nothing and enough free
    blocks. *)
Theorem allocate_slots_exceptions cfg r n ncb m :
  (n = 0 → allocate_slots cfg r n ncb m = (Raised ValueError, m)) ∧
  ((allocate_slots cfg r n ncb m).1 = Raised ValueError ↔ n = 0) ∧
  (∀ e, (allocate_slots cfg r n ncb m).1 = Raised e →
        e = ValueError ∨ e = AssertionError) ∧
  (n ≠ 0 → enable_caching cfg = false → default [] ncb ≠ [] →
   (remove_skipped_blocks (specialized_manager cfg)
      (held_blocks m (request_id r)) (num_computed_tokens r)).2 = [] →
   required_new_blocks cfg r n (default [] ncb)
     (remove_skipped_blocks (specialized_manager cfg)
        (held_blocks m (request_id r)) (num_computed_tokens r)).1
   ≤ get_num_free_blocks (block_pool m)
     - num_evictable (block_pool m) (default [] ncb) →
   (allocate_slots cfg r n ncb m).1 = Raised AssertionError).
Proof.
  split; [by intros ->|]. split; [apply allocate_slots_ValueError_iff|].
  split.
  - intros e He. destruct (decide (n = 0)) as [->|Hn].
    + left. rewrite allocate_slots_zero_raises in He. simpl in He.
      by injection He as <-.
    + right. destruct (allocate_slots cfg r n ncb m) as [res m'] eqn:E.
      simpl in He. subst res.
      by apply (allocate_slots_raises_assertion cfg r n ncb Hn m e m').
  - intros Hn Hc Hncb Hrem Hcap.
    destruct (remove_skipped_blocks _ _ _) as [kept removed] eqn:Hrs.
    simpl in *. subst removed.
    by rewrite (allocate_slots_computed_without_caching cfg r n ncb m kept).
Qed.

Lemma pr_on_pool_frame {A X} (f : KVCacheManager → X) (op : M BlockPool A) :
  (∀ p m, f (set_block_pool p m) = f m) → preserves (on_pool op) f.
Proof.
  intros Hf m. unfold on_pool. destruct (op (block_pool m)). apply Hf.
Qed.

(** X16.  A call of [allocate_slots] for one request, whether it returns or
    raises, leaves the block list, the chain and the publication count of
    every other request as they are. *)
Theorem allocate_slots_other_requests cfg r n ncb id :
  id ≠ request_id r →
  preserves (allocate_slots cfg r n ncb) (request_entries id).
Proof.
  intros Hid.
  assert (∀ l, preserves (store_req_blocks (request_id r) l)
                 (request_entries id)) as Hstore.
  { intros l. apply pr_modify. intros m. unfold request_entries. simpl.
    by rewrite lookup_insert_ne. }
  unfold allocate_slots. case_decide; [apply pr_raise|].
  apply pr_bind.
  { intros m. rewrite req_blocks_of_eq. unfold request_entries. simpl.
    by rewrite lookup_insert_ne. }
  intros l0. destruct (remove_skipped_blocks _ _ _) as [kept removed].
  apply pr_bind; [apply Hstore|intros _].
  apply pr_bind; [by apply pr_on_pool_frame|intros _].
  apply pr_bind; [apply pr_gets|intros pool].
  case_decide; [apply pr_ret|].
  apply pr_bind.
  { destruct (enable_caching cfg); [by apply pr_on_pool_frame|apply pr_assert]. }
  intros _. apply pr_bind; [apply Hstore|intros _].
  apply pr_bind.
  { case_decide; [apply pr_ret|].
    apply pr_bind; [apply pr_gets|intros nfree].
    apply pr_bind; [apply pr_assert|intros _].
    apply pr_bind; [apply pr_gets|intros readily].
    apply pr_bind.
    { case_decide; [|apply pr_ret].
      apply pr_bind; [by apply pr_modify|intros _].
      destruct (log_stats cfg); [by apply pr_on_telemetry|apply pr_ret]. }
    intros _.
    apply pr_bind; [by apply pr_on_pool_frame|intros new].
    apply pr_bind; [apply Hstore|intros _]. apply pr_ret. }
  intros [rb nb].
  destruct (enable_caching cfg); simpl; [|apply pr_ret].
  apply pr_bind; [apply pr_gets|intros nc].
  apply pr_bind.
  { intros m. rewrite req_block_hashes_of_eq. unfold request_entries. simpl.
    by rewrite lookup_insert_ne. }
  intros bh. apply pr_bind; [by apply pr_on_pool_frame|intros _].
  apply pr_bind; [|intros _; apply pr_ret].
  apply pr_modify. intros m. unfold request_entries. simpl.
  by rewrite lookup_insert_ne.
Qed.

(** X17.  A call of [allocate_slots] that returns a block list has stored, for
    the request, the blocks the policy kept, then the computed blocks
    handed in, then the new blocks it returns; it returns no new block
    exactly when none was required.  Under full attention nothing is
    removed, so the list only grows at its end. *)
Theorem allocate_slots_appends cfg r n ncb m new m' :
  allocate_slots cfg r n ncb m = (Returned (Some new), m') →
  ∃ kept removed,
    remove_skipped_blocks (specialized_manager cfg)
      (held_blocks m (request_id r)) (num_computed_tokens r)
    = (kept, removed) ∧
    held_blocks m' (request_id r) = kept ++ default [] ncb ++ new ∧
    (new = [] ↔ required_new_blocks cfg r n (default [] ncb) kept ≤ 0) ∧
    (specialized_manager cfg = FullAttentionManager →
     held_blocks m' (request_id r)
     = held_blocks m (request_id r) ++ default [] ncb ++ new).
Proof.
  intros E.
  apply allocate_slots_Some_inv in E as (kept & removed & p1 & p2 & p3 & Hs).
  pose proof (as_skipped _ _ _ _ _ _ _ _ _ _ _ _ Hs) as Hskip.
  pose proof (as_blocks _ _ _ _ _ _ _ _ _ _ _ _ Hs) as Hblocks.
  pose proof (as_pulled _ _ _ _ _ _ _ _ _ _ _ _ Hs) as Hpull.
  assert (held_blocks m' (request_id r) = kept ++ default [] ncb ++ new)
    as Hheld.
  { unfold held_blocks. by rewrite Hblocks, lookup_insert_eq. }
  exists kept, removed. split; [done|]. split; [done|]. split.
  - case_decide as Hneed.
    + by destruct Hpull as [-> _].
    + cbv zeta in Hpull. destruct Hpull as [Hk Hget].
      apply get_new_blocks_length in Hget. split; [|done].
      intros ->. simpl in Hget. lia.
  - intros Hfull. rewrite Hheld. rewrite Hfull in Hskip. simpl in Hskip.
    by simplify_eq.
Qed.

(** ** Histogram buckets *)

Lemma buckets_pass_spec lst e max_value : ∀ acc,
  ∃ k : nat,
    buckets_pass lst e max_value acc
    = (acc ++ bucket_values e (take k lst), bool_decide (k < length lst)%nat) ∧
    Forall (λ v, v ≤ max_value) (bucket_values e (take k lst)) ∧
    (∀ m, lst !! k = Some m → max_value < m * 10 ^ e).
Proof.
  induction lst as [|m rest IH]; intros acc.
  - exists 0%nat. simpl. rewrite app_nil_r. split; [done|]. split; [done|].
    by intros m.
  - simpl. case_decide as Hv.
    + destruct (IH (acc ++ [m * 10 ^ e])) as (k & E & Hall & Hk).
      exists (S k). rewrite E. split; [|split].
      * unfold bucket_values. simpl. rewrite <- (assoc_L (++)). simpl.
        f_equal. apply bool_decide_ext. lia.
      * unfold bucket_values. simpl. by constructor.
      * intros m'. simpl. apply Hk.
    + exists 0%nat. simpl. rewrite app_nil_r. split.
      { f_equal; try (symmetry; apply bool_decide_eq_true; lia). }
      split; [done|]. intros m' [= <-]. lia.
Qed.

Lemma build_buckets_loop_spec lst max_value fuel : ∀ e acc bs,
  build_buckets_loop fuel lst max_value e acc = Some bs →
  ∃ (n k : nat) m,
    (n < fuel)%nat ∧
    lst !! k = Some m ∧
    max_value < m * 10 ^ (e + Z.of_nat n) ∧
    bs = acc ++ bucket_passes lst e n ++ bucket_values (e + Z.of_nat n) (take k lst) ∧
    Forall (λ v, v ≤ max_value)
      (bucket_passes lst e n ++ bucket_values (e + Z.of_nat n) (take k lst)).
Proof.
  induction fuel as [|fuel IH]; intros e acc bs E; [done|].
  simpl in E.
  destruct (buckets_pass_spec lst e max_value acc) as (k & Ep & Hall & Hk).
  rewrite Ep in E. case_bool_decide as Hlt.
  - injection E as <-.
    destruct (lookup_lt_is_Some_2 lst k Hlt) as [m Hm].
    exists 0%nat, k, m. rewrite Z.add_0_r. simpl.
    split; [lia|]. split; [done|]. split; [by apply Hk|]. done.
  - apply IH in E as (n & k' & m & Hn & Hm & Hmax & -> & Hall').
    rewrite take_ge in * by lia.
    exists (S n), k', m.
    replace (e + Z.of_nat (S n)) with (e + 1 + Z.of_nat n) by lia.
    split; [lia|]. split; [done|]. split; [done|]. simpl. split.
    + by rewrite <- !(assoc_L (++)).
    + rewrite <- (assoc_L (++)). by apply Forall_app.
Qed.

Lemma build_buckets_loop_fuel lst max_value fuel : ∀ fuel' e acc bs,
  build_buckets_loop fuel lst max_value e acc = Some bs →
  (fuel ≤ fuel')%nat →
  build_buckets_loop fuel' lst max_value e acc = Some bs.
Proof.
  induction fuel as [|fuel IH]; intros fuel' e acc bs E Hle; [done|].
  destruct fuel' as [|fuel']; [lia|]. simpl in *.
  destruct (buckets_pass _ _ _ _) as [acc' []]; [done|].
  apply IH; [done|lia].
Qed.

Lemma build_buckets_loop_returns lst max_value fuel : ∀ e0 acc,
  (∃ m e, m ∈ lst ∧ e0 ≤ e < e0 + Z.of_nat fuel ∧ max_value < m * 10 ^ e) →
  ∃ bs, build_buckets_loop fuel lst max_value e0 acc = Some bs.
Proof.
  induction fuel as [|fuel IH]; intros e0 acc (m & e & Hm & He & Hv); [lia|].
  simpl.
  destruct (buckets_pass_spec lst e0 max_value acc) as (k & -> & Hall & Hk).
  case_bool_decide as Hlt; [by eexists|].
  rewrite take_ge in Hall by lia.
  apply IH. exists m, e. split; [done|]. split; [|done].
  assert (e ≠ e0); [|lia]. intros ->.
  rewrite Forall_forall in Hall.
  assert (m * 10 ^ e0 ≤ max_value); [|lia].
  apply Hall. unfold bucket_values. apply list_elem_of_fmap. by exists m.
Qed.

Lemma elem_of_bucket_values v e lst :
  v ∈ bucket_values e lst ↔ ∃ m, m ∈ lst ∧ v = m * 10 ^ e.
Proof.
  unfold bucket_values. rewrite list_elem_of_fmap.
  split; intros (m & ? & ?); by exists m.
Qed.

Lemma elem_of_bucket_passes v lst n : ∀ e,
  v ∈ bucket_passes lst e n ↔
  ∃ m (i : nat), m ∈ lst ∧ (i < n)%nat ∧ v = m * 10 ^ (e + Z.of_nat i).
Proof.
  induction n as [|n IH]; intros e; simpl.
  - split; [by intros ?%elem_of_nil|]. intros (m & i & _ & Hi & _). lia.
  - rewrite elem_of_app, elem_of_bucket_values, IH. split.
    + intros [(m & Hm & ->)|(m & i & Hm & Hi & ->)].
      * exists m, 0%nat. rewrite Z.add_0_r. split; [done|]. split; [lia|done].
      * exists m, (S i). split; [done|]. split; [lia|].
        do 2 f_equal. lia.
    + intros (m & [|i] & Hm & Hi & ->).
      * left. exists m. by rewrite Z.add_0_r.
      * right. exists m, i. split; [done|]. split; [lia|].
        do 2 f_equal. lia.
Qed.

(** ** What [build_buckets] returns *)

(** X18.  A call of [build_buckets] that returns stopped at the first value
    [m * 10 ** exponent] above [max_value], at some mantissa [m] of the
    list: the buckets are the values of all earlier exponents, mantissa by
    mantissa, then those of the mantissas before [m] at the last exponent.
    None is above [max_value], and the result does not depend on the
    bound on the iterations. *)
Theorem build_buckets_stops_at_first_excess fuel lst max_value bs :
  build_buckets fuel lst max_value = Some bs →
  ∃ (n k : nat) m,
    (n < fuel)%nat ∧
    lst !! k = Some m ∧
    max_value < m * 10 ^ Z.of_nat n ∧
    bs = bucket_passes lst 0 n ++ bucket_values (Z.of_nat n) (take k lst) ∧
    Forall (λ v, v ≤ max_value) bs ∧
    ∀ fuel', (fuel ≤ fuel')%nat → build_buckets fuel' lst max_value = Some bs.
Proof.
  unfold build_buckets. intros E.
  destruct (build_buckets_loop_spec _ _ _ _ _ _ E)
    as (n & k & m & Hn & Hm & Hmax & Hbs & Hall).
  simpl in Hbs, Hmax, Hall. subst bs.
  exists n, k, m. repeat (split; [done|]).
  intros fuel' Hle. by apply (build_buckets_loop_fuel _ _ fuel).
Qed.

(** X19.  [build_buckets] returns exactly when some mantissa reaches a value
    [m * 10 ** e] above [max_value]; otherwise the [while True] loop has
    no exit.  With an empty mantissa list it never returns. *)
Theorem build_buckets_returns_iff lst max_value :
  ((∃ fuel bs, build_buckets fuel lst max_value = Some bs) ↔
   (∃ m e, m ∈ lst ∧ 0 ≤ e ∧ max_value < m * 10 ^ e)) ∧
  (∀ fuel, build_buckets fuel [] max_value = None).
Proof.
  split; [split|].
  - intros (fuel & bs & E).
    destruct (build_buckets_loop_spec _ _ _ _ _ _ E)
      as (n & k & m & _ & Hm & Hmax & _).
    exists m, (Z.of_nat n). split; [by eapply list_elem_of_lookup_2|].
    split; [lia|]. by rewrite Z.add_0_l in Hmax.
  - intros (m & e & Hm & He & Hv).
    destruct (build_buckets_loop_returns lst max_value (S (Z.to_nat e)) 0 [])
      as [bs E]; [|by exists (S (Z.to_nat e)), bs].
    exists m, e. split; [done|]. split; [lia|done].
  - intros fuel. unfold build_buckets. generalize 0.
    induction fuel as [|fuel IH]; intros e; [done|]. simpl. apply IH.
Qed.

(** ** Increasing mantissas *)

Lemma bucket_value_lt a b e e' :
  0 < b → a < 10 * b → 0 ≤ e < e' → a * 10 ^ e < b * 10 ^ e'.
Proof.
  intros Hb Hab He.
  replace e' with (e + 1 + (e' - e - 1)) by lia.
  rewrite !Z.pow_add_r by lia. rewrite Z.pow_1_r.
  assert (0 < 10 ^ e) by (apply Z.pow_pos_nonneg; lia).
  assert (0 < 10 ^ (e' - e - 1)) by (apply Z.pow_pos_nonneg; lia).
  assert (a * 10 ^ e < 10 * b * 10 ^ e) by nia.
  assert (10 * b * 10 ^ e * 1 ≤ 10 * b * 10 ^ e * 10 ^ (e' - e - 1)).
  { apply Z.mul_le_mono_nonneg_l; nia. }
  lia.
Qed.

Lemma increasing_mantissas_pos lst a :
  increasing_mantissas lst → a ∈ lst → 0 < a.
Proof. intros (_ & Hpos & _). rewrite Forall_forall in Hpos. apply Hpos. Qed.

Lemma increasing_mantissas_decade lst a b :
  increasing_mantissas lst → a ∈ lst → b ∈ lst → b < 10 * a.
Proof.
  intros (_ & _ & Hdec) Ha Hb. rewrite Forall_forall in Hdec.
  specialize (Hdec a Ha). rewrite Forall_forall in Hdec. by apply Hdec.
Qed.

Lemma bucket_values_sorted e lst :
  0 ≤ e → StronglySorted Z.lt lst →
  StronglySorted Z.lt (bucket_values e lst).
Proof.
  intros He. unfold bucket_values. apply StronglySorted_fmap.
  intros x y Hxy.
  assert (0 < 10 ^ e) by (apply Z.pow_pos_nonneg; lia). nia.
Qed.

Lemma bucket_passes_sorted lst n :
  increasing_mantissas lst →
  ∀ e, 0 ≤ e → StronglySorted Z.lt (bucket_passes lst e n).
Proof.
  intros Hinc. induction n as [|n IH]; intros e He; simpl; [constructor|].
  apply StronglySorted_app_2.
  - intros x y (a & Ha & ->)%elem_of_bucket_values
      (b & i & Hb & Hi & ->)%elem_of_bucket_passes.
    apply bucket_value_lt; [by eapply increasing_mantissas_pos| |lia].
    by eapply increasing_mantissas_decade.
  - apply bucket_values_sorted; [done|]. by destruct Hinc.
  - apply IH. lia.
Qed.

Lemma build_buckets_result_sorted lst (n k : nat) :
  increasing_mantissas lst →
  StronglySorted Z.lt
    (bucket_passes lst 0 n ++ bucket_values (Z.of_nat n) (take k lst)).
Proof.
  intros Hinc. apply StronglySorted_app_2.
  - intros x y (a & i & Ha & Hi & ->)%elem_of_bucket_passes
      (b & Hb & ->)%elem_of_bucket_values.
    apply elem_of_take in Hb as (j & Hb%list_elem_of_lookup_2 & _).
    apply bucket_value_lt; [by eapply increasing_mantissas_pos| |lia].
    by eapply increasing_mantissas_decade.
  - by apply bucket_passes_sorted.
  - apply bucket_values_sorted; [lia|].
    destruct Hinc as [Hs _]. rewrite <- (take_drop k lst) in Hs.
    by apply StronglySorted_app_1_l in Hs.
Qed.

Lemma build_buckets_result_complete lst max_value (n k : nat) mk v :
  increasing_mantissas lst →
  lst !! k = Some mk →
  max_value < mk * 10 ^ Z.of_nat n →
  v ≤ max_value → bucket_value_of lst v →
  v ∈ bucket_passes lst 0 n ++ bucket_values (Z.of_nat n) (take k lst).
Proof.
  intros Hinc Hk Hmax Hv (m & e & Hm & He & ->).
  assert (mk ∈ lst) as Hmk by (by eapply list_elem_of_lookup_2).
  rewrite elem_of_app.
  destruct (Z.lt_trichotomy e (Z.of_nat n)) as [Hlt|[->|Hgt]].
  - left. apply elem_of_bucket_passes. exists m, (Z.to_nat e).
    split; [done|]. split; [lia|]. do 2 f_equal. lia.
  - right. apply elem_of_bucket_values. exists m. split; [|done].
    rewrite <- (take_drop k lst) in Hm. apply elem_of_app in Hm as [|Hm];
      [done|exfalso].
    rewrite (drop_S _ _ _ Hk) in Hm.
    destruct Hinc as [Hs _]. rewrite <- (take_drop k lst) in Hs.
    apply StronglySorted_app_1_r in Hs. rewrite (drop_S _ _ _ Hk) in Hs.
    apply StronglySorted_cons in Hs as [Hall _].
    rewrite Forall_forall in Hall.
    assert (0 < 10 ^ Z.of_nat n) by (apply Z.pow_pos_nonneg; lia).
    apply elem_of_cons in Hm as [->|Hm]; [lia|].
    specialize (Hall m Hm). nia.
  - exfalso.
    assert (mk * 10 ^ Z.of_nat n < m * 10 ^ e); [|lia].
    apply bucket_value_lt; [by eapply increasing_mantissas_pos| |lia].
    by eapply increasing_mantissas_decade.
Qed.

Lemma build_buckets_result_sound lst max_value (n k : nat) v :
  Forall (λ v, v ≤ max_value)
    (bucket_passes lst 0 n ++ bucket_values (Z.of_nat n) (take k lst)) →
  v ∈ bucket_passes lst 0 n ++ bucket_values (Z.of_nat n) (take k lst) →
  v ≤ max_value ∧ bucket_value_of lst v.
Proof.
  intros Hall Hv. split; [by rewrite Forall_forall in Hall; apply Hall|].
  apply elem_of_app in Hv
    as [(m & i & Hm & _ & ->)%elem_of_bucket_passes
       |(m & Hm & ->)%elem_of_bucket_values].
  - exists m, (0 + Z.of_nat i). split; [done|]. split; [lia|done].
  - exists m, (Z.of_nat n).
    apply elem_of_take in Hm as (j & Hm%list_elem_of_lookup_2 & _).
    split; [done|]. split; [lia|done].
Qed.

Lemma build_buckets_returns_within lst max_value m :
  m ∈ lst → 0 < m →
  ∃ bs, ∀ fuel, (Z.to_nat max_value < fuel)%nat →
    build_buckets fuel lst max_value = Some bs.
Proof.
  intros Hm Hpos.
  destruct (build_buckets_loop_returns lst max_value
              (S (Z.to_nat max_value)) 0 []) as [bs E].
  { exists m, (Z.of_nat (Z.to_nat max_value)). split; [done|]. split; [lia|].
    pose proof (Z.pow_gt_lin_r 10 (Z.of_nat (Z.to_nat max_value))).
    nia. }
  exists bs. intros fuel Hfuel.
  apply (build_buckets_loop_fuel _ _ (S (Z.to_nat max_value))); [done|lia].
Qed.

(** X20.  For mantissas in increasing order, positive and within one decade,
    [build_buckets] returns, within [max_value + 1] iterations, the values
    [m * 10 ** e] that are at most [max_value], all of them, in strictly
    increasing order. *)
Theorem build_buckets_increasing lst max_value :
  lst ≠ [] → increasing_mantissas lst →
  ∃ bs,
    (∀ fuel, (Z.to_nat max_value < fuel)%nat →
       build_buckets fuel lst max_value = Some bs) ∧
    StronglySorted Z.lt bs ∧
    ∀ v, v ∈ bs ↔ v ≤ max_value ∧ bucket_value_of lst v.
Proof.
  intros Hne Hinc. destruct lst as [|m0 lst0] eqn:El; [done|].
  rewrite <- El in *.
  assert (m0 ∈ lst) as Hm0 by (rewrite El; left).
  destruct (build_buckets_returns_within lst max_value m0 Hm0) as [bs Hbs];
    [by eapply increasing_mantissas_pos|].
  exists bs. split; [done|].
  specialize (Hbs _ (Nat.lt_succ_diag_r _)).
  destruct (build_buckets_loop_spec _ _ _ _ _ _ Hbs)
    as (n & k & m & _ & Hm & Hmax & -> & Hall).
  simpl in *. split; [by apply build_buckets_result_sorted|].
  intros v. split.
  - by apply build_buckets_result_sound.
  - intros [Hv Hof]. by eapply build_buckets_result_complete.
Qed.

(** X21.  [build_1_2_5_buckets] returns for every [max_value]: the numbers
    1, 2, 5, 10, 20, 50, ... up to [max_value], each once, in increasing
    order; the list is empty exactly when [max_value] is below 1. *)
Theorem build_1_2_5_buckets_all_values max_value :
  ∃ bs,
    (∀ fuel, (Z.to_nat max_value < fuel)%nat →
       build_1_2_5_buckets fuel max_value = Some bs) ∧
    StronglySorted Z.lt bs ∧
    (∀ v, v ∈ bs ↔ v ≤ max_value ∧ bucket_value_of [1; 2; 5] v) ∧
    (bs = [] ↔ max_value < 1).
Proof.
  assert (increasing_mantissas [1; 2; 5]) as Hinc.
  { refine (bool_decide_unpack _ _). vm_compute. reflexivity. }
  destruct (build_buckets_returns_within [1; 2; 5] max_value 1) as [bs Hbs];
    [left|lia|].
  exists bs. split; [done|].
  specialize (Hbs _ (Nat.lt_succ_diag_r _)).
  destruct (build_buckets_loop_spec _ _ _ _ _ _ Hbs)
    as (n & k & m & _ & Hm & Hmax & Ebs & Hall).
  rewrite app_nil_l, Z.add_0_l in *.
  assert (∀ v, v ∈ bs ↔ v ≤ max_value ∧ bucket_value_of [1; 2; 5] v) as Hiff.
  { intros v. rewrite Ebs. split.
    - by apply build_buckets_result_sound.
    - intros [Hv Hof]. by eapply build_buckets_result_complete. }
  split; [rewrite Ebs; by apply build_buckets_result_sorted|].
  split; [done|]. split.
  - intros ->. destruct (decide (max_value < 1)) as [|Hge]; [done|exfalso].
    apply (elem_of_nil 1), Hiff. split; [lia|].
    exists 1, 0. split; [left|]. split; [lia|done].
  - intros Hlt. destruct bs as [|v bs']; [done|exfalso].
    destruct (proj1 (Hiff v)) as [Hv (m' & e & Hm' & He & ->)]; [left|].
    assert (0 < 10 ^ e) by (apply Z.pow_pos_nonneg; lia).
    assert (1 ≤ m'); [|nia].
    repeat (apply elem_of_cons in Hm' as [->|Hm']; [lia|]).
    by apply elem_of_nil in Hm'.
Qed.

(** The example of the docstring: [build_1_2_5_buckets(100)], here through
    [build_buckets], stops at 200 in the third pass. *)
Lemma build_buckets_stops_at_first_excess_witness :
  ∃ (n k : nat) m,
    (n < 5)%nat ∧
    [1; 2; 5] !! k = Some m ∧
    100 < m * 10 ^ Z.of_nat n ∧
    [1; 2; 5; 10; 20; 50; 100]
    = bucket_passes [1; 2; 5] 0 n ++ bucket_values (Z.of_nat n) (take k [1; 2; 5]) ∧
    Forall (λ v, v ≤ 100) [1; 2; 5; 10; 20; 50; 100] ∧
    ∀ fuel', (5 ≤ fuel')%nat →
      build_buckets fuel' [1; 2; 5] 100 = Some [1; 2; 5; 10; 20; 50; 100].
Proof.
  apply (build_buckets_stops_at_first_excess 5 [1; 2; 5] 100).
  vm_compute. reflexivity.
Defined.

(** Mantissas 1 and 3 up to 40. *)
Lemma build_buckets_increasing_witness :
  ∃ bs,
    (∀ fuel, (Z.to_nat 40 < fuel)%nat →
       build_buckets fuel [1; 3] 40 = Some bs) ∧
    StronglySorted Z.lt bs ∧
    ∀ v, v ∈ bs ↔ v ≤ 40 ∧ bucket_value_of [1; 3] v.
Proof.
  apply (build_buckets_increasing [1; 3] 40); [done|].
  refine (bool_decide_unpack _ _). vm_compute. reflexivity.
Defined.

(** ** More on [free] *)

Lemma free_block_keeps_cache b p :
  let p' := (free_block b p).2 in
  cached_block_hash_to_block p' = cached_block_hash_to_block p ∧
  ∀ x, block_content_hash p' x = block_content_hash p x.
Proof.
  unfold free_block. destruct (blocks p !! b) as [k|] eqn:Ek; [|done].
  destruct (ref_cnt k) as [|n]; [done|]. simpl. split; [done|].
  intros x. unfold block_content_hash. simpl.
  destruct (decide (x = b)) as [->|Hx].
  - rewrite list_lookup_insert_eq by (by eapply lookup_lt_Some).
    by rewrite Ek.
  - by rewrite list_lookup_insert_ne.
Qed.

Lemma free_blocks_keeps_cache l : ∀ p,
  let p' := (free_blocks l p).2 in
  cached_block_hash_to_block p' = cached_block_hash_to_block p ∧
  ∀ x, block_content_hash p' x = block_content_hash p x.
Proof.
  induction l as [|b l IH]; intros p; [done|].
  change (free_blocks (b :: l) p) with ((free_block b;; free_blocks l) p).
  pose proof (free_block_keeps_cache b p) as [Hi Hc].
  unfold mbind, M_bind. destruct (free_block b p) as [[[]|e] p1]; [|done].
  simpl in Hi, Hc. destruct (IH p1) as [Hi' Hc'].
  cbv zeta. split; [by rewrite Hi', Hi|]. intros x. by rewrite Hc', Hc.
Qed.

Lemma full_attention_hit_index p1 p2 chain :
  cached_block_hash_to_block p1 = cached_block_hash_to_block p2 →
  full_attention_hit p1 chain = full_attention_hit p2 chain.
Proof.
  intros Hi. induction chain as [|h chain IH]; [done|].
  simpl. rewrite Hi. destruct (_ !! _); [by rewrite IH|done].
Qed.

Lemma request_chain_ext cfg r m1 m2 :
  req_to_block_hashes m1 !! request_id r = req_to_block_hashes m2 !! request_id r →
  request_chain cfg r m1 = request_chain cfg r m2.
Proof. unfold request_chain. by intros ->. Qed.

Lemma probed_chain_ext cfg r m1 m2 :
  req_to_block_hashes m1 !! request_id r = req_to_block_hashes m2 !! request_id r →
  probed_chain cfg r m1 = probed_chain cfg r m2.
Proof.
  intros H. unfold probed_chain. by rewrite (request_chain_ext cfg r m1 m2).
Qed.

Lemma get_computed_blocks_result_ext cfg r m1 m2 :
  req_to_block_hashes m1 !! request_id r
  = req_to_block_hashes m2 !! request_id r →
  (∀ chain,
     find_longest_cache_hit (specialized_manager cfg) (block_pool m1) chain
     = find_longest_cache_hit (specialized_manager cfg) (block_pool m2) chain) →
  (is_Some (cache_telemetry m1) ↔ is_Some (cache_telemetry m2)) →
  (get_computed_blocks cfg r m1).1 = (get_computed_blocks cfg r m2).1.
Proof.
  intros Hh Hp Ht.
  pose proof (request_chain_ext cfg r m1 m2 Hh) as Hchain.
  pose proof (probed_chain_ext cfg r m1 m2 Hh) as Hprobe.
  destruct (enable_caching cfg) eqn:Hc; cycle 1.
  { unfold get_computed_blocks. by rewrite Hc. }
  destruct (prompt_logprobs (sampling_params r)) as [k|] eqn:Hl.
  { by rewrite !(get_computed_blocks_skipped _ _ _ k). }
  destruct (decide (request_chain cfg r m1 = [] ∧ num_tokens r = 0))
    as [[Hempty Hn]|Hsafe].
  { rewrite !get_computed_blocks_pop_empty; try done. by rewrite <- Hchain. }
  rewrite !get_computed_blocks_outcome; try done; try tauto; cycle 1.
  { rewrite <- Hchain. tauto. }
  rewrite Hprobe, Hp.
  destruct (log_stats cfg); [|done].
  destruct (cache_telemetry m1) as [t1|], (cache_telemetry m2) as [t2|];
    try done.
  - destruct Ht as [Ht _]. by destruct Ht.
  - destruct Ht as [_ Ht]. by destruct Ht.
Qed.

(** X22.  [free] evicts nothing: whether it returns or raises, the cache index
    and the content hash of every block are as before, so under full
    attention a lookup for any request gives the same result after the
    [free] as before it.  The blocks of a freed request stay available as
    cache hits until the pool hands them out again. *)
Theorem free_keeps_lookups cfg r r' m :
  specialized_manager cfg = FullAttentionManager →
  let m' := (free cfg r m).2 in
  cached_block_hash_to_block (block_pool m')
  = cached_block_hash_to_block (block_pool m) ∧
  (∀ b, block_content_hash (block_pool m') b
        = block_content_hash (block_pool m) b) ∧
  (get_computed_blocks cfg r' m').1 = (get_computed_blocks cfg r' m).1.
Proof.
  intros Hpol. cbv zeta. rewrite free_eval. cbv zeta.
  set (l := if enable_caching cfg then _ else _).
  pose proof (free_blocks_keeps_cache l (block_pool m)) as [Hi Hc].
  destruct (free_blocks l (block_pool m)) as [res p]. simpl in Hi, Hc.
  destruct res as [[]|e]; simpl;
    (split; [done|]; split; [done|];
     apply get_computed_blocks_result_ext; simpl;
     [done
     |intros chain; rewrite Hpol; simpl; by apply full_attention_hit_index
     |done]).
Qed.

(** X23.  What [free] does in either outcome: the request's block list is
    gone, while the stored chains, the statistics, the telemetry and the
    entries of every other request are as before.  When it returns, the
    request's publication count is gone too.  It raises only
    [AssertionError], from the pool and only for a request that held
    blocks, and then the block list is already dropped while the
    publication count is still there. *)
Theorem free_outcome cfg r m :
  let res := (free cfg r m).1 in
  let m' := (free cfg r m).2 in
  req_to_blocks m' = delete (request_id r) (req_to_blocks m) ∧
  req_to_block_hashes m' = req_to_block_hashes m ∧
  observability m' = observability m ∧
  (∀ id, id ≠ request_id r → request_entries id m' = request_entries id m) ∧
  match res with
  | Returned _ =>
      num_cached_block m' = delete (request_id r) (num_cached_block m)
  | Raised e =>
      e = AssertionError ∧
      num_cached_block m' = num_cached_block m ∧
      held_blocks m (request_id r) ≠ []
  end.
Proof.
  cbv zeta. rewrite free_eval. cbv zeta.
  set (l := if enable_caching cfg then _ else _).
  destruct (free_blocks l (block_pool m)) as [res p] eqn:E.
  destruct res as [[]|e]; simpl.
  - repeat (split; [done|]). split; [|done].
    intros id Hid. unfold request_entries. simpl.
    by rewrite !lookup_delete_ne.
  - repeat (split; [done|]). split.
    { intros id Hid. unfold request_entries. simpl.
      by rewrite lookup_delete_ne. }
    split; [by eapply (ro_free_blocks (λ e, e = AssertionError))|].
    split; [done|].
    intros Hheld. unfold held_blocks in Hheld. subst l. rewrite Hheld in E.
    by destruct (enable_caching cfg).
Qed.

(** ** The further properties at concrete managers *)

(** A request without tokens, on a new manager. *)
Lemma get_computed_blocks_no_tokens_witness :
  (get_computed_blocks caching_config (example_request "e" 0 0)
     (example_manager caching_config)).1 = Raised IndexError.
Proof.
  rewrite (get_computed_blocks_no_tokens caching_config
             (example_request "e" 0 0) (example_manager caching_config)).
  - reflexivity.
  - reflexivity.
  - reflexivity.
  - reflexivity.
  - vm_compute. reflexivity.
Defined.


(** The lookup of the cached prompt for a second request, done twice. *)
Lemma get_computed_blocks_repeatable_witness :
  let m' := (get_computed_blocks caching_config (prompt_request "b")
               manager_with_cached_prompt).2 in
  ∃ m'',
    get_computed_blocks caching_config (prompt_request "b") m'
    = (Returned ([0%nat], 16), m'') ∧
    req_to_block_hashes m'' = req_to_block_hashes m' ∧
    request_chain caching_config (prompt_request "b") m'
    = request_chain caching_config (prompt_request "b")
        manager_with_cached_prompt.
Proof.
  apply (get_computed_blocks_repeatable caching_config (prompt_request "b")
           manager_with_cached_prompt).
  vm_compute. reflexivity.
Defined.

(** Two calls that are no hits, then a hit of five blocks. *)
Lemma first_hit_dropped_after_misses_witness :
  let w := telemetry_run [MissCall 3 (Some "a"); EvictionCall 1 None]
             (reset (CacheTelemetry_init "telemetry" true example_clock)) in
  first_block w.2 = true ∧
  total_hits (record_hit 5 (Some "a") w).2 = 0 ∧
  requests_with_hits (record_hit 5 (Some "a") w).2 = ∅ ∧
  total_blocks (record_hit 5 (Some "a") w).2 = total_misses w.2 ∧
  first_block (record_hit 5 (Some "a") w).2 = false.
Proof.
  apply (first_hit_dropped_after_misses
           [MissCall 3 (Some "a"); EvictionCall 1 None]).
  repeat constructor.
Defined.


(** A lookup, an allocation, a release, a drain of the statistics and a
    reset of the cache, on a new manager. *)
Lemma manager_run_stats_consistent_witness :
  stats_consistent
    (prefix_cache_stats
       (manager_run caching_config
          [GetComputedBlocks (prompt_request "a");
           AllocateSlots (prompt_request "a") 32 (Some []);
           GetComputedBlocks (prompt_request "b");
           Free (prompt_request "a");
           MakePrefixCacheStats;
           ResetPrefixCache]
          (example_manager caching_config))).
Proof.
  apply manager_run_stats_consistent.
  - apply full_attention_hit_within_chain.
  - vm_compute. repeat split; discriminate.
Defined.


(** A call for zero tokens, and a call that hands in a computed block
    without caching. *)
Lemma allocate_slots_exceptions_witness :
  let cfg := example_config false false 0 4 in
  allocate_slots cfg first_request 0 None (example_manager cfg)
  = (Raised ValueError, example_manager cfg) ∧
  (allocate_slots cfg first_request 16 None (example_manager cfg)).1
  ≠ Raised ValueError ∧
  (allocate_slots cfg first_request 16 (Some [0%nat]) (example_manager cfg)).1
  = Raised AssertionError.
Proof.
  intros cfg. split; [|split].
  - destruct (allocate_slots_exceptions cfg first_request 0 None
                (example_manager cfg)) as (Hzero & _).
    by apply Hzero.
  - destruct (allocate_slots_exceptions cfg first_request 16 None
                (example_manager cfg)) as (_ & Hiff & _).
    intros Hraise. apply Hiff in Hraise. discriminate.
  - destruct (allocate_slots_exceptions cfg first_request 16
                (Some [0%nat]) (example_manager cfg)) as (_ & _ & _ & Hassert).
    apply Hassert.
    + discriminate.
    + reflexivity.
    + discriminate.
    + reflexivity.
    + vm_compute. discriminate.
Defined.

(** The allocation for request "a" and the entries of request "b". *)
Lemma allocate_slots_other_requests_witness :
  preserves (allocate_slots caching_config (prompt_request "a") 32 (Some []))
    (request_entries "b").
Proof.
  apply (allocate_slots_other_requests caching_config (prompt_request "a")).
  discriminate.
Defined.

(** The allocation of the 32-token prompt: two blocks and four
    preallocated ones. *)
Lemma allocate_slots_appends_witness :
  let m := (get_computed_blocks caching_config (prompt_request "a")
              (example_manager caching_config)).2 in
  let r := prompt_request "a" in
  let new := [0; 1; 2; 3; 4; 5]%nat in
  let m' := manager_with_cached_prompt in
  ∃ kept removed,
    remove_skipped_blocks (specialized_manager caching_config)
      (held_blocks m (request_id r)) (num_computed_tokens r)
    = (kept, removed) ∧
    held_blocks m' (request_id r) = kept ++ default [] (Some []) ++ new ∧
    (new = [] ↔ required_new_blocks caching_config r 32 (default [] (Some [])) kept ≤ 0) ∧
    (specialized_manager caching_config = FullAttentionManager →
     held_blocks m' (request_id r)
     = held_blocks m (request_id r) ++ default [] (Some []) ++ new).
Proof.
  apply (allocate_slots_appends caching_config (prompt_request "a") 32
           (Some [])).
  vm_compute. reflexivity.
Defined.

(** Freeing the request that holds the cached prompt, and the lookup for
    another request with the same prompt. *)
Lemma free_keeps_lookups_witness :
  let m := manager_with_cached_prompt in
  let m' := (free caching_config (prompt_request "a") m).2 in
  cached_block_hash_to_block (block_pool m')
  = cached_block_hash_to_block (block_pool m) ∧
  (∀ b, block_content_hash (block_pool m') b
        = block_content_hash (block_pool m) b) ∧
  (get_computed_blocks caching_config (prompt_request "b") m').1
  = (get_computed_blocks caching_config (prompt_request "b") m).1.
Proof.
  apply (free_keeps_lookups caching_config (prompt_request "a")
           (prompt_request "b") manager_with_cached_prompt).
  reflexivity.
Defined.

(** ** The pool's queue and reference counts *)

Lemma occurrences_cons b x l :
  occurrences b (x :: l)
  = ((if decide (x = b) then 1 else 0) + occurrences b l)%nat.
Proof.
  unfold occurrences. rewrite filter_cons. by case_decide.
Qed.

Lemma occurrences_app b l1 l2 :
  occurrences b (l1 ++ l2) = (occurrences b l1 + occurrences b l2)%nat.
Proof. unfold occurrences. by rewrite filter_app, length_app. Qed.

Lemma occurrences_reverse b l : occurrences b (reverse l) = occurrences b l.
Proof.
  unfold occurrences. induction l as [|x l IH]; [done|].
  rewrite reverse_cons, filter_app, length_app, IH, !filter_cons.
  case_decide; simpl; lia.
Qed.

Lemma occurrences_not_elem b l : b ∉ l → occurrences b l = 0%nat.
Proof.
  induction l as [|x l IH]; [done|]. rewrite not_elem_of_cons.
  intros [Hx Hl]. rewrite occurrences_cons, IH by done.
  by rewrite decide_False.
Qed.

Lemma occurrences_NoDup b l :
  NoDup l → b ∈ l → occurrences b l = 1%nat.
Proof.
  induction 1 as [|x l Hx Hl IH]; [by intros ?%elem_of_nil|].
  rewrite occurrences_cons. intros [->|Hb]%elem_of_cons.
  - rewrite decide_True by done. by rewrite occurrences_not_elem.
  - rewrite decide_False by (intros ->; done). by rewrite IH.
Qed.

Lemma block_ref_cnt_update bl q idx q' idx' b k x :
  (b < length bl)%nat →
  block_ref_cnt {| blocks := <[b := k]> bl; free_block_queue := q';
                   cached_block_hash_to_block := idx' |} x
  = if decide (x = b) then ref_cnt k
    else block_ref_cnt {| blocks := bl; free_block_queue := q;
                          cached_block_hash_to_block := idx |} x.
Proof.
  intros Hb. unfold block_ref_cnt. simpl. case_decide as Hx.
  - subst x. by rewrite list_lookup_insert_eq.
  - by rewrite list_lookup_insert_ne.
Qed.

Lemma pool_ok_step p p' b c :
  pool_ok p →
  length (blocks p') = length (blocks p) →
  (∀ x, block_ref_cnt p' x
        = if decide (x = b) then c else block_ref_cnt p x) →
  (b < length (blocks p))%nat →
  NoDup (free_block_queue p') →
  (∀ y, y ∈ free_block_queue p' ↔
        (y ≠ b ∧ y ∈ free_block_queue p) ∨ (y = b ∧ c = 0%nat)) →
  pool_ok p'.
Proof.
  intros [Hnd Hq] Hlen Hrc Hb Hnd' Hq'. split; [done|].
  intros y. rewrite Hq', Hlen, Hrc, Hq.
  case_decide; subst; intuition (subst; try done; lia).
Qed.

Lemma touch_block_length p b :
  length (blocks (touch_block p b)) = length (blocks p).
Proof.
  unfold touch_block. destruct (blocks p !! b); [|done].
  simpl. by rewrite length_insert.
Qed.

Lemma touch_block_ref_cnt p b x :
  (b < length (blocks p))%nat →
  block_ref_cnt (touch_block p b) x
  = if decide (x = b) then S (block_ref_cnt p b) else block_ref_cnt p x.
Proof.
  intros Hb. unfold touch_block.
  destruct (blocks p !! b) as [k|] eqn:Ek;
    [|by apply lookup_ge_None in Ek; lia].
  destruct p as [bl q idx]. simpl in *.
  rewrite (block_ref_cnt_update bl q idx) by done.
  case_decide; [|done]. unfold block_ref_cnt. simpl. by rewrite Ek.
Qed.

Lemma touch_block_outside p b :
  ¬ (b < length (blocks p))%nat → touch_block p b = p.
Proof.
  intros Hb. unfold touch_block.
  by rewrite (proj2 (lookup_ge_None _ _)) by lia.
Qed.

Lemma touch_block_ok p b : pool_ok p → pool_ok (touch_block p b).
Proof.
  intros Hok. destruct (decide (b < length (blocks p))%nat) as [Hb|Hb];
    [|by rewrite touch_block_outside].
  apply (pool_ok_step p _ b (S (block_ref_cnt p b))); try done.
  - apply touch_block_length.
  - intros x. by apply touch_block_ref_cnt.
  - unfold touch_block. destruct (blocks p !! b) as [k|]; [|apply Hok].
    simpl. case_decide; [apply NoDup_filter|]; apply Hok.
  - intros y. unfold touch_block.
    destruct (blocks p !! b) as [k|] eqn:Ek;
      [|by apply lookup_ge_None in Ek; lia].
    simpl. destruct Hok as [_ Hq]. case_decide as Hk.
    + rewrite list_elem_of_filter. intuition (subst; done).
    + split; [|intuition (subst; done)]. intros Hy. left. split; [|done].
      intros ->. apply Hq in Hy as [_ Hy]. unfold block_ref_cnt in Hy.
      by rewrite Ek in Hy.
Qed.

Lemma touch_blocks_counts l : ∀ p,
  pool_ok p →
  let p' := foldl touch_block p l in
  pool_ok p' ∧
  length (blocks p') = length (blocks p) ∧
  ∀ b, (b < length (blocks p))%nat →
       block_ref_cnt p' b = (block_ref_cnt p b + occurrences b l)%nat.
Proof.
  induction l as [|x l IH]; intros p Hok; simpl.
  - split; [done|]. split; [done|]. intros b _. unfold occurrences. simpl. lia.
  - destruct (IH (touch_block p x) (touch_block_ok p x Hok))
      as (Hok' & Hlen & Hrc).
    split; [done|]. rewrite Hlen, touch_block_length. split; [done|].
    intros b Hb. rewrite Hrc by (by rewrite touch_block_length).
    rewrite occurrences_cons.
    destruct (decide (x < length (blocks p))%nat) as [Hx|Hx].
    + rewrite touch_block_ref_cnt by done.
      destruct (decide (b = x)) as [->|Hne].
      * rewrite decide_True by done. lia.
      * rewrite (decide_False (P := x = b)) by (intros ->; done). lia.
    + rewrite touch_block_outside by done.
      rewrite decide_False by (intros ->; done). lia.
Qed.

Lemma free_block_outcome b p :
  pool_ok p →
  if decide ((b < length (blocks p))%nat ∧ block_ref_cnt p b = 0%nat) then
    free_block b p = (Raised AssertionError, p)
  else
    ∃ p', free_block b p = (Returned tt, p') ∧
          pool_ok p' ∧
          length (blocks p') = length (blocks p) ∧
          ∀ x, (x < length (blocks p))%nat →
               block_ref_cnt p' x
               = if decide (x = b) then pred (block_ref_cnt p b)
                 else block_ref_cnt p x.
Proof.
  intros Hok. unfold free_block.
  destruct (blocks p !! b) as [k|] eqn:Ek; cycle 1.
  { apply lookup_ge_None in Ek. rewrite decide_False by lia.
    exists p. split; [done|]. split; [done|]. split; [done|].
    intros x Hx. rewrite decide_False by lia. done. }
  pose proof (lookup_lt_Some _ _ _ Ek) as Hb.
  assert (block_ref_cnt p b = ref_cnt k) as Hrc
    by (unfold block_ref_cnt; by rewrite Ek).
  rewrite Hrc. destruct (ref_cnt k) as [|n] eqn:En.
  { by rewrite decide_True. }
  rewrite decide_False by lia. eexists. split; [done|].
  assert (b ∉ free_block_queue p) as Hnq.
  { intros Hq. apply Hok in Hq as [_ Hq]. lia. }
  split; [|split].
  - apply (pool_ok_step p _ b n); try done.
    + simpl. by rewrite length_insert.
    + intros x. destruct p as [bl q idx]. simpl in *.
      by rewrite (block_ref_cnt_update bl q idx).
    + simpl. case_decide; [|apply Hok].
      apply NoDup_app. split; [apply Hok|]. split; [|apply NoDup_singleton].
      intros y Hy ->%list_elem_of_singleton. done.
    + intros y. simpl. case_decide.
      * rewrite elem_of_app, list_elem_of_singleton.
        intuition (subst; try done; lia).
      * intuition (subst; try done; lia).
  - simpl. by rewrite length_insert.
  - intros x Hx. destruct p as [bl q idx]. simpl in *.
    by rewrite (block_ref_cnt_update bl q idx).
Qed.

Lemma free_blocks_counts l : ∀ p,
  pool_ok p →
  (∀ b, (b < length (blocks p))%nat →
        (occurrences b l ≤ block_ref_cnt p b)%nat) →
  ∃ p', free_blocks l p = (Returned tt, p') ∧
        pool_ok p' ∧
        length (blocks p') = length (blocks p) ∧
        ∀ b, (b < length (blocks p))%nat →
             block_ref_cnt p' b = (block_ref_cnt p b - occurrences b l)%nat.
Proof.
  induction l as [|x l IH]; intros p Hok Hle.
  - exists p. split; [done|]. split; [done|]. split; [done|].
    intros b _. unfold occurrences. simpl. lia.
  - change (free_blocks (x :: l) p) with ((free_block x;; free_blocks l) p).
    pose proof (free_block_outcome x p Hok) as Hx.
    case_decide as Hzero.
    { destruct Hzero as [Hlt Hz]. specialize (Hle x Hlt).
      rewrite occurrences_cons, decide_True in Hle by done. lia. }
    destruct Hx as (p1 & E1 & Hok1 & Hlen1 & Hrc1).
    erewrite bind_eval by exact E1.
    destruct (IH p1 Hok1) as (p' & E & Hok' & Hlen' & Hrc').
    { intros b Hb. rewrite Hlen1 in Hb. rewrite Hrc1 by done.
      specialize (Hle b Hb). rewrite occurrences_cons in Hle.
      destruct (decide (b = x)) as [->|Hbx].
      - rewrite decide_True in Hle by done. lia.
      - rewrite (decide_False (P := x = b)) in Hle by (intros ->; done).
        lia. }
    exists p'. split; [done|]. split; [done|].
    split; [by rewrite Hlen', Hlen1|].
    intros b Hb. rewrite Hrc' by (by rewrite Hlen1). rewrite Hrc1 by done.
    rewrite occurrences_cons. specialize (Hle b Hb).
    rewrite occurrences_cons in Hle.
    destruct (decide (b = x)) as [->|Hbx].
    + rewrite decide_True in * by done. lia.
    + rewrite (decide_False (P := x = b)) in * by (intros ->; done). lia.
Qed.

Lemma take_block_length p b :
  length (blocks (take_block p b)) = length (blocks p).
Proof. unfold take_block. simpl. by rewrite length_insert. Qed.

Lemma take_block_ref_cnt p b x :
  (b < length (blocks p))%nat →
  block_ref_cnt (take_block p b) x
  = if decide (x = b) then 1%nat else block_ref_cnt p x.
Proof.
  intros Hb. unfold take_block. destruct p as [bl q idx]. simpl in *.
  by rewrite (block_ref_cnt_update bl q idx).
Qed.

Lemma take_block_ok p b :
  pool_ok p → (b < length (blocks p))%nat → pool_ok (take_block p b).
Proof.
  intros Hok Hb. apply (pool_ok_step p _ b 1); try done.
  - apply take_block_length.
  - intros x. by apply take_block_ref_cnt.
  - simpl. apply NoDup_filter, Hok.
  - intros y. simpl. rewrite list_elem_of_filter.
    split; [by left|]. by intros [?|[_ ?]].
Qed.

Lemma take_blocks_counts l : ∀ p,
  pool_ok p → NoDup l → (∀ b, b ∈ l → b ∈ free_block_queue p) →
  let p' := foldl take_block p l in
  pool_ok p' ∧
  length (blocks p') = length (blocks p) ∧
  ∀ b, (b < length (blocks p))%nat →
       block_ref_cnt p' b = (block_ref_cnt p b + occurrences b l)%nat.
Proof.
  induction l as [|x l IH]; intros p Hok Hnd Hq; simpl.
  - split; [done|]. split; [done|]. intros b _. unfold occurrences. simpl. lia.
  - apply NoDup_cons in Hnd as [Hx Hnd].
    destruct (proj1 (proj2 Hok x)) as [Hlt Hz]; [apply Hq; left|].
    destruct (IH (take_block p x)) as (Hok' & Hlen & Hrc).
    + by apply take_block_ok.
    + done.
    + intros b Hb. simpl. apply list_elem_of_filter. split.
      * intros ->. done.
      * apply Hq. by right.
    + split; [done|]. rewrite Hlen, take_block_length. split; [done|].
      intros b Hb. rewrite Hrc by (by rewrite take_block_length).
      rewrite take_block_ref_cnt, occurrences_cons by done.
      destruct (decide (b = x)) as [->|Hne].
      * rewrite decide_True by done. lia.
      * rewrite (decide_False (P := x = b)) by (intros ->; done). lia.
Qed.

Lemma get_new_blocks_counts n p :
  pool_ok p →
  match get_new_blocks n p with
  | (Returned new, p') =>
      pool_ok p' ∧
      length (blocks p') = length (blocks p) ∧
      NoDup new ∧
      (∀ b, b ∈ new → b ∈ free_block_queue p) ∧
      ∀ b, (b < length (blocks p))%nat →
           block_ref_cnt p' b = (block_ref_cnt p b + occurrences b new)%nat
  | (Raised _, p') => p' = p ∧ (length (free_block_queue p) < n)%nat
  end.
Proof.
  intros Hok. unfold get_new_blocks. case_decide as Hn; [done|].
  set (chosen := take n _).
  assert (NoDup chosen) as Hnd.
  { apply (sublist_NoDup chosen (filter (λ b, ¬ is_cached p b) (free_block_queue p)
                                   ++ filter (λ b, is_cached p b) (free_block_queue p)));
      [|apply sublist_take].
    apply NoDup_app. split; [apply NoDup_filter, Hok|].
    split; [|apply NoDup_filter, Hok].
    intros x [Hx _]%list_elem_of_filter [Hx' _]%list_elem_of_filter. done. }
  assert (∀ b, b ∈ chosen → b ∈ free_block_queue p) as Hsub.
  { intros b Hb. apply subseteq_take in Hb.
    apply elem_of_app in Hb as [Hb|Hb]; by apply list_elem_of_filter in Hb as [_ ?]. }
  destruct (take_blocks_counts chosen p Hok Hnd Hsub) as (Hok' & Hlen & Hrc).
  done.
Qed.

Lemma pool_ok_same p p' :
  free_block_queue p' = free_block_queue p →
  length (blocks p') = length (blocks p) →
  (∀ x, block_ref_cnt p' x = block_ref_cnt p x) →
  pool_ok p → pool_ok p'.
Proof.
  intros Hq Hlen Hrc [Hnd Hiff]. unfold pool_ok. rewrite Hq, Hlen.
  split; [done|]. intros b. by rewrite Hrc.
Qed.

Lemma cache_block_ref_cnt chain held p i x :
  block_ref_cnt (cache_block chain held p i) x = block_ref_cnt p x.
Proof.
  unfold cache_block.
  destruct (held !! i) as [b|]; [|done].
  destruct (chain !! i); [|done].
  destruct (blocks p !! b) as [k|] eqn:Ek; [|done].
  destruct (block_hash k); [done|].
  destruct p as [bl q idx]. simpl in *.
  rewrite (block_ref_cnt_update bl q idx) by (by eapply lookup_lt_Some).
  case_decide as Hx; [|done]. subst x. unfold block_ref_cnt. simpl.
  by rewrite Ek.
Qed.

Lemma cache_block_queue chain held p i :
  free_block_queue (cache_block chain held p i) = free_block_queue p.
Proof. unfold cache_block. by repeat case_match. Qed.

Lemma cache_blocks_counts chain held idxs : ∀ p,
  let p' := foldl (cache_block chain held) p idxs in
  free_block_queue p' = free_block_queue p ∧
  length (blocks p') = length (blocks p) ∧
  ∀ x, block_ref_cnt p' x = block_ref_cnt p x.
Proof.
  induction idxs as [|i idxs IH]; intros p; simpl; [done|].
  destruct (IH (cache_block chain held p i)) as (Hq & Hlen & Hrc).
  rewrite Hq, Hlen, cache_block_queue, cache_block_length.
  split; [done|]. split; [done|]. intros x.
  by rewrite Hrc, cache_block_ref_cnt.
Qed.

Lemma BlockPool_init_ok n : pool_ok (BlockPool_init n).
Proof.
  split; simpl; [apply NoDup_seq|].
  intros b. rewrite elem_of_seq, length_replicate. simpl.
  unfold block_ref_cnt. simpl. split.
  - intros [_ Hb]. split; [done|].
    by rewrite lookup_replicate_2.
  - intros [Hb _]. lia.
Qed.

Lemma filter_ext_elem {A} (P Q : A → Prop) `{!∀ x, Decision (P x)}
    `{!∀ x, Decision (Q x)} (l : list A) :
  (∀ x, x ∈ l → P x ↔ Q x) → filter P l = filter Q l.
Proof.
  induction l as [|a l IH]; intros Hl; [done|].
  rewrite !filter_cons, IH by (intros x Hx; apply Hl; by right).
  destruct (decide (P a)) as [HP|HP], (decide (Q a)) as [HQ|HQ]; try done.
  - exfalso. apply HQ, Hl; [left|done].
  - exfalso. apply HP, Hl; [left|done].
Qed.

Lemma length_filter_indices {A} (P : A → Prop) `{!∀ x, Decision (P x)}
    (l : list A) :
  length (filter P l)
  = length (filter (λ i, from_option P False (l !! i)) (seq 0 (length l))).
Proof.
  induction l as [|a l IH] using rev_ind; [done|].
  rewrite length_app. simpl. rewrite seq_app, !filter_app, !length_app, IH.
  simpl. f_equal.
  - f_equal. apply filter_ext_elem. intros i Hi.
    apply elem_of_seq in Hi. by rewrite lookup_app_l by lia.
  - rewrite !filter_cons, !filter_nil.
    rewrite lookup_app_r, Nat.sub_diag by lia. simpl.
    by destruct (decide (P a)).
Qed.

Lemma get_num_free_blocks_queue p :
  pool_ok p → get_num_free_blocks p = len (free_block_queue p).
Proof.
  intros [Hnd Hq]. unfold get_num_free_blocks, len. f_equal.
  rewrite (length_filter_indices (λ k, ref_cnt k = 0%nat)).
  apply Permutation_length, NoDup_Permutation;
    [apply NoDup_filter, NoDup_seq|done|].
  intros b. rewrite list_elem_of_filter, elem_of_seq, Hq.
  unfold block_ref_cnt.
  destruct (blocks p !! b) as [k|] eqn:Ek; simpl.
  - apply lookup_lt_Some in Ek. split; [intros [? _]|intros [_ ?]]; split;
      try done; lia.
  - apply lookup_ge_None in Ek. split; [by intros [[] _]|lia].
Qed.

(** ** The holders of a block *)

Lemma holders_empty b : holders ∅ b = 0%nat.
Proof. unfold holders. by rewrite map_fold_empty. Qed.

Lemma holders_insert_fresh d id l b :
  d !! id = None →
  holders (<[id := l]> d) b = (occurrences b l + holders d b)%nat.
Proof.
  intros Hd. unfold holders. rewrite map_fold_insert_L; [done| |done].
  intros. lia.
Qed.

Lemma holders_lookup d id l b :
  d !! id = Some l →
  holders d b = (occurrences b l + holders (delete id d) b)%nat.
Proof.
  intros Hd. unfold holders.
  rewrite (map_fold_delete_L _ _ id l d); [done| |done].
  intros. lia.
Qed.

Lemma holders_delete d id b :
  (holders (delete id d) b + occurrences b (default [] (d !! id)))%nat
  = holders d b.
Proof.
  destruct (d !! id) as [l|] eqn:Hd; simpl.
  - rewrite (holders_lookup d id l) by done. lia.
  - rewrite delete_id by done. unfold occurrences. simpl. lia.
Qed.

Lemma holders_insert d id l b :
  (holders (<[id := l]> d) b + occurrences b (default [] (d !! id)))%nat
  = (holders d b + occurrences b l)%nat.
Proof.
  rewrite <- (insert_delete_eq d), holders_insert_fresh
    by apply lookup_delete_eq.
  pose proof (holders_delete d id b). lia.
Qed.

(** ** Triples *)

Lemma triple_bind {S A B} (P : S → Prop) (c : M S A) (k : A → M S B)
    (Q1 : A → S → Prop) (Q : B → S → Prop) (E : S → Prop) :
  triple P c Q1 E → (∀ a, triple (Q1 a) (k a) Q E) →
  triple P (c ≫= k) Q E.
Proof.
  intros Hc Hk s Hs. specialize (Hc s Hs). unfold mbind, M_bind.
  destruct (c s) as [[a|e] s1]; [|done]. by apply Hk.
Qed.

Lemma triple_ret {S A} (P : S → Prop) (a : A) (Q : A → S → Prop)
    (E : S → Prop) :
  (∀ s, P s → Q a s) → triple P (mret a) Q E.
Proof. intros H s Hs. by apply H. Qed.

Lemma triple_gets {S A} (P : S → Prop) (f : S → A) (Q : A → S → Prop)
    (E : S → Prop) :
  (∀ s, P s → Q (f s) s) → triple P (gets f) Q E.
Proof. intros H s Hs. by apply H. Qed.

Lemma triple_modify {S} (P : S → Prop) (f : S → S) (Q : unit → S → Prop)
    (E : S → Prop) :
  (∀ s, P s → Q tt (f s)) → triple P (modify f) Q E.
Proof. intros H s Hs. by apply H. Qed.

Lemma triple_assert {S} (P : S → Prop) (b : bool) (Q : unit → S → Prop)
    (E : S → Prop) :
  (∀ s, P s → if b then Q tt s else E s) → triple P (assert b) Q E.
Proof. intros H s Hs. specialize (H s Hs). by destruct b. Qed.

Lemma triple_raise {S A} (P : S → Prop) e (Q : A → S → Prop) (E : S → Prop) :
  (∀ s, P s → E s) → triple P (raise e) Q E.
Proof. intros H s Hs. by apply H. Qed.

Lemma triple_weaken {S A} (P P' : S → Prop) (c : M S A)
    (Q Q' : A → S → Prop) (E E' : S → Prop) :
  triple P' c Q' E' →
  (∀ s, P s → P' s) → (∀ a s, Q' a s → Q a s) → (∀ s, E' s → E s) →
  triple P c Q E.
Proof.
  intros Hc HP HQ HE s Hs. specialize (Hc s (HP s Hs)).
  destruct (c s) as [[a|e] s1]; auto.
Qed.

(** ** The manager's lists and the pool *)

Lemma consistent_but_ext pending m m' :
  block_pool m' = block_pool m → req_to_blocks m' = req_to_blocks m →
  consistent_but pending m → consistent_but pending m'.
Proof. unfold consistent_but. by intros -> ->. Qed.

Lemma consistent_but_store pending pending' id l' m :
  (∀ b, (occurrences b (default [] (req_to_blocks m !! id))
         + occurrences b pending)%nat
        = (occurrences b l' + occurrences b pending')%nat) →
  consistent_but pending m →
  consistent_but pending'
    (set_req_to_blocks (<[id := l']> (req_to_blocks m)) m).
Proof.
  intros Hocc [Hok Hrc]. split; [done|]. simpl. intros b Hb.
  rewrite Hrc by done.
  pose proof (holders_insert (req_to_blocks m) id l' b).
  specialize (Hocc b). lia.
Qed.

Lemma consistent_but_pool pending pending' p m :
  pool_ok p →
  length (blocks p) = length (blocks (block_pool m)) →
  (∀ b, (b < length (blocks (block_pool m)))%nat →
        (block_ref_cnt p b + occurrences b pending)%nat
        = (block_ref_cnt (block_pool m) b + occurrences b pending')%nat) →
  consistent_but pending m →
  consistent_but pending' (set_block_pool p m).
Proof.
  intros Hok Hlen Hp [_ Hrc]. split; [done|]. simpl. intros b Hb.
  rewrite Hlen in Hb. specialize (Hp b Hb). specialize (Hrc b Hb). lia.
Qed.

Lemma KVCacheManager_init_consistent cfg t clk :
  manager_consistent (KVCacheManager_init cfg t clk).
Proof.
  split; simpl; [apply BlockPool_init_ok|].
  intros b Hb. rewrite holders_empty. unfold block_ref_cnt. simpl.
  rewrite length_replicate in Hb. by rewrite lookup_replicate_2.
Qed.

Lemma holds_ext id l pending m m' :
  block_pool m' = block_pool m → req_to_blocks m' = req_to_blocks m →
  holds id l pending m → holds id l pending m'.
Proof.
  intros Hp Hd [Hl Hc]. split; [by rewrite Hd|].
  by apply (consistent_but_ext pending m).
Qed.

Lemma holds_store id l l' pending m :
  default [] (req_to_blocks m !! id) = l →
  consistent_but pending m →
  (∀ b, (occurrences b l + occurrences b pending)%nat = occurrences b l') →
  holds id l' [] (set_req_to_blocks (<[id := l']> (req_to_blocks m)) m).
Proof.
  intros Hl Hc Hocc. split; [simpl; by rewrite lookup_insert_eq|].
  apply (consistent_but_store pending); [|done].
  intros b. rewrite Hl, Hocc. unfold occurrences. simpl. lia.
Qed.

Lemma triple_frame {A} pending (c : M KVCacheManager A) :
  preserves c (λ m, (block_pool m, req_to_blocks m)) →
  triple (consistent_but pending) c (λ _, consistent_but pending)
    (consistent_but pending).
Proof.
  intros Hc m Hm. specialize (Hc m). simpl in Hc.
  injection Hc as Hp Hd.
  destruct (c m) as [[a|e] m']; simpl in *;
    by apply (consistent_but_ext pending m).
Qed.

Lemma triple_frame_holds {A} id l pending (c : M KVCacheManager A) :
  preserves c (λ m, (block_pool m, req_to_blocks m)) →
  triple (holds id l pending) c (λ _, holds id l pending)
    (consistent_but pending).
Proof.
  intros Hc m Hm. specialize (Hc m). simpl in Hc.
  injection Hc as Hp Hd.
  destruct (c m) as [[a|e] m']; simpl in *.
  - by apply (holds_ext id l pending m).
  - apply (consistent_but_ext pending m); [done..|apply Hm].
Qed.

Lemma holds_consistent id l m : holds id l [] m → manager_consistent m.
Proof. by intros [_ ?]. Qed.

Lemma triple_on_pool_free_nothing id l :
  triple (holds id l []) (on_pool (free_blocks []))
    (λ _, holds id l []) manager_consistent.
Proof. intros m Hm. by apply (holds_ext id l [] m). Qed.

Lemma triple_touch id l ncb :
  triple (holds id l []) (on_pool (touch ncb))
    (λ _, holds id l ncb) manager_consistent.
Proof.
  intros m [Hl [Hok Hrc]]. unfold on_pool, touch, modify.
  destruct (touch_blocks_counts ncb (block_pool m) Hok) as (Hok' & Hlen & Hrc').
  split; [done|]. apply (consistent_but_pool [] ncb); try done.
  intros b Hb. rewrite Hrc' by done. unfold occurrences. simpl. lia.
Qed.

Lemma triple_get_new_blocks id l k :
  triple (holds id l []) (on_pool (get_new_blocks k))
    (λ new, holds id l new) manager_consistent.
Proof.
  intros m [Hl [Hok Hrc]]. unfold on_pool.
  pose proof (get_new_blocks_counts k (block_pool m) Hok) as Hnew.
  destruct (get_new_blocks k (block_pool m)) as [[new|e] p'].
  - destruct Hnew as (Hok' & Hlen & _ & _ & Hrc').
    split; [done|]. apply (consistent_but_pool [] new); try done.
    intros b Hb. rewrite Hrc' by done. unfold occurrences. simpl. lia.
  - destruct Hnew as [-> _]. by apply (consistent_but_ext [] m).
Qed.

Lemma triple_cache_full_blocks r held hashes nc nf bs fn :
  triple manager_consistent
    (on_pool (cache_full_blocks r held hashes nc nf bs fn))
    (λ _, manager_consistent) manager_consistent.
Proof.
  intros m [Hok Hrc]. unfold on_pool, cache_full_blocks, modify.
  set (p' := foldl _ _ _).
  destruct (cache_blocks_counts
              (extended_chain r hashes bs fn) held
              (seq (Z.to_nat nc) (Z.to_nat nf - Z.to_nat nc)) (block_pool m))
    as (Hq & Hlen & Hrc').
  fold p' in Hq, Hlen, Hrc'.
  apply (consistent_but_pool [] []); try done.
  - by apply (pool_ok_same (block_pool m)).
  - intros b Hb. by rewrite Hrc'.
Qed.

Lemma allocate_slots_consistent cfg r n ncb :
  specialized_manager cfg = FullAttentionManager →
  triple manager_consistent (allocate_slots cfg r n ncb)
    (λ _, manager_consistent) manager_consistent.
Proof.
  intros Hpol. unfold allocate_slots.
  case_decide; [by apply triple_raise|].
  set (ncb' := default [] ncb). set (id := request_id r).
  apply (triple_bind _ _ _ (λ l, holds id l [])).
  { intros m Hm. rewrite req_blocks_of_eq.
    apply (holds_store id (default [] (req_to_blocks m !! id)) _ []);
      [done|done|].
    intros b. unfold occurrences. simpl. lia. }
  intros l0. rewrite Hpol.
  change (remove_skipped_blocks FullAttentionManager l0 (num_computed_tokens r))
    with (l0, @nil nat).
  cbv beta iota.
  apply (triple_bind _ _ _ (λ _, holds id l0 [])).
  { apply triple_modify. intros m [Hl Hc].
    apply (holds_store id l0 _ []); [by rewrite Hl|done|].
    intros b. unfold occurrences. simpl. lia. }
  intros _. apply (triple_bind _ _ _ (λ _, holds id l0 []));
    [apply triple_on_pool_free_nothing|intros _].
  apply (triple_bind _ _ _ (λ _, holds id l0 []));
    [by apply triple_gets|intros pool].
  case_decide; [apply triple_ret; intros m; apply holds_consistent|].
  apply (triple_bind _ _ _ (λ _, holds id l0 ncb')).
  { destruct (enable_caching cfg); [apply triple_touch|].
    apply triple_assert. intros m Hm. case_bool_decide as Hncb.
    - by rewrite Hncb.
    - by apply holds_consistent in Hm. }
  intros _. apply (triple_bind _ _ _ (λ _, holds id (l0 ++ ncb') [])).
  { apply triple_modify. intros m [Hl Hc].
    apply (holds_store id l0 _ ncb'); [by rewrite Hl|done|].
    intros b. by rewrite occurrences_app. }
  intros _. apply (triple_bind _ _ _ (λ _, manager_consistent)).
  { case_decide; [apply triple_ret; intros m; apply holds_consistent|].
    apply (triple_bind _ _ _ (λ _, holds id (l0 ++ ncb') []));
      [by apply triple_gets|intros nfree].
    apply (triple_bind _ _ _ (λ _, holds id (l0 ++ ncb') [])).
    { apply triple_assert. intros m Hm. destruct (bool_decide _); [done|].
      by apply holds_consistent in Hm. }
    intros _. apply (triple_bind _ _ _ (λ _, holds id (l0 ++ ncb') []));
      [by apply triple_gets|intros readily].
    apply (triple_bind _ _ _ (λ _, holds id (l0 ++ ncb') [])).
    { case_decide; [|by apply triple_ret].
      apply (triple_bind _ _ _ (λ _, holds id (l0 ++ ncb') [])).
      - apply triple_modify. intros m Hm. by apply (holds_ext _ _ _ m).
      - intros _. destruct (log_stats cfg); [|by apply triple_ret].
        intros m Hm. unfold on_telemetry.
        destruct (cache_telemetry m).
        + by apply (holds_ext _ _ _ m).
        + by apply holds_consistent in Hm. }
    intros _. apply (triple_bind _ _ _ (λ new, holds id (l0 ++ ncb') new));
      [apply triple_get_new_blocks|intros new].
    apply (triple_bind _ _ _ (λ _, manager_consistent)).
    { apply triple_modify. intros m [Hl Hc].
      apply (holds_consistent id ((l0 ++ ncb') ++ new)).
      apply (holds_store id (l0 ++ ncb') _ new); [by rewrite Hl|done|].
      intros b. rewrite !occurrences_app. lia. }
    intros _. by apply triple_ret. }
  intros [rb nb].
  destruct (enable_caching cfg); simpl; [|by apply triple_ret].
  apply (triple_bind _ _ _ (λ _, manager_consistent));
    [by apply triple_gets|intros nc].
  apply (triple_bind _ _ _ (λ _, manager_consistent)).
  { apply triple_frame. intros m. by rewrite req_block_hashes_of_eq. }
  intros bh. apply (triple_bind _ _ _ (λ _, manager_consistent));
    [apply triple_cache_full_blocks|intros _].
  apply (triple_bind _ _ _ (λ _, manager_consistent)).
  { apply triple_modify. intros m Hm.
    by apply (consistent_but_ext [] m). }
  intros _. by apply triple_ret.
Qed.

Lemma get_computed_blocks_lists cfg r :
  preserves (get_computed_blocks cfg r) (λ m, (block_pool m, req_to_blocks m)).
Proof.
  unfold get_computed_blocks.
  destruct (enable_caching cfg); simpl; [|apply pr_ret].
  apply pr_bind; [by apply pr_req_block_hashes_of|intros stored].
  apply pr_bind.
  { destruct stored; [|apply pr_ret].
    apply pr_bind; [by apply pr_modify|intros _; apply pr_ret]. }
  intros chain. apply pr_bind; [by apply pr_modify|intros _].
  destruct (prompt_logprobs _); [apply pr_ret|].
  apply pr_bind.
  { case_decide; [|apply pr_ret].
    destruct (last chain); [|apply pr_raise].
    apply pr_bind; [by apply pr_modify|intros _; apply pr_ret]. }
  intros [probe last_hash].
  apply pr_bind; [apply pr_gets|intros pool].
  apply pr_bind; [by apply pr_modify|intros _].
  apply pr_bind.
  { destruct (log_stats cfg); [|apply pr_ret].
    apply pr_bind; [by apply pr_on_telemetry|intros _].
    by apply pr_on_telemetry. }
  intros _. apply pr_bind; [|intros _; apply pr_ret].
  destruct last_hash; [by apply pr_modify|apply pr_ret].
Qed.

Lemma free_consistent cfg r m :
  manager_consistent m →
  ∃ p',
    free cfg r m
    = (Returned tt,
       set_num_cached_block (delete (request_id r) (num_cached_block m))
         (set_block_pool p'
            (set_req_to_blocks (delete (request_id r) (req_to_blocks m)) m))) ∧
    pool_ok p' ∧
    length (blocks p') = length (blocks (block_pool m)) ∧
    (∀ b, (b < length (blocks (block_pool m)))%nat →
          block_ref_cnt p' b
          = (block_ref_cnt (block_pool m) b
             - occurrences b (held_blocks m (request_id r)))%nat) ∧
    (∀ b, (b < length (blocks (block_pool m)))%nat →
          block_ref_cnt p' b
          = holders (delete (request_id r) (req_to_blocks m)) b).
Proof.
  intros [Hok Hrc]. rewrite free_eval. cbv zeta.
  fold (held_blocks m (request_id r)).
  set (held := held_blocks m (request_id r)).
  set (l := if enable_caching cfg then reverse held else held).
  assert (∀ b, occurrences b l = occurrences b held) as Hl.
  { intros b. unfold l. destruct (enable_caching cfg); [|done].
    apply occurrences_reverse. }
  assert (∀ b, (b < length (blocks (block_pool m)))%nat →
               block_ref_cnt (block_pool m) b
               = (holders (delete (request_id r) (req_to_blocks m)) b
                  + occurrences b held)%nat) as Hsplit.
  { intros b Hb. rewrite Hrc by done.
    pose proof (holders_delete (req_to_blocks m) (request_id r) b) as Hd.
    unfold held, held_blocks. change (occurrences b []) with 0%nat. lia. }
  destruct (free_blocks_counts l (block_pool m) Hok) as (p' & E & Hok' & Hlen & Hrc').
  { intros b Hb. rewrite Hl, Hsplit by done. lia. }
  rewrite E. exists p'. split; [done|]. split; [done|]. split; [done|].
  split; intros b Hb; rewrite Hrc', Hl by done; [done|].
  rewrite Hsplit by done. lia.
Qed.

Lemma reset_prefix_cache_consistent m :
  manager_consistent m → manager_consistent (reset_prefix_cache m).2.
Proof.
  intros [Hok Hrc].
  unfold reset_prefix_cache, on_pool, BlockPool_reset_prefix_cache,
    mbind, M_bind.
  case_decide; simpl; [|done].
  assert (∀ b,
    block_ref_cnt
      {| blocks := (λ k, {| ref_cnt := ref_cnt k; block_hash := None |})
                   <$> blocks (block_pool m);
         free_block_queue := free_block_queue (block_pool m);
         cached_block_hash_to_block := ∅ |} b
    = block_ref_cnt (block_pool m) b) as Hsame.
  { intros b. unfold block_ref_cnt. simpl. rewrite list_lookup_fmap.
    by destruct (_ !! b). }
  split; simpl.
  - eapply pool_ok_same; [| |exact Hsame|exact Hok]; simpl; [done|].
    by rewrite length_fmap.
  - intros b Hb. rewrite length_fmap in Hb. rewrite Hsame. by apply Hrc.
Qed.

Lemma manager_step_consistent cfg c m :
  specialized_manager cfg = FullAttentionManager →
  manager_consistent m → manager_consistent (manager_step cfg c m).
Proof.
  intros Hpol Hm. destruct c as [r|r n ncb|r|r| |r n|]; simpl.
  - pose proof (get_computed_blocks_lists cfg r m) as Hsame.
    simpl in Hsame. injection Hsame as Hp Hd.
    by apply (consistent_but_ext [] m).
  - pose proof (allocate_slots_consistent cfg r n ncb Hpol m Hm) as Hc.
    by destruct (allocate_slots cfg r n ncb m) as [[a|e] m'].
  - destruct (free_consistent cfg r m Hm) as (p' & -> & Hok' & Hlen & _ & Hrc').
    split; [done|]. simpl. intros b Hb. rewrite Hlen in Hb.
    rewrite Hrc' by done. unfold occurrences. simpl. lia.
  - by apply (consistent_but_ext [] m).
  - by apply (consistent_but_ext [] m).
  - unfold get_num_common_prefix_blocks.
    destruct (status r); try done.
    erewrite bind_eval by apply req_blocks_of_eq. simpl.
    destruct Hm as [Hok Hrc]. split; [done|]. simpl. intros b Hb.
    rewrite Hrc by done.
    pose proof (holders_insert (req_to_blocks m) (request_id r)
                  (default [] (req_to_blocks m !! request_id r)) b).
    lia.
  - by apply reset_prefix_cache_consistent.
Qed.

Lemma manager_run_keeps_consistent cfg calls : ∀ m,
  specialized_manager cfg = FullAttentionManager →
  manager_consistent m → manager_consistent (manager_run cfg calls m).
Proof.
  unfold manager_run.
  induction calls as [|c calls IH]; intros m Hpol Hm; simpl; [done|].
  by apply IH, manager_step_consistent.
Qed.

(** X24.  Under full attention, the manager's bookkeeping and the pool agree
    along any run of calls of its methods, in any order, with any
    arguments, whether they return or raise: the reference count of every
    block is the number of times the requests' block lists name it, and
    the pool's queue holds the unreferenced blocks, each once.  A new
    manager starts so, and then the free blocks the manager counts are the
    queued ones. *)
Theorem manager_run_consistent cfg calls telemetry clk :
  specialized_manager cfg = FullAttentionManager →
  manager_consistent (KVCacheManager_init cfg telemetry clk) ∧
  (∀ m, manager_consistent m → manager_consistent (manager_run cfg calls m)) ∧
  (∀ m, manager_consistent m →
        get_num_free_blocks (block_pool m) = len (free_block_queue (block_pool m))).
Proof.
  intros Hpol. split; [apply KVCacheManager_init_consistent|]. split.
  - intros m Hm. by apply manager_run_keeps_consistent.
  - intros m [Hok _]. by apply get_num_free_blocks_queue.
Qed.

(** X25.  On a manager whose lists agree with the pool, [free] always returns:
    the pool's assertion on releasing an unreferenced block cannot fail.
    It leaves the manager in agreement, lowers the count of every block by
    the number of times the request's list named it, and a block only this
    request held is in the evictable queue afterwards. *)
Theorem free_returns_when_consistent cfg r m :
  manager_consistent m →
  ∃ m',
    free cfg r m = (Returned tt, m') ∧
    manager_consistent m' ∧
    (∀ b, (b < length (blocks (block_pool m)))%nat →
          block_ref_cnt (block_pool m') b
          = (block_ref_cnt (block_pool m) b
             - occurrences b (held_blocks m (request_id r)))%nat) ∧
    (∀ b, (b < length (blocks (block_pool m)))%nat →
          b ∈ held_blocks m (request_id r) →
          holders (req_to_blocks m) b
          = occurrences b (held_blocks m (request_id r)) →
          b ∈ free_block_queue (block_pool m')).
Proof.
  intros Hm.
  destruct (free_consistent cfg r m Hm) as (p' & E & Hok' & Hlen & Hrc & Hrc').
  eexists. split; [exact E|]. simpl. split; [|split].
  - split; [done|]. simpl. intros b Hb. rewrite Hlen in Hb.
    rewrite Hrc' by done. change (occurrences b []) with 0%nat. lia.
  - done.
  - intros b Hb _ Honly. apply Hok'. rewrite Hlen. split; [done|].
    rewrite Hrc by done. destruct Hm as [_ Hcnt].
    rewrite Hcnt by done. change (occurrences b []) with 0%nat. lia.
Qed.

(** X26.  On a manager whose lists agree with the pool, under full attention,
    the new blocks [allocate_slots] returns are distinct blocks of the
    pool that nobody held: each had reference count zero and was in no
    request's list, is none of the computed blocks handed in, and
    afterwards has reference count one and occurs once in the lists. *)
Theorem allocate_slots_hands_out_unused cfg r n ncb m new m' :
  specialized_manager cfg = FullAttentionManager →
  manager_consistent m →
  allocate_slots cfg r n ncb m = (Returned (Some new), m') →
  NoDup new ∧
  ∀ b, b ∈ new →
    (b < length (blocks (block_pool m)))%nat ∧
    block_ref_cnt (block_pool m) b = 0%nat ∧
    holders (req_to_blocks m) b = 0%nat ∧
    (b ∉ default [] ncb) ∧
    block_ref_cnt (block_pool m') b = 1%nat ∧
    holders (req_to_blocks m') b = 1%nat.
Proof.
  intros Hpol Hm E.
  pose proof (allocate_slots_consistent cfg r n ncb Hpol m Hm) as Hm'.
  rewrite E in Hm'.
  apply allocate_slots_Some_inv in E as (kept & removed & p1 & p2 & p3 & Hs).
  pose proof (as_skipped _ _ _ _ _ _ _ _ _ _ _ _ Hs) as Hskip.
  pose proof (as_released _ _ _ _ _ _ _ _ _ _ _ _ Hs) as Hrel.
  pose proof (as_touched _ _ _ _ _ _ _ _ _ _ _ _ Hs) as Htouch.
  pose proof (as_pulled _ _ _ _ _ _ _ _ _ _ _ _ Hs) as Hpull.
  pose proof (as_cached _ _ _ _ _ _ _ _ _ _ _ _ Hs) as Hcached.
  rewrite Hpol in Hskip. simpl in Hskip. injection Hskip as <- <-.
  injection Hrel as <-.
  set (ncb' := default [] ncb) in *.
  destruct Hm as [Hok Hrc].
  assert (pool_ok p2 ∧ length (blocks p2) = length (blocks (block_pool m)) ∧
          ∀ b, (b < length (blocks (block_pool m)))%nat →
               block_ref_cnt p2 b
               = (block_ref_cnt (block_pool m) b + occurrences b ncb')%nat)
    as (Hok2 & Hlen2 & Hrc2).
  { destruct (enable_caching cfg).
    - subst p2. by apply touch_blocks_counts.
    - destruct Htouch as [-> ->]. split; [done|]. split; [done|].
      intros b _. change (occurrences b []) with 0%nat. lia. }
  case_decide as Hneed.
  { destruct Hpull as [-> _]. split; [constructor|].
    by intros b ?%elem_of_nil. }
  cbv zeta in Hpull. destruct Hpull as [_ Hget].
  pose proof (get_new_blocks_counts
                (Z.to_nat (pulled_blocks cfg
                   (required_new_blocks cfg r n ncb'
                      (default [] (req_to_blocks m !! request_id r)))
                   (get_num_free_blocks p2)
                   (len (default [] (req_to_blocks m !! request_id r) ++ ncb'))))
                p2 Hok2) as Hnew.
  rewrite Hget in Hnew. destruct Hnew as (Hok3 & Hlen3 & Hnd & Hsub & Hrc3).
  assert (∀ b, block_ref_cnt (block_pool m') b = block_ref_cnt p3 b) as Hrc4.
  { intros b. destruct (enable_caching cfg).
    - destruct Hcached as (_ & Hcache & _).
      unfold cache_full_blocks, modify in Hcache. injection Hcache as <-.
      apply cache_blocks_counts.
    - by destruct Hcached as (_ & -> & _). }
  assert (length (blocks (block_pool m')) = length (blocks p3)) as Hlen4.
  { destruct (enable_caching cfg).
    - destruct Hcached as (_ & Hcache & _).
      unfold cache_full_blocks, modify in Hcache. injection Hcache as <-.
      apply cache_blocks_counts.
    - by destruct Hcached as (_ & -> & _). }
  split; [done|]. intros b Hb.
  pose proof (Hsub b Hb) as Hq. apply Hok2 in Hq as [Hlt Hz].
  rewrite Hlen2 in Hlt. rewrite Hrc2 in Hz by done.
  pose proof (Hrc b Hlt) as Hh. change (occurrences b []) with 0%nat in Hh.
  split; [done|]. split; [lia|]. split; [lia|].
  split.
  { intros Hin. assert (occurrences b ncb' = 0%nat) as Hocc by lia.
    unfold occurrences in Hocc. apply length_zero_iff_nil in Hocc.
    assert (b ∈ filter (λ x, x = b) ncb') as Hf
      by (by apply list_elem_of_filter).
    rewrite Hocc in Hf. by apply elem_of_nil in Hf. }
  assert (block_ref_cnt (block_pool m') b = 1%nat) as Hone.
  { rewrite Hrc4, Hrc3 by (by rewrite Hlen2).
    rewrite (occurrences_NoDup b new) by done.
    rewrite Hrc2 by done. lia. }
  split; [done|].
  destruct Hm' as [_ Hrc']. rewrite Hrc' in Hone; [|by rewrite Hlen4, Hlen3, Hlen2].
  change (occurrences b []) with 0%nat in Hone. lia.
Qed.

Lemma triple_pure {S A} (P : S → Prop) (φ : Prop) (c : M S A)
    (Q : A → S → Prop) (E : S → Prop) :
  (∀ s, P s → φ) → (φ → triple P c Q E) → triple P c Q E.
Proof. intros H1 H2 s Hs. apply H2; [by eapply H1|done]. Qed.

Lemma allocate_slots_returns_triple cfg r n ncb m :
  specialized_manager cfg = FullAttentionManager →
  manager_consistent m →
  n ≠ 0 →
  (enable_caching cfg = false → default [] ncb = []) →
  0 ≤ num_preallocate_blocks cfg →
  len (held_blocks m (request_id r) ++ default [] ncb)
  < max_num_blocks_per_req cfg →
  triple (λ s, s = m) (allocate_slots cfg r n ncb)
    (λ res _,
       res = None ↔
       required_new_blocks cfg r n (default [] ncb)
         (held_blocks m (request_id r))
       > get_num_free_blocks (block_pool m)
         - num_evictable (block_pool m) (default [] ncb))
    (λ _, False).
Proof.
  intros Hpol Hm Hn Hncb Hpre Hcap.
  unfold allocate_slots. rewrite decide_False by done.
  set (ncb' := default [] ncb) in *. set (id := request_id r) in *.
  set (l0 := held_blocks m id) in *.
  apply (triple_bind _ _ _
           (λ l s, l = l0 ∧ holds id l0 [] s ∧ block_pool s = block_pool m)).
  { intros s ->. rewrite req_blocks_of_eq. split; [done|]. split; [|done].
    apply (holds_store id l0 _ []); [done|done|].
    intros b. change (occurrences b []) with 0%nat. lia. }
  intros l. apply (triple_pure _ (l = l0)); [by intros s [? _]|intros ->].
  rewrite Hpol.
  change (remove_skipped_blocks FullAttentionManager l0 (num_computed_tokens r))
    with (l0, @nil nat).
  cbv beta iota.
  apply (triple_bind _ _ _
           (λ _ s, holds id l0 [] s ∧ block_pool s = block_pool m)).
  { apply triple_modify. intros s (_ & [Hl Hc] & Hp). split; [|done].
    apply (holds_store id l0 _ []); [by rewrite Hl|done|].
    intros b. change (occurrences b []) with 0%nat. lia. }
  intros _.
  apply (triple_bind _ _ _
           (λ _ s, holds id l0 [] s ∧ block_pool s = block_pool m)).
  { intros s [H Hp]. split; [by apply (holds_ext id l0 [] s)|done]. }
  intros _.
  apply (triple_bind _ _ _
           (λ pool s, pool = block_pool m ∧ holds id l0 [] s
                      ∧ block_pool s = block_pool m)).
  { apply triple_gets. intros s [H Hp]. done. }
  intros pool.
  apply (triple_pure _ (pool = block_pool m)); [by intros s [? _]|intros ->].
  fold (required_new_blocks cfg r n ncb' l0).
  fold (num_evictable (block_pool m) ncb').
  set (need := required_new_blocks cfg r n ncb' l0).
  case_decide as Hc; [by apply triple_ret|].
  assert (∀ res : option (list nat), is_Some res →
            res = None ↔
            need > get_num_free_blocks (block_pool m)
                   - num_evictable (block_pool m) ncb') as Hres.
  { intros res [new ->]. split; [done|]. intros. lia. }
  apply (triple_bind _ _ _
           (λ _ s, holds id l0 ncb' s
                   ∧ need ≤ get_num_free_blocks (block_pool s))).
  { destruct (enable_caching cfg) eqn:Hcache.
    - intros s (_ & [Hl [Hok Hrc]] & Hp). unfold on_pool, touch, modify.
      destruct (touch_blocks_counts ncb' (block_pool s) Hok)
        as (Hok' & Hlen & Hrc').
      split.
      + split; [done|]. apply (consistent_but_pool [] ncb'); try done.
        intros b Hb. rewrite Hrc' by done.
        change (occurrences b []) with 0%nat. lia.
      + pose proof (get_num_free_blocks_touched ncb' (block_pool s)) as Ht.
        rewrite Hp in Ht. simpl. rewrite Hp. lia.
    - rewrite (Hncb eq_refl) in *. apply triple_assert.
      rewrite bool_decide_eq_true_2 by done.
      intros s (_ & H & Hp). split; [done|]. rewrite Hp.
      unfold num_evictable, len in Hc. simpl in Hc. lia. }
  intros _.
  apply (triple_bind _ _ _
           (λ _ s, holds id (l0 ++ ncb') [] s
                   ∧ need ≤ get_num_free_blocks (block_pool s))).
  { apply triple_modify. intros s [[Hl Hcons] Hfree]. split; [|done].
    apply (holds_store id l0 _ ncb'); [by rewrite Hl|done|].
    intros b. by rewrite occurrences_app. }
  intros _. apply (triple_bind _ _ _ (λ _ _, True)).
  { case_decide as Hneed; [by apply triple_ret|].
    apply (triple_bind _ _ _
             (λ nfree s, nfree = get_num_free_blocks (block_pool s)
                         ∧ holds id (l0 ++ ncb') [] s ∧ need ≤ nfree)).
    { apply triple_gets. intros s [H Hf]. done. }
    intros nfree.
    apply (triple_pure _ (need ≤ nfree)); [by intros s (_ & _ & ?)|intros Hnf].
    set (k := Z.min (Z.min (need + num_preallocate_blocks cfg) nfree)
                (max_num_blocks_per_req cfg - len (l0 ++ ncb'))).
    assert (0 < k ≤ nfree) as Hk by (unfold k; fold need in Hneed; lia).
    apply (triple_bind _ _ _
             (λ _ s, nfree = get_num_free_blocks (block_pool s)
                     ∧ holds id (l0 ++ ncb') [] s ∧ need ≤ nfree)).
    { apply triple_assert. rewrite bool_decide_eq_true_2 by lia. done. }
    intros _.
    apply (triple_bind _ _ _
             (λ readily s, readily = nfree
                           ∧ nfree = get_num_free_blocks (block_pool s)
                           ∧ holds id (l0 ++ ncb') [] s)).
    { apply triple_gets. intros s (-> & H & _). done. }
    intros readily.
    apply (triple_pure _ (readily = nfree)); [by intros s [? _]|intros ->].
    rewrite decide_False by lia.
    apply (triple_bind _ _ _
             (λ _ s, nfree = get_num_free_blocks (block_pool s)
                     ∧ holds id (l0 ++ ncb') [] s)).
    { apply triple_ret. by intros s (_ & ? & ?). }
    intros _. apply (triple_bind _ _ _ (λ _ _, True)).
    { intros s (Hfree & [Hl [Hok Hrc]]). unfold on_pool.
      pose proof (get_new_blocks_counts (Z.to_nat k) (block_pool s) Hok)
        as Hnew.
      destruct (get_new_blocks (Z.to_nat k) (block_pool s)) as [[new|e] p'];
        [done|].
      destruct Hnew as [_ Hlt].
      pose proof (get_num_free_blocks_queue _ Hok) as Hq.
      unfold len in Hq. lia. }
    intros new.
    apply (triple_bind _ _ _ (λ _ _, True));
      [by apply triple_modify|intros _; by apply triple_ret]. }
  intros [rb nb].
  destruct (enable_caching cfg); simpl;
    [|apply triple_ret; intros; by apply Hres].
  apply (triple_bind _ _ _ (λ _ _, True)); [by apply triple_gets|intros nc].
  apply (triple_bind _ _ _ (λ _ _, True)).
  { intros s _. by rewrite req_block_hashes_of_eq. }
  intros bh. apply (triple_bind _ _ _ (λ _ _, True)); [done|intros _].
  apply (triple_bind _ _ _ (λ _ _, True)); [by apply triple_modify|intros _].
  apply triple_ret. intros. by apply Hres.
Qed.

(** X27.  On a manager whose lists agree with the pool, under full attention,
    [allocate_slots] returns and raises nothing when the token count is
    not zero, computed blocks are handed in only with caching enabled, the
    preallocation is not negative and the request's blocks are below the
    cap per request.  It returns [None] exactly when the blocks still
    required exceed the free blocks minus the unreferenced computed
    blocks. *)
Theorem allocate_slots_returns cfg r n ncb m :
  specialized_manager cfg = FullAttentionManager →
  manager_consistent m →
  n ≠ 0 →
  (enable_caching cfg = false → default [] ncb = []) →
  0 ≤ num_preallocate_blocks cfg →
  len (held_blocks m (request_id r) ++ default [] ncb)
  < max_num_blocks_per_req cfg →
  ∃ res m',
    allocate_slots cfg r n ncb m = (Returned res, m') ∧
    manager_consistent m' ∧
    (res = None ↔
     required_new_blocks cfg r n (default [] ncb)
       (held_blocks m (request_id r))
     > get_num_free_blocks (block_pool m)
       - num_evictable (block_pool m) (default [] ncb)).
Proof.
  intros Hpol Hm Hn Hncb Hpre Hcap.
  pose proof (allocate_slots_returns_triple cfg r n ncb m Hpol Hm Hn Hncb Hpre
                Hcap m eq_refl) as Hret.
  pose proof (allocate_slots_consistent cfg r n ncb Hpol m Hm) as Hcons.
  destruct (allocate_slots cfg r n ncb m) as [[res|e] m']; [|done].
  by exists res, m'.
Qed.

(** ** Consistency at concrete managers *)

Lemma example_manager_consistent cfg : manager_consistent (example_manager cfg).
Proof.
  unfold example_manager. destruct (CacheTelemetry_init _ _ _).
  apply KVCacheManager_init_consistent.
Qed.

Lemma manager_with_cached_prompt_consistent :
  manager_consistent manager_with_cached_prompt.
Proof.
  apply (manager_run_keeps_consistent caching_config
           [GetComputedBlocks (prompt_request "a");
            AllocateSlots (prompt_request "a") 32 (Some [])]
           (example_manager caching_config));
    [reflexivity|apply example_manager_consistent].
Qed.

(** A lookup, an allocation and a release on a new manager. *)
Lemma manager_run_consistent_witness :
  let calls := [GetComputedBlocks (prompt_request "a");
                AllocateSlots (prompt_request "a") 32 (Some []);
                Free (prompt_request "a")] in
  manager_consistent (KVCacheManager_init caching_config None example_clock) ∧
  (∀ m, manager_consistent m →
        manager_consistent (manager_run caching_config calls m)) ∧
  (∀ m, manager_consistent m →
        get_num_free_blocks (block_pool m)
        = len (free_block_queue (block_pool m))).
Proof.
  apply (manager_run_consistent caching_config _ None example_clock).
  reflexivity.
Defined.

(** The release of the request that holds the cached prompt. *)
Lemma free_returns_when_consistent_witness :
  let m := manager_with_cached_prompt in
  let r := prompt_request "a" in
  ∃ m',
    free caching_config r m = (Returned tt, m') ∧
    manager_consistent m' ∧
    (∀ b, (b < length (blocks (block_pool m)))%nat →
          block_ref_cnt (block_pool m') b
          = (block_ref_cnt (block_pool m) b
             - occurrences b (held_blocks m (request_id r)))%nat) ∧
    (∀ b, (b < length (blocks (block_pool m)))%nat →
          b ∈ held_blocks m (request_id r) →
          holders (req_to_blocks m) b
          = occurrences b (held_blocks m (request_id r)) →
          b ∈ free_block_queue (block_pool m')).
Proof.
  apply (free_returns_when_consistent caching_config (prompt_request "a")
           manager_with_cached_prompt).
  apply manager_with_cached_prompt_consistent.
Defined.

(** The allocation of the 32-token prompt on a new manager. *)
Lemma allocate_slots_hands_out_unused_witness :
  let m := manager_run caching_config
             [GetComputedBlocks (prompt_request "a")]
             (example_manager caching_config) in
  let new := [0; 1; 2; 3; 4; 5]%nat in
  NoDup new ∧
  ∀ b, b ∈ new →
    (b < length (blocks (block_pool m)))%nat ∧
    block_ref_cnt (block_pool m) b = 0%nat ∧
    holders (req_to_blocks m) b = 0%nat ∧
    (b ∉ default [] (Some [])) ∧
    block_ref_cnt (block_pool manager_with_cached_prompt) b = 1%nat ∧
    holders (req_to_blocks manager_with_cached_prompt) b = 1%nat.
Proof.
  apply (allocate_slots_hands_out_unused caching_config (prompt_request "a")
           32 (Some [])).
  - reflexivity.
  - apply manager_run_keeps_consistent;
      [reflexivity|apply example_manager_consistent].
  - vm_compute. reflexivity.
Defined.

(** The same allocation returns. *)
Lemma allocate_slots_returns_witness :
  let m := manager_run caching_config
             [GetComputedBlocks (prompt_request "a")]
             (example_manager caching_config) in
  let r := prompt_request "a" in
  ∃ res m',
    allocate_slots caching_config r 32 (Some []) m = (Returned res, m') ∧
    manager_consistent m' ∧
    (res = None ↔
     required_new_blocks caching_config r 32 (default [] (Some []))
       (held_blocks m (request_id r))
     > get_num_free_blocks (block_pool m)
       - num_evictable (block_pool m) (default [] (Some []))).
Proof.
  apply (allocate_slots_returns caching_config (prompt_request "a") 32
           (Some [])).
  - reflexivity.
  - apply manager_run_keeps_consistent;
      [reflexivity|apply example_manager_consistent].
  - discriminate.
  - discriminate.
  - vm_compute. discriminate.
  - vm_compute. reflexivity.
Defined.

(** While the prompt's blocks are held the reset is refused; on a new
    manager it goes through. *)
Lemma reset_prefix_cache_outcome_witness :
  reset_prefix_cache manager_with_cached_prompt
  = (Returned false, manager_with_cached_prompt) ∧
  (reset_prefix_cache (example_manager caching_config)).1 = Returned true.
Proof.
  split.
  - apply (reset_prefix_cache_outcome manager_with_cached_prompt).
    exists 0%nat. vm_compute. discriminate.
  - destruct (reset_prefix_cache_outcome (example_manager caching_config))
      as [_ Hreset].
    destruct Hreset as (m' & -> & _); [|reflexivity].
    intros b. do 10 (destruct b as [|b]; [reflexivity|]). reflexivity.
Defined.
